(** * SafeStep offline queue, gestures, voice commands and background service

    A shallow embedding of the classes of the application:

    - [GestureManager]    (third unit of src/src/utils/offlineManager.ts):
                           the shake counter and the touch gestures;
    - [BackgroundService] (src/src/utils/backgroundService.ts): start / stop;
    - [OfflineManager]    (first unit of src/src/utils/offlineManager.ts):
                           the persisted action queue and its drain, with
                           the callers that choose between it and the
                           remote store;
    - [VoiceCommandManager] (fourth unit of src/src/utils/offlineManager.ts):
                           the command table;
    - [PermissionManager] (second unit of src/src/utils/backgroundService.ts).

    Conventions.  JavaScript numbers that the code only counts or compares
    (timestamps from [Date.now()], retry counters, timer handles, sensor
    readings) are integers [Z]; touch coordinates, of which it takes a
    square root and a quotient, are IEEE doubles.  Platform calls that can
    throw are explicit: synchronous code runs in a small state-and-exception
    monad, and every environment-dependent outcome is an argument of the
    function that observes it. *)

From stdpp Require Import base option list strings gmap pretty.
From Stdlib Require Import ZArith Lia.
From Stdlib Require Floats.
From Ceres Require Import Ceres.

Local Open Scope Z_scope.
Set Warnings "-register-all".

(* ===================================================================== *)
(** ** Synchronous JavaScript code: state and exceptions                 *)
(* ===================================================================== *)

(** How a statement completes: normally with a value, or by throwing. *)
Inductive Completion (A : Type) : Type :=
| Normal (a : A)
| Thrown (msg : string).
Arguments Normal {A} a.
Arguments Thrown {A} msg.

Definition Js (S A : Type) : Type := S → Completion A * S.

Definition js_ret {S A} (a : A) : Js S A := λ s, (Normal a, s).

Definition js_bind {S A B} (m : Js S A) (k : A → Js S B) : Js S B :=
  λ s, match m s with
       | (Normal a, s') => k a s'
       | (Thrown e, s') => (Thrown e, s')
       end.

Definition throw {S A} (msg : string) : Js S A := λ s, (Thrown msg, s).

(** [try { body } catch (error) { handler(error) }] *)
Definition try_catch {S A} (body : Js S A) (handler : string → Js S A)
    : Js S A :=
  λ s, match body s with
       | (Normal a, s') => (Normal a, s')
       | (Thrown e, s') => handler e s'
       end.

Definition get_state {S} : Js S S := λ s, (Normal s, s).
Definition modify {S} (f : S → S) : Js S unit := λ s, (Normal tt, f s).

(** [if (c) { m }] *)
Definition when {S} (c : bool) (m : Js S unit) : Js S unit :=
  if c then m else js_ret tt.

Arguments js_ret {S A} a _ /.
Arguments js_bind {S A B} m k _ /.
Arguments throw {S A} msg _ /.
Arguments try_catch {S A} body handler _ /.
Arguments get_state {S} _ /.
Arguments modify {S} f _ /.

Notation "x <- m ;; k" := (js_bind m (λ x, k))
  (at level 100, m at next level, right associativity, only parsing).
Notation "m ;;; k" := (js_bind m (λ _, k))
  (at level 100, right associativity, only parsing).

(** The state a call leaves behind, and what it handed to its caller. *)
Definition outcome {S A} (m : Js S A) (s : S) : Completion A := (m s).1.
Definition after {S A} (m : Js S A) (s : S) : S := (m s).2.
Arguments outcome {S A} m s /.
Arguments after {S A} m s /.

(* ===================================================================== *)
(** ** Shake counting: [GestureManager.handleDeviceMotion]               *)
(* ===================================================================== *)

Module GestureManager.

(** [{ x, y, z }] of [lastAcceleration]. *)
Record Acceleration := mkAcc { acc_x : Z; acc_y : Z; acc_z : Z }.

(** [e.accelerationIncludingGravity]: each axis is a number or [null]. *)
Record DeviceAcceleration :=
  mkDev { dev_x : option Z; dev_y : option Z; dev_z : option Z }.

(** A [DeviceMotionEvent]; [None] is a null [accelerationIncludingGravity]. *)
Definition DeviceMotionEvent := option DeviceAcceleration.

(** The four notification texts of [handleDeviceMotion]. *)
Inductive GestureNotice :=
| ShakeDetected (n : Z)
| ShakeProgress (n : Z)
| PanicSirenActivated
| SOSAlertActivated.

(** What the manager does to the outside world. *)
Inductive Effect :=
| ShowGestureNotification (m : GestureNotice)
| OnShake (n : Z).

(** A pending [setTimeout]: handle and the time at which it is due.  The
    only callback ever registered is [resetShakeCount]. *)
Definition Timer : Type := (N * Z)%type.

Record State := mkState {
  has_onShake : bool;                  (* handlers.onShake is set *)
  isEnabled : bool;
  lastAcceleration : Acceleration;
  shakeCount : Z;
  shakeResetTimeout : option N;
  lastShakeTime : Z;
  timers : list Timer;                 (* the platform's pending timeouts *)
  nextHandle : N;
  effects : list Effect                (* oldest first *)
}.

Definition shakeThreshold : Z := 15.
Definition shakeWindow : Z := 3000.

(** Field values of a new [GestureManager], handlers installed by
    [setHandlers] and [enable()] called. *)
Definition enabled_init : State :=
  {| has_onShake := true; isEnabled := true;
     lastAcceleration := mkAcc 0 0 0;
     shakeCount := 0; shakeResetTimeout := None; lastShakeTime := 0;
     timers := []; nextHandle := 1; effects := [] |}.

Definition clearTimeout (h : N) (ts : list Timer) : list Timer :=
  filter (λ t, t.1 ≠ h) ts.

Definition emit (e : Effect) (s : State) : State :=
  {| has_onShake := has_onShake s; isEnabled := isEnabled s;
     lastAcceleration := lastAcceleration s;
     shakeCount := shakeCount s; shakeResetTimeout := shakeResetTimeout s;
     lastShakeTime := lastShakeTime s; timers := timers s;
     nextHandle := nextHandle s; effects := effects s ++ [e] |}.

Definition call_onShake (s : State) : State :=
  if has_onShake s then emit (OnShake (shakeCount s)) s else s.

(** [resetShakeCount()] *)
Definition resetShakeCount (s : State) : State :=
  {| has_onShake := has_onShake s; isEnabled := isEnabled s;
     lastAcceleration := lastAcceleration s;
     shakeCount := 0;
     shakeResetTimeout := None;
     lastShakeTime := lastShakeTime s;
     timers := match shakeResetTimeout s with
               | Some h => clearTimeout h (timers s)
               | None => timers s
               end;
     nextHandle := nextHandle s; effects := effects s |}.

(** [this.shakeResetTimeout = setTimeout(() => this.resetShakeCount(), shakeWindow)] *)
Definition armResetTimeout (now : Z) (s : State) : State :=
  {| has_onShake := has_onShake s; isEnabled := isEnabled s;
     lastAcceleration := lastAcceleration s;
     shakeCount := shakeCount s;
     shakeResetTimeout := Some (nextHandle s);
     lastShakeTime := lastShakeTime s;
     timers := timers s ++ [(nextHandle s, now + shakeWindow)];
     nextHandle := N.succ (nextHandle s); effects := effects s |}.

Definition setLastAcceleration (a : Acceleration) (s : State) : State :=
  {| has_onShake := has_onShake s; isEnabled := isEnabled s;
     lastAcceleration := a;
     shakeCount := shakeCount s; shakeResetTimeout := shakeResetTimeout s;
     lastShakeTime := lastShakeTime s; timers := timers s;
     nextHandle := nextHandle s; effects := effects s |}.

(** [this.shakeCount++; this.lastShakeTime = currentTime;] followed by
    [if (this.shakeResetTimeout) clearTimeout(this.shakeResetTimeout)]. *)
Definition countShake (now : Z) (s : State) : State :=
  {| has_onShake := has_onShake s; isEnabled := isEnabled s;
     lastAcceleration := lastAcceleration s;
     shakeCount := shakeCount s + 1;
     shakeResetTimeout := shakeResetTimeout s;
     lastShakeTime := now;
     timers := match shakeResetTimeout s with
               | Some h => clearTimeout h (timers s)
               | None => timers s
               end;
     nextHandle := nextHandle s; effects := effects s |}.

Definition totalDelta (last cur : Acceleration) : Z :=
  Z.abs (acc_x cur - acc_x last) + Z.abs (acc_y cur - acc_y last)
  + Z.abs (acc_z cur - acc_z last).

(** The body of [if (currentTime - this.lastShakeTime > 500) { ... }],
    together with the final [this.lastAcceleration = { x, y, z }] on the
    paths that reach it (the SOS arm returns before it). *)
Definition count_and_notify (currentTime : Z) (cur : Acceleration)
    (s : State) : State :=
  let s1 := countShake currentTime s in
  let n := shakeCount s1 in
  if n =? 1 then
    setLastAcceleration cur
      (armResetTimeout currentTime
         (emit (ShowGestureNotification (ShakeDetected n)) s1))
  else if n =? 2 then
    setLastAcceleration cur
      (armResetTimeout currentTime
         (emit (ShowGestureNotification (ShakeProgress n)) s1))
  else if n =? 3 then
    setLastAcceleration cur
      (armResetTimeout currentTime
         (call_onShake
            (emit (ShowGestureNotification PanicSirenActivated) s1)))
  else if 4 <=? n then
    resetShakeCount
      (call_onShake
         (emit (ShowGestureNotification SOSAlertActivated) s1))
  else
    setLastAcceleration cur (armResetTimeout currentTime s1).

(** [handleDeviceMotion(e)], with [currentTime = Date.now()]. *)
Definition handleDeviceMotion (currentTime : Z) (e : DeviceMotionEvent)
    (s : State) : State :=
  match e with
  | None => s
  | Some acceleration =>
    if negb (isEnabled s) then s else
    let x := default 0 (dev_x acceleration) in
    let y := default 0 (dev_y acceleration) in
    let z := default 0 (dev_z acceleration) in
    if (x =? 0) && (y =? 0) && (z =? 0) then s else
    let cur := mkAcc x y z in
    if shakeThreshold <? totalDelta (lastAcceleration s) cur then
      if 500 <? currentTime - lastShakeTime s
      then count_and_notify currentTime cur s
      else setLastAcceleration cur s
    else setLastAcceleration cur s
  end.

(** The platform fires every timeout that is due at [now]; each one runs
    [resetShakeCount]. *)
Definition fire_due (now : Z) (s : State) : State :=
  let due := filter (λ t : Timer, t.2 <= now) (timers s) in
  let rest := filter (λ t : Timer, ¬ (t.2 <= now)) (timers s) in
  fold_left (λ st _, resetShakeCount st) due
    {| has_onShake := has_onShake s; isEnabled := isEnabled s;
       lastAcceleration := lastAcceleration s;
       shakeCount := shakeCount s; shakeResetTimeout := shakeResetTimeout s;
       lastShakeTime := lastShakeTime s; timers := rest;
       nextHandle := nextHandle s; effects := effects s |}.

(** A motion sample delivered at clock reading [t]. *)
Definition Sample : Type := (Z * DeviceMotionEvent)%type.

Definition deliver (s : State) (sm : Sample) : State :=
  handleDeviceMotion sm.1 sm.2 (fire_due sm.1 s).

Definition feed (samples : list Sample) (s : State) : State :=
  fold_left deliver samples s.

(** The [onShake] handler installed by the child dashboard
    ([setupGestureControls]): 3 shakes toggle the panic siren, 4 or more
    send an SOS. *)
Inductive AppEvent := PanicSiren | SendSOS.

Definition onShake_handler (n : Z) : option AppEvent :=
  if n =? 3 then Some PanicSiren
  else if 4 <=? n then Some SendSOS
  else None.

Definition app_events (s : State) : list AppEvent :=
  omap (λ e, match e with
             | OnShake n => onShake_handler n
             | ShowGestureNotification _ => None
             end) (effects s).

Definition reading (a : Acceleration) : DeviceMotionEvent :=
  Some (mkDev (Some (acc_x a)) (Some (acc_y a)) (Some (acc_z a))).

Definition nonzero (a : Acceleration) : Prop :=
  ¬ (acc_x a = 0 ∧ acc_y a = 0 ∧ acc_z a = 0).

(** A reading that passes the magnitude test against [last]. *)
Definition above_threshold (last cur : Acceleration) : Prop :=
  nonzero cur ∧ shakeThreshold < totalDelta last cur.

(** The scenario: readings [r1 .. r4] delivered 0, 600, 1200 and 1800 ms
    after a clock reading [T0]. *)
Definition shakes (T0 : Z) (r1 r2 r3 r4 : Acceleration) : list Sample :=
  [(T0, reading r1); (T0 + 600, reading r2); (T0 + 1200, reading r3);
   (T0 + 1800, reading r4)].

(** *** The handler calls and the window, for the properties below *)

(** The arguments of the [onShake] calls made so far, oldest first. *)
Definition onShake_calls (s : State) : list Z :=
  omap (λ e, match e with OnShake n => Some n | _ => None end) (effects s).

(** Every call is [onShake(3)] or [onShake(4)], and an [onShake(4)] comes
    directly after an [onShake(3)]; [prev] is the call before the list. *)
Fixpoint well_sequenced (prev : Z) (calls : list Z) : bool :=
  match calls with
  | [] => true
  | n :: rest =>
      ((n =? 3) || ((n =? 4) && (prev =? 3))) && well_sequenced n rest
  end.

(** Three readings that each pass the magnitude test, delivered with gaps
    [g2] and [g3] after a first one at [T0]. *)
Definition spaced (T0 g2 g3 : Z) (r1 r2 r3 : Acceleration) : list Sample :=
  [(T0, reading r1); (T0 + g2, reading r2); (T0 + g2 + g3, reading r3)].

(** *** Touch gestures *)

(** Touch coordinates are the one place where the class takes a square
    root and a quotient: they are IEEE doubles, as in JavaScript. *)
Import PrimFloat.

Record Touch := mkTouch { clientX : float; clientY : float }.

Record TouchEvent := mkTouchEvent {
  touches : list Touch;
  changedTouches : list Touch
}.

(** Which of the optional touch handlers [setHandlers] has installed. *)
Record GestureHandlers := mkHandlers {
  onSwipeDown : bool;
  onSwipeLeft : bool;
  onSwipeRight : bool;
  onLongPress : bool;
  onDoubleTap : bool
}.

Inductive Gesture := SwipeDown | SwipeLeft | SwipeRight | LongPress | DoubleTap.

#[global] Instance Gesture_eq_dec : EqDecision Gesture.
Proof. solve_decision. Defined.

Inductive TouchEffect :=
| Call (g : Gesture)                         (* this.handlers.on...() *)
| GestureNotification (message : string).    (* showGestureNotification *)

Record TouchState := mkTouchState {
  handlers : GestureHandlers;
  touchStartX : float;
  touchStartY : float;
  touchStartTime : Z;
  lastTap : Z;
  longPressTimer : option N;
  longPressTimers : list Timer;        (* the platform's pending timeouts *)
  nextTimer : N;
  touchEffects : list TouchEffect      (* oldest first *)
}.

Definition SWIPE_THRESHOLD : float := 50%float.
#[warnings="-inexact-float"]
Definition SWIPE_VELOCITY_THRESHOLD : float := 0.3%float.
Definition LONG_PRESS_DURATION : Z := 800.
Definition DOUBLE_TAP_DELAY : Z := 300.

(** Field values of a new [GestureManager] on which [setHandlers(h)] has
    been called. *)
Definition touch_init (h : GestureHandlers) : TouchState :=
  {| handlers := h; touchStartX := 0%float; touchStartY := 0%float;
     touchStartTime := 0; lastTap := 0; longPressTimer := None;
     longPressTimers := []; nextTimer := 1; touchEffects := [] |}.

(** The double that a difference of two [Date.now()] readings is (exact
    below 2^53). *)
Definition number (z : Z) : float :=
  match z with
  | Z0 => 0%float
  | Zpos _ => of_uint63 (Uint63.of_Z z)
  | Zneg p => (- of_uint63 (Uint63.of_Z (Zpos p)))%float
  end.

(** [this.handlers.on...(); this.showGestureNotification(message)] *)
Definition call (g : Gesture) (message : string) (s : TouchState)
    : TouchState :=
  {| handlers := handlers s; touchStartX := touchStartX s;
     touchStartY := touchStartY s; touchStartTime := touchStartTime s;
     lastTap := lastTap s; longPressTimer := longPressTimer s;
     longPressTimers := longPressTimers s; nextTimer := nextTimer s;
     touchEffects := touchEffects s ++ [Call g; GestureNotification message] |}.

(** The callback of the long-press timer. *)
Definition longPressCallback (s : TouchState) : TouchState :=
  if onLongPress (handlers s) then call LongPress "Long press detected" s
  else s.

(** [handleTouchStart(e)], with [now = Date.now()]. *)
Definition handleTouchStart (now : Z) (e : TouchEvent) (s : TouchState)
    : TouchState :=
  match touches e with
  | [touch] =>
      {| handlers := handlers s;
         touchStartX := clientX touch;
         touchStartY := clientY touch;
         touchStartTime := now;
         lastTap := lastTap s;
         longPressTimer := Some (nextTimer s);
         longPressTimers :=
           longPressTimers s ++ [(nextTimer s, now + LONG_PRESS_DURATION)];
         nextTimer := N.succ (nextTimer s);
         touchEffects := touchEffects s |}
  | _ => s
  end.

(** [if (this.longPressTimer) { clearTimeout(this.longPressTimer);
    this.longPressTimer = null; }] *)
Definition cancelLongPress (s : TouchState) : TouchState :=
  match longPressTimer s with
  | Some h =>
      {| handlers := handlers s; touchStartX := touchStartX s;
         touchStartY := touchStartY s; touchStartTime := touchStartTime s;
         lastTap := lastTap s; longPressTimer := None;
         longPressTimers := clearTimeout h (longPressTimers s);
         nextTimer := nextTimer s; touchEffects := touchEffects s |}
  | None => s
  end.

(** [handleTouchMove(e)] *)
Definition handleTouchMove (e : TouchEvent) (s : TouchState) : TouchState :=
  cancelLongPress s.

Definition set_lastTap (t : Z) (s : TouchState) : TouchState :=
  {| handlers := handlers s; touchStartX := touchStartX s;
     touchStartY := touchStartY s; touchStartTime := touchStartTime s;
     lastTap := t; longPressTimer := longPressTimer s;
     longPressTimers := longPressTimers s; nextTimer := nextTimer s;
     touchEffects := touchEffects s |}.

(** [Math.sqrt(deltaX * deltaX + deltaY * deltaY)] *)
Definition distance_of (deltaX deltaY : float) : float :=
  sqrt (deltaX * deltaX + deltaY * deltaY)%float.

(** The swipe test at the end of [handleTouchEnd]. *)
Definition swipe (deltaX deltaY distance velocity : float) (s : TouchState)
    : TouchState :=
  if (SWIPE_THRESHOLD <? distance)%float
     && (SWIPE_VELOCITY_THRESHOLD <? velocity)%float then
    let absDeltaX := abs deltaX in
    let absDeltaY := abs deltaY in
    if (absDeltaY <? absDeltaX)%float then
      if (0 <? deltaX)%float && onSwipeRight (handlers s) then
        call SwipeRight "Swipe right detected" s
      else if (deltaX <? 0)%float && onSwipeLeft (handlers s) then
        call SwipeLeft "Swipe left detected" s
      else s
    else
      if (0 <? deltaY)%float && onSwipeDown (handlers s) then
        call SwipeDown "Swipe down detected" s
      else s
  else s.

(** [handleTouchEnd(e)], with [touchEndTime = Date.now()]. *)
Definition handleTouchEnd (touchEndTime : Z) (e : TouchEvent)
    (s0 : TouchState) : TouchState :=
  let s := cancelLongPress s0 in
  match changedTouches e with
  | [touch] =>
      let deltaX := (clientX touch - touchStartX s)%float in
      let deltaY := (clientY touch - touchStartY s)%float in
      let deltaTime := touchEndTime - touchStartTime s in
      let distance := distance_of deltaX deltaY in
      let velocity := (distance / number deltaTime)%float in
      if (distance <? 10)%float && (deltaTime <? 200) then
        let timeSinceLastTap := touchEndTime - lastTap s in
        if (timeSinceLastTap <? DOUBLE_TAP_DELAY) && (0 <? timeSinceLastTap)
        then
          if onDoubleTap (handlers s)
          then call DoubleTap "Double tap detected" s
          else s
        else swipe deltaX deltaY distance velocity
               (set_lastTap touchEndTime s)
      else swipe deltaX deltaY distance velocity s
  | _ => s
  end.

(** The platform fires every long-press timeout that is due at [now]. *)
Definition fire_long_press (now : Z) (s : TouchState) : TouchState :=
  let due := filter (λ t : Timer, t.2 <= now) (longPressTimers s) in
  let rest := filter (λ t : Timer, ¬ (t.2 <= now)) (longPressTimers s) in
  fold_left (λ st _, longPressCallback st) due
    {| handlers := handlers s; touchStartX := touchStartX s;
       touchStartY := touchStartY s; touchStartTime := touchStartTime s;
       lastTap := lastTap s; longPressTimer := longPressTimer s;
       longPressTimers := rest; nextTimer := nextTimer s;
       touchEffects := touchEffects s |}.

(** *** enable and disable *)

(** The whole manager: the shake counter with the [isEnabled] flag, the
    touch state, and which listeners are installed.  The three touch
    listeners are added and removed together. *)
Record Manager := mkManager {
  shake : State;
  touch : TouchState;
  touchListeners : bool;
  motionListener : bool
}.

(** ['DeviceMotionEvent' in window], and what [requestPermission()]
    answers where it exists ([None]: it rejects). *)
Inductive DeviceMotionSupport :=
| Unsupported
| Unrestricted
| Restricted (response : option string).

Definition set_isEnabled (b : bool) (s : State) : State :=
  {| has_onShake := has_onShake s; isEnabled := b;
     lastAcceleration := lastAcceleration s;
     shakeCount := shakeCount s; shakeResetTimeout := shakeResetTimeout s;
     lastShakeTime := lastShakeTime s; timers := timers s;
     nextHandle := nextHandle s; effects := effects s |}.

(** Whether [setupShakeDetection()] adds the [devicemotion] listener. *)
Definition setupShakeDetection (dm : DeviceMotionSupport) : bool :=
  match dm with
  | Unsupported => false
  | Unrestricted => true
  | Restricted (Some response) => String.eqb response "granted"
  | Restricted None => false
  end.

(** [enable()] *)
Definition enable (dm : DeviceMotionSupport) (m : Manager) : Manager :=
  if isEnabled (shake m) then m else
  {| shake := set_isEnabled true (shake m);
     touch := touch m;
     touchListeners := true;
     motionListener := motionListener m || setupShakeDetection dm |}.

(** [disable()] *)
Definition disable (m : Manager) : Manager :=
  if negb (isEnabled (shake m)) then m else
  {| shake := resetShakeCount (set_isEnabled false (shake m));
     touch := touch m;
     touchListeners := false;
     motionListener := false |}.

(** What happens to the page: the events the browser delivers to the
    listeners that are installed, calls of the two methods, and the
    passage of time. *)
Inductive Input :=
| TouchStart (e : TouchEvent)
| TouchMove (e : TouchEvent)
| TouchEnd (e : TouchEvent)
| DeviceMotion (e : DeviceMotionEvent)
| Enable (dm : DeviceMotionSupport)
| Disable
| Wait.

Definition on_touch (f : TouchState → TouchState) (m : Manager) : Manager :=
  if touchListeners m
  then {| shake := shake m; touch := f (touch m);
          touchListeners := touchListeners m;
          motionListener := motionListener m |}
  else m.

Definition on_motion (f : State → State) (m : Manager) : Manager :=
  if motionListener m
  then {| shake := f (shake m); touch := touch m;
          touchListeners := touchListeners m;
          motionListener := motionListener m |}
  else m.

(** The timeouts due at [now] run before the event of that time. *)
Definition timeouts (now : Z) (m : Manager) : Manager :=
  {| shake := fire_due now (shake m);
     touch := fire_long_press now (touch m);
     touchListeners := touchListeners m;
     motionListener := motionListener m |}.

Definition handle (m : Manager) (i : Z * Input) : Manager :=
  let m1 := timeouts i.1 m in
  match i.2 with
  | TouchStart e => on_touch (handleTouchStart i.1 e) m1
  | TouchMove e => on_touch (handleTouchMove e) m1
  | TouchEnd e => on_touch (handleTouchEnd i.1 e) m1
  | DeviceMotion e => on_motion (handleDeviceMotion i.1 e) m1
  | Enable dm => enable dm m1
  | Disable => disable m1
  | Wait => m1
  end.

Definition play (inputs : list (Z * Input)) (m : Manager) : Manager :=
  fold_left handle inputs m.

(** One finger going down at a point, and coming up at a point. *)
Definition finger_down (p : Touch) : Input := TouchStart (mkTouchEvent [p] [p]).
Definition finger_up (p : Touch) : Input := TouchEnd (mkTouchEvent [] [p]).

(** A touch that ends at [q], [dt] ms after it started at [p], passes the
    tap test of [handleTouchEnd]. *)
Definition is_tap (p q : Touch) (dt : Z) : bool :=
  (distance_of (clientX q - clientX p) (clientY q - clientY p) <? 10)%float
  && (dt <? 200).

(** The gestures whose handlers have been called, oldest first. *)
Definition gestures (s : TouchState) : list Gesture :=
  omap (λ e, match e with Call g => Some g | _ => None end) (touchEffects s).

(** How often the long-press handler has been called. *)
Definition long_presses (s : TouchState) : nat :=
  length (filter (λ g, g = LongPress) (gestures s)).

(** One tap: the finger goes down at [p] at time [a] and comes up at [q]
    at time [b]; the timeouts due at either time run first. *)
Definition tap (a b : Z) (p q : Touch) (s : TouchState) : TouchState :=
  handleTouchEnd b (mkTouchEvent [] [q])
    (fire_long_press b
       (handleTouchStart a (mkTouchEvent [p] [p]) (fire_long_press a s))).

(** A new manager with every touch handler installed, enabled on a device
    that delivers motion events. *)
Definition all_handlers : GestureHandlers := mkHandlers true true true true true.

Definition manager_init : Manager :=
  enable Unrestricted
    {| shake := set_isEnabled false enabled_init;
       touch := touch_init all_handlers;
       touchListeners := false; motionListener := false |}.

End GestureManager.

(* ===================================================================== *)
(** ** [BackgroundService]: start and stop                               *)
(* ===================================================================== *)

Module BackgroundService.

(** The private fields of the class. *)
Record Service := mkService {
  isRunning : bool;
  locationWatchId : option Z;       (* number | null *)
  heartbeatInterval : option Z;     (* timer handle | null *)
  wakeLock : option Z;              (* WakeLockSentinel | null *)
  serviceWorker : option Z          (* ServiceWorker | null *)
}.

Inductive SWMessage := STOP_BACKGROUND_SERVICE.

Inductive Notice := BatteryOptimizationNotice | BackgroundServiceNotice.

(** The resources the browser holds on behalf of the page. *)
Record Platform := mkPlatform {
  geo_watches : list Z;             (* live watchPosition ids *)
  intervals : list Z;               (* live setInterval handles *)
  wake_locks : list Z;              (* sentinels not yet released *)
  sw_inbox : list (Z * SWMessage);  (* postMessage calls, oldest first *)
  motion_listeners : nat;           (* devicemotion listeners added *)
  notices : list Notice;            (* notifications constructed *)
  lock_listeners : list Z;          (* sentinels with the 'release'
                                       listener of acquireWakeLock *)
  lock_requests : nat               (* wakeLock.request calls of that
                                       listener not yet settled *)
}.

Record World := mkWorld { svc : Service; plat : Platform }.

Definition upd_svc (f : Service → Service) : Js World unit :=
  modify (λ w, mkWorld (f (svc w)) (plat w)).
Definition upd_plat (f : Platform → Platform) : Js World unit :=
  modify (λ w, mkWorld (svc w) (f (plat w))).
Arguments upd_svc f _ /.
Arguments upd_plat f _ /.

Definition set_isRunning (b : bool) (s : Service) : Service :=
  mkService b (locationWatchId s) (heartbeatInterval s) (wakeLock s)
    (serviceWorker s).
Definition set_locationWatchId (v : option Z) (s : Service) : Service :=
  mkService (isRunning s) v (heartbeatInterval s) (wakeLock s)
    (serviceWorker s).
Definition set_heartbeatInterval (v : option Z) (s : Service) : Service :=
  mkService (isRunning s) (locationWatchId s) v (wakeLock s)
    (serviceWorker s).
Definition set_wakeLock (v : option Z) (s : Service) : Service :=
  mkService (isRunning s) (locationWatchId s) (heartbeatInterval s) v
    (serviceWorker s).
Definition set_serviceWorker (v : option Z) (s : Service) : Service :=
  mkService (isRunning s) (locationWatchId s) (heartbeatInterval s)
    (wakeLock s) v.

Definition with_geo_watches (l : list Z) (p : Platform) : Platform :=
  mkPlatform l (intervals p) (wake_locks p) (sw_inbox p)
    (motion_listeners p) (notices p) (lock_listeners p) (lock_requests p).
Definition with_intervals (l : list Z) (p : Platform) : Platform :=
  mkPlatform (geo_watches p) l (wake_locks p) (sw_inbox p)
    (motion_listeners p) (notices p) (lock_listeners p) (lock_requests p).
Definition with_wake_locks (l : list Z) (p : Platform) : Platform :=
  mkPlatform (geo_watches p) (intervals p) l (sw_inbox p)
    (motion_listeners p) (notices p) (lock_listeners p) (lock_requests p).
Definition with_sw_inbox (l : list (Z * SWMessage)) (p : Platform)
    : Platform :=
  mkPlatform (geo_watches p) (intervals p) (wake_locks p) l
    (motion_listeners p) (notices p) (lock_listeners p) (lock_requests p).
Definition with_motion_listeners (n : nat) (p : Platform) : Platform :=
  mkPlatform (geo_watches p) (intervals p) (wake_locks p) (sw_inbox p)
    n (notices p) (lock_listeners p) (lock_requests p).
Definition with_notices (l : list Notice) (p : Platform) : Platform :=
  mkPlatform (geo_watches p) (intervals p) (wake_locks p) (sw_inbox p)
    (motion_listeners p) l (lock_listeners p) (lock_requests p).
Definition with_lock_listeners (l : list Z) (p : Platform) : Platform :=
  mkPlatform (geo_watches p) (intervals p) (wake_locks p) (sw_inbox p)
    (motion_listeners p) (notices p) l (lock_requests p).
Definition with_lock_requests (n : nat) (p : Platform) : Platform :=
  mkPlatform (geo_watches p) (intervals p) (wake_locks p) (sw_inbox p)
    (motion_listeners p) (notices p) (lock_listeners p) n.

Definition remove (x : Z) (l : list Z) : list Z := filter (λ y, y ≠ x) l.

(** JavaScript truthiness of [number | null] and [string | undefined]. *)
Definition truthy_handle (v : option Z) : bool :=
  match v with Some n => negb (n =? 0) | None => false end.
Definition truthy_string (v : option string) : bool :=
  match v with Some s => negb (String.eqb s "") | None => false end.

(** *** stop *)

(** Which of the release calls made by [stop()] fail. *)
Record ReleaseEnv := mkReleaseEnv {
  clearWatch_throws : bool;
  clearInterval_throws : bool;
  release_rejects : bool;           (* await this.wakeLock.release() *)
  postMessage_throws : bool
}.

Definition clearWatch (env : ReleaseEnv) (id : Z) : Js World unit :=
  if clearWatch_throws env then throw "clearWatch"
  else upd_plat (λ p, with_geo_watches (remove id (geo_watches p)) p).

Definition clearInterval (env : ReleaseEnv) (id : Z) : Js World unit :=
  if clearInterval_throws env then throw "clearInterval"
  else upd_plat (λ p, with_intervals (remove id (intervals p)) p).

(** The ['release'] listener that [acquireWakeLock] installs on its
    sentinel, up to its [await]: while the service is running it asks for
    a new lock. *)
Definition release_listener : Js World unit :=
  w <- get_state ;;
  when (isRunning (svc w))
    (upd_plat (λ p, with_lock_requests (S (lock_requests p)) p)).


(** [await this.wakeLock.release()]: the browser drops the lock and fires
    ['release'] at the sentinel before the promise resolves, so a listener
    on it runs before [stop()] goes on; a sentinel released already stays
    so and no event is fired. *)
Definition wakeLock_release (env : ReleaseEnv) (h : Z) : Js World unit :=
  if release_rejects env then throw "release"
  else
    w <- get_state ;;
    when (bool_decide (h ∈ wake_locks (plat w)))
      (upd_plat (λ p, with_wake_locks (remove h (wake_locks p)) p) ;;;
       when (bool_decide (h ∈ lock_listeners (plat w))) release_listener).

Definition postMessage (throws : bool) (sw : Z) (m : SWMessage)
    : Js World unit :=
  if throws then throw "postMessage"
  else upd_plat (λ p, with_sw_inbox (sw_inbox p ++ [(sw, m)]) p).

(** [async stop(): Promise<void>] *)
Definition stop (env : ReleaseEnv) : Js World unit :=
  w0 <- get_state ;;
  if negb (isRunning (svc w0)) then js_ret tt else
  try_catch
    ( (* Stop location tracking *)
      (w <- get_state ;;
       when (truthy_handle (locationWatchId (svc w)))
         (clearWatch env (default 0 (locationWatchId (svc w))) ;;;
          upd_svc (set_locationWatchId None))) ;;;
      (* Stop heartbeat *)
      (w <- get_state ;;
       when (truthy_handle (heartbeatInterval (svc w)))
         (clearInterval env (default 0 (heartbeatInterval (svc w))) ;;;
          upd_svc (set_heartbeatInterval None))) ;;;
      (* Release wake lock *)
      (w <- get_state ;;
       match wakeLock (svc w) with
       | Some h => wakeLock_release env h ;;; upd_svc (set_wakeLock None)
       | None => js_ret tt
       end) ;;;
      (* Unregister service worker *)
      (w <- get_state ;;
       match serviceWorker (svc w) with
       | Some sw =>
           postMessage (postMessage_throws env) sw STOP_BACKGROUND_SERVICE
       | None => js_ret tt
       end) ;;;
      upd_svc (set_isRunning false) )
    (λ _, js_ret tt (* console.error *)).

(** *** start *)

(** What [new Notification(...)] does when one of the two notices is
    reached: the guard [('Notification' in window &&
    Notification.permission === 'granted')] is false, or the constructor
    returns, or it throws. *)
Inductive NoticeOutcome := NoticeSkipped | NoticeShown | NoticeThrows.

(** The browser as [start()] finds it. *)
Record SetupEnv := mkSetupEnv {
  wakeLock_api : bool;              (* 'wakeLock' in navigator && ... *)
  wakeLock_request : option Z;      (* sentinel; None: request rejects *)
  serviceWorker_api : bool;         (* 'serviceWorker' in navigator *)
  serviceWorker_register : option (option Z);
                                    (* None: register/ready rejects;
                                       Some a: registration.active = a *)
  geolocation_api : bool;           (* navigator.geolocation *)
  watchPosition_id : Z;
  setInterval_id : Z;
  deviceMotion_api : bool;          (* 'DeviceMotionEvent' in window *)
  deviceMotion_permission : option bool;
                                    (* None: no requestPermission function;
                                       Some g: it answers granted = g *)
  battery_notice : NoticeOutcome;
  background_notice : NoticeOutcome
}.

Definition acquireWakeLock (env : SetupEnv) : Js World unit :=
  try_catch
    (if wakeLock_api env then
       match wakeLock_request env with
       | Some h =>
           upd_svc (set_wakeLock (Some h)) ;;;
           upd_plat (λ p, with_wake_locks (wake_locks p ++ [h]) p) ;;;
           (* this.wakeLock.addEventListener('release', ...) *)
           upd_plat (λ p, with_lock_listeners (lock_listeners p ++ [h]) p)
       | None => throw "wakeLock.request"
       end
     else js_ret tt (* console.warn('Wake Lock API not supported') *))
    (λ _, js_ret tt (* console.warn *)).

Definition registerServiceWorker (env : SetupEnv) : Js World unit :=
  when (serviceWorker_api env)
    (try_catch
       (match serviceWorker_register env with
        | Some active => upd_svc (set_serviceWorker active)
        | None => throw "serviceWorker.register"
        end)
       (λ _, js_ret tt (* console.warn *))).

Definition startLocationTracking (env : SetupEnv) : Js World unit :=
  if negb (geolocation_api env) then throw "Geolocation not supported"
  else
    upd_svc (set_locationWatchId (Some (watchPosition_id env))) ;;;
    upd_plat (λ p, with_geo_watches
                     (geo_watches p ++ [watchPosition_id env]) p).

Definition startHeartbeat (env : SetupEnv) : Js World unit :=
  upd_svc (set_heartbeatInterval (Some (setInterval_id env))) ;;;
  upd_plat (λ p, with_intervals (intervals p ++ [setInterval_id env]) p).

Definition enableBackgroundGestures (env : SetupEnv) : Js World unit :=
  when (deviceMotion_api env)
    (match deviceMotion_permission env with
     | Some false => js_ret tt
     | Some true | None =>
         upd_plat (λ p, with_motion_listeners (S (motion_listeners p)) p)
     end).

Definition new_Notification (o : NoticeOutcome) (n : Notice)
    : Js World unit :=
  match o with
  | NoticeSkipped => js_ret tt
  | NoticeShown => upd_plat (λ p, with_notices (notices p ++ [n]) p)
  | NoticeThrows => throw "Notification"
  end.

Definition requestBatteryOptimizationExemption (env : SetupEnv)
    : Js World unit :=
  new_Notification (battery_notice env) BatteryOptimizationNotice.

Definition showBackgroundNotification (env : SetupEnv) : Js World unit :=
  new_Notification (background_notice env) BackgroundServiceNotice.

(** [async start(childCode?: string): Promise<boolean>] *)
Definition start (env : SetupEnv) (childCode : option string)
    : Js World bool :=
  w0 <- get_state ;;
  if isRunning (svc w0) then js_ret true else
  try_catch
    ( acquireWakeLock env ;;;
      registerServiceWorker env ;;;
      when (truthy_string childCode) (startLocationTracking env) ;;;
      startHeartbeat env ;;;
      enableBackgroundGestures env ;;;
      requestBatteryOptimizationExemption env ;;;
      upd_svc (set_isRunning true) ;;;
      showBackgroundNotification env ;;;
      js_ret true )
    (λ _, js_ret false).

(** The steps of [start] that precede [this.isRunning = true]: which of
    them, if any, throws out of its own guards. *)
Definition setup_throws (env : SetupEnv) (childCode : option string)
    : bool :=
  (truthy_string childCode && negb (geolocation_api env))
  || match battery_notice env with NoticeThrows => true | _ => false end.


(** A freshly constructed service in a browser holding nothing for it. *)
Definition stopped : World :=
  mkWorld (mkService false None None None None)
          (mkPlatform [] [] [] [] 0 [] [] 0).

(** A running service: watch 1, heartbeat timer 2, wake lock 3 (taken by
    [acquireWakeLock], so with its listener), service worker 4. *)
Definition running : World :=
  mkWorld (mkService true (Some 1) (Some 2) (Some 3) (Some 4))
          (mkPlatform [1] [2] [3] [] 1 [] [3] 0).




Definition no_failure : ReleaseEnv := mkReleaseEnv false false false false.

(** A desktop browser with every capability, and the same browser when the
    second notification cannot be constructed. *)
Definition full_browser : SetupEnv :=
  mkSetupEnv true (Some 3) true (Some (Some 4)) true 1 2 true None
             NoticeShown NoticeShown.



(** *** Start and stop together *)

(** One [start()] followed by one [stop()] in which no release fails. *)
Definition cycle (env : SetupEnv) (childCode : option string) (w : World)
    : World :=
  after (stop no_failure) (after (start env childCode) w).

(** [start()] reaches its end: no step throws. *)
Definition starts (env : SetupEnv) (childCode : option string) : Prop :=
  setup_throws env childCode = false ∧ background_notice env ≠ NoticeThrows.

(** Motion events are available and not refused: [enableBackgroundGestures]
    adds its listener. *)
Definition adds_listener (env : SetupEnv) : Prop :=
  deviceMotion_api env = true ∧ deviceMotion_permission env ≠ Some false.

(** The watch, the timer and the listeners the service holds. *)
Definition tracked (w : World)
    : option Z * list Z * option Z * list Z * nat :=
  (locationWatchId (svc w), geo_watches (plat w),
   heartbeatInterval (svc w), intervals (plat w),
   motion_listeners (plat w)).

(** A browser without geolocation that grants the wake lock 3. *)
Definition no_geolocation : SetupEnv :=
  mkSetupEnv true (Some 3) true (Some (Some 4)) false 1 2 true None
             NoticeShown NoticeShown.

(** *** The watch after an error *)

(** The callback that the error handler of the watch hands to
    [setTimeout(..., 5000)]:
    [if (this.isRunning) { this.startLocationTracking(childCode); }].
    The promise of the call is dropped, so a rejection goes nowhere. *)
Definition restartLocationTracking (env : SetupEnv) : Js World unit :=
  w <- get_state ;;
  when (isRunning (svc w))
    (try_catch (startLocationTracking env) (λ _, js_ret tt)).

(** The browser of [full_browser] handing out [id] for the next watch. *)
Definition next_watch (id : Z) : SetupEnv :=
  mkSetupEnv true (Some 3) true (Some (Some 4)) true id 2 true None
             NoticeShown NoticeShown.

End BackgroundService.

(* ===================================================================== *)
(** ** [OfflineManager]: queue, cache, persistence and drain             *)
(* ===================================================================== *)

Module OfflineManager.

(** *** JavaScript data *)

(** The JSON-representable values; numbers are integers here. *)
Inductive json :=
| JNull
| JBool (b : bool)
| JNum (n : Z)
| JStr (s : string)
| JArr (items : list json)
| JObj (fields : list (string * json)).

(** A value of type [any]: [None] is [undefined]. *)
Definition JsValue : Type := option json.

(** The platform's [JSON] object.  [JSON_parse s = None] when
    [JSON.parse(s)] throws a [SyntaxError]. *)
Class JSON := {
  JSON_stringify : json → string;
  JSON_parse : string → option json
}.

Definition typeof (v : JsValue) : string :=
  match v with
  | None => "undefined"
  | Some (JBool _) => "boolean"
  | Some (JNum _) => "number"
  | Some (JStr _) => "string"
  | Some JNull | Some (JArr _) | Some (JObj _) => "object"
  end.

Definition Array_isArray (v : JsValue) : bool :=
  match v with Some (JArr _) => true | _ => false end.

Definition truthy (v : JsValue) : bool :=
  match v with
  | None | Some JNull => false
  | Some (JBool b) => b
  | Some (JNum n) => negb (n =? 0)
  | Some (JStr s) => negb (String.eqb s "")
  | Some (JArr _) | Some (JObj _) => true
  end.

Fixpoint assoc (k : string) (fields : list (string * json)) : JsValue :=
  match fields with
  | [] => None
  | (k', v) :: rest => if String.eqb k k' then Some v else assoc k rest
  end.

(** [v.k] for [v] other than [null] and [undefined], and [k] one of the
    data keys the code reads (never [length] or an index). *)
Definition prop (v : json) (k : string) : JsValue :=
  match v with JObj fields => assoc k fields | _ => None end.

(** [v.k] in general: a [TypeError] on [null] and [undefined]. *)
Definition get_prop {S} (v : JsValue) (k : string) : Js S JsValue :=
  match v with
  | None | Some JNull => throw "TypeError"
  | Some j => js_ret (prop j k)
  end.

(** String conversion, as a template literal applies it. *)
Fixpoint ToString (v : json) : string :=
  match v with
  | JNull => "null"
  | JBool true => "true"
  | JBool false => "false"
  | JNum n => pretty n
  | JStr s => s
  | JArr items =>
      String.concat ","
        (List.map (λ x, match x with JNull => "" | _ => ToString x end)
                  items)
  | JObj _ => "[object Object]"
  end.

Definition template (v : JsValue) : string :=
  match v with None => "undefined" | Some j => ToString j end.

(** An object literal: a property whose value is [undefined] is left out
    when the object is serialised. *)
Definition obj (fields : list (string * JsValue)) : json :=
  JObj (omap (λ kv, pair kv.1 <$> kv.2) fields).

(** [{ ...fields, k: v }] *)
Fixpoint obj_set (k : string) (v : json) (fields : list (string * json))
    : list (string * json) :=
  match fields with
  | [] => [(k, v)]
  | (k', v') :: rest =>
      if String.eqb k k' then (k, v) :: rest
      else (k', v') :: obj_set k v rest
  end.

Definition indexed (l : list json) : list (string * json) :=
  imap (λ i x, (pretty i, x)) l.

(** The own enumerable properties that [{ ...data }] copies. *)
Definition spread (data : JsValue) : list (string * json) :=
  match data with
  | Some (JObj fields) => fields
  | Some (JArr items) => indexed items
  | Some (JStr s) =>
      indexed ((λ c, JStr (String c EmptyString)) <$> String.list_ascii_of_string s)
  | _ => []
  end.

(** *** The data model *)

Record QueuedAction := mkAction {
  id : string;
  type : string;
  data : JsValue;
  timestamp : Z;
  retryCount : Z
}.

(** [QueuedAction['type']] *)
Inductive ActionType := location | message | sos | status.

Definition type_name (t : ActionType) : string :=
  match t with
  | location => "location"
  | message => "message"
  | sos => "sos"
  | status => "status"
  end.

Record OfflineData := mkOfflineData {
  locations : list json;
  messages : list json;
  sosAlerts : list json;
  lastSync : JsValue
}.

(** [keyof OfflineData] *)
Inductive OfflineKey := Klocations | Kmessages | KsosAlerts | KlastSync.

Definition action_to_json (a : QueuedAction) : json :=
  obj [("id", Some (JStr (id a))); ("type", Some (JStr (type a)));
       ("data", data a); ("timestamp", Some (JNum (timestamp a)));
       ("retryCount", Some (JNum (retryCount a)))].

Definition offlineData_to_json (d : OfflineData) : json :=
  obj [("locations", Some (JArr (locations d)));
       ("messages", Some (JArr (messages d)));
       ("sosAlerts", Some (JArr (sosAlerts d)));
       ("lastSync", lastSync d)].

(** The filter predicate of [loadOfflineData]. *)
Definition valid_item (item : json) : bool :=
  truthy (Some item)
  && String.eqb (typeof (prop item "id")) "string"
  && String.eqb (typeof (prop item "type")) "string"
  && String.eqb (typeof (prop item "timestamp")) "number"
  && String.eqb (typeof (prop item "retryCount")) "number".

(** A parsed object read through the [QueuedAction] interface. *)
Definition as_QueuedAction (item : json) : option QueuedAction :=
  match prop item "id", prop item "type",
        prop item "timestamp", prop item "retryCount" with
  | Some (JStr i), Some (JStr t), Some (JNum ts), Some (JNum rc) =>
      Some (mkAction i t (prop item "data") ts rc)
  | _, _, _, _ => None
  end.

(** The shape test on the parsed offline-data blob. *)
Definition valid_offlineData (parsed : json) : bool :=
  truthy (Some parsed)
  && String.eqb (typeof (Some parsed)) "object"
  && Array_isArray (prop parsed "locations")
  && Array_isArray (prop parsed "messages")
  && Array_isArray (prop parsed "sosAlerts")
  && String.eqb (typeof (prop parsed "lastSync")) "number".

Definition array_items (v : JsValue) : list json :=
  match v with Some (JArr items) => items | _ => [] end.

(** A parsed object read through the [OfflineData] interface. *)
Definition as_OfflineData (parsed : json) : OfflineData :=
  mkOfflineData (array_items (prop parsed "locations"))
                (array_items (prop parsed "messages"))
                (array_items (prop parsed "sosAlerts"))
                (prop parsed "lastSync").

(** *** The manager, its store and the drains in flight *)

(** Object identity: a queue holds references into [heap]. *)
Abbreviation ref := nat.

Record Manager := mkManager {
  isOnline : bool;
  heap : list QueuedAction;         (* every QueuedAction object created *)
  syncQueue : list ref;
  offlineData : OfflineData;
  syncInProgress : bool
}.

Definition maxRetries : Z := 3.

(** [localStorage].  Reading can be denied and writing can fail (quota). *)
Record Storage := mkStorage {
  items : gmap string string;
  readable : bool;
  writable : bool
}.

(** A remote write: [set(ref(database, path), value)] or
    [push(ref(database, path), value)]. *)
Inductive RemoteOp :=
| RSet (path : string) (value : JsValue)
| RPush (path : string) (value : JsValue).

(** The remote store during one dispatch. *)
Record RemoteEnv := mkRemoteEnv {
  import_resolves : bool;           (* the two dynamic imports *)
  write_resolves : RemoteOp → bool  (* false: the write rejects *)
}.

(** A suspended call of [syncWhenOnline]: its locals at an [await]. *)
Record Drain := mkDrain {
  tag : nat;                        (* which call this is *)
  actionsToSync : list ref;         (* [...this.syncQueue] at the start *)
  cursor : nat;                     (* position of the for-of loop *)
  successfulSyncs : list string
}.

Record World := mkWorld {
  mgr : Manager;
  localStorage : Storage;
  drains : list Drain;              (* calls suspended at an await *)
  nextTag : nat;
  dispatched : list (nat * ref);    (* syncAction calls: drain, action *)
  remote : list RemoteOp            (* writes the remote accepted *)
}.

Definition upd_mgr (f : Manager → Manager) : Js World unit :=
  modify (λ w, mkWorld (f (mgr w)) (localStorage w) (drains w) (nextTag w)
                       (dispatched w) (remote w)).
Arguments upd_mgr f _ /.

Definition set_isOnline (b : bool) (m : Manager) : Manager :=
  mkManager b (heap m) (syncQueue m) (offlineData m) (syncInProgress m).
Definition set_heap (h : list QueuedAction) (m : Manager) : Manager :=
  mkManager (isOnline m) h (syncQueue m) (offlineData m) (syncInProgress m).
Definition set_syncQueue (q : list ref) (m : Manager) : Manager :=
  mkManager (isOnline m) (heap m) q (offlineData m) (syncInProgress m).
Definition set_offlineData (d : OfflineData) (m : Manager) : Manager :=
  mkManager (isOnline m) (heap m) (syncQueue m) d (syncInProgress m).
Definition set_syncInProgress (b : bool) (m : Manager) : Manager :=
  mkManager (isOnline m) (heap m) (syncQueue m) (offlineData m) b.

Definition set_drains (ds : list Drain) (w : World) : World :=
  mkWorld (mgr w) (localStorage w) ds (nextTag w) (dispatched w) (remote w).
Definition set_nextTag (n : nat) (w : World) : World :=
  mkWorld (mgr w) (localStorage w) (drains w) n (dispatched w) (remote w).
Definition set_dispatched (l : list (nat * ref)) (w : World) : World :=
  mkWorld (mgr w) (localStorage w) (drains w) (nextTag w) l (remote w).
Definition set_remote (l : list RemoteOp) (w : World) : World :=
  mkWorld (mgr w) (localStorage w) (drains w) (nextTag w) (dispatched w) l.
Definition set_items (i : gmap string string) (w : World) : World :=
  mkWorld (mgr w)
          (mkStorage i (readable (localStorage w)) (writable (localStorage w)))
          (drains w) (nextTag w) (dispatched w) (remote w).

Section Operations.
Context `{JSON}.

(** **** localStorage *)

Definition localStorage_getItem (k : string) : Js World (option string) :=
  w <- get_state ;;
  if readable (localStorage w) then js_ret (items (localStorage w) !! k)
  else throw "SecurityError".

Definition localStorage_setItem (k v : string) : Js World unit :=
  w <- get_state ;;
  if writable (localStorage w)
  then modify (set_items (<[k := v]> (items (localStorage w))))
  else throw "QuotaExceededError".

(** [JSON.parse(s)] *)
Definition parse (s : string) : Js World json :=
  match JSON_parse s with
  | Some v => js_ret v
  | None => throw "SyntaxError"
  end.

(** What [JSON.stringify(this.syncQueue)] serialises. *)
Definition queue_to_json (m : Manager) : json :=
  JArr (omap (λ r, action_to_json <$> heap m !! r) (syncQueue m)).

(** [saveOfflineData()] *)
Definition saveOfflineData : Js World unit :=
  try_catch
    ( w <- get_state ;;
      localStorage_setItem "safestep_offline_data"
        (JSON_stringify (offlineData_to_json (offlineData (mgr w)))) ;;;
      localStorage_setItem "safestep_sync_queue"
        (JSON_stringify (queue_to_json (mgr w))) )
    (λ _, js_ret tt (* console.error *)).

Definition empty_offlineData (now : Z) : OfflineData :=
  mkOfflineData [] [] [] (Some (JNum now)).

(** [resetOfflineData()]; [now] is what [Date.now()] returns. *)
Definition resetOfflineData (now : Z) : Js World unit :=
  upd_mgr (set_offlineData (empty_offlineData now)) ;;;
  upd_mgr (set_syncQueue []) ;;;
  saveOfflineData.

(** [clearOfflineData()] *)
Definition clearOfflineData (now : Z) : Js World unit :=
  upd_mgr (set_offlineData (empty_offlineData now)) ;;;
  upd_mgr (set_syncQueue []) ;;;
  saveOfflineData.

(** [this.syncQueue = fresh]: the parsed objects become the queue. *)
Definition adopt (fresh : list QueuedAction) (m : Manager) : Manager :=
  set_syncQueue (seq (length (heap m)) (length fresh))
                (set_heap (heap m ++ fresh) m).

Definition nonempty (s : option string) : bool :=
  match s with Some s => negb (String.eqb s "") | None => false end.

(** [loadOfflineData()] *)
Definition loadOfflineData (now : Z) : Js World unit :=
  try_catch
    ( offlineData <- localStorage_getItem "safestep_offline_data" ;;
      syncQueue <- localStorage_getItem "safestep_sync_queue" ;;
      when (nonempty offlineData)
        ( parsed <- parse (default "" offlineData) ;;
          if valid_offlineData parsed
          then upd_mgr (set_offlineData (as_OfflineData parsed))
          else resetOfflineData now ) ;;;
      when (nonempty syncQueue)
        ( parsedQueue <- parse (default "" syncQueue) ;;
          match parsedQueue with
          | JArr entries =>
              upd_mgr (adopt (omap as_QueuedAction
                                   (List.filter valid_item entries)))
          | _ => upd_mgr (set_syncQueue [])
          end ) )
    (λ _, resetOfflineData now).

(** The field initialisers of the class, [navigator.onLine = onLine]. *)
Definition new_Manager (onLine : bool) (now : Z) : Manager :=
  mkManager onLine [] [] (empty_offlineData now) false.

(** [new OfflineManager()] in a page whose storage is [st]: the field
    initialisers, then [loadOfflineData()].  (The listeners and the
    periodic timer it installs are the events of [step] below.) *)
Definition constructor (st : Storage) (onLine : bool) (now : Z)
    : Js World unit :=
  modify (λ _, mkWorld (new_Manager onLine now) st [] 0 [] []) ;;;
  loadOfflineData now.

(** **** Dispatch *)

Definition remote_write (env : RemoteEnv) (op : RemoteOp)
    : Js (list RemoteOp) unit :=
  if write_resolves env op then modify (λ l, l ++ [op])
  else throw "remote".

(** [syncAction(action)], run against the remote [env]; the state is
    the list of writes the remote accepted. *)
Definition syncAction (env : RemoteEnv) (action : QueuedAction)
    : Js (list RemoteOp) bool :=
  try_catch
    ( (if import_resolves env then js_ret tt else throw "import") ;;;
      if String.eqb (type action) "location" then
        childCode <- get_prop (data action) "childCode" ;;
        remote_write env
          (RSet ("children/" +:+ template childCode) (data action)) ;;;
        childCode' <- get_prop (data action) "childCode" ;;
        lastLocation <- get_prop (data action) "lastLocation" ;;
        remote_write env
          (RPush ("children/" +:+ template childCode'
                    +:+ "/locationHistory") lastLocation) ;;;
        js_ret true
      else if String.eqb (type action) "message" then
        childCode <- get_prop (data action) "childCode" ;;
        msg <- get_prop (data action) "message" ;;
        remote_write env
          (RPush ("chats/" +:+ template childCode +:+ "/messages") msg) ;;;
        js_ret true
      else if String.eqb (type action) "sos" then
        remote_write env (RPush "sosAlerts" (data action)) ;;;
        js_ret true
      else if String.eqb (type action) "status" then
        childCode <- get_prop (data action) "childCode" ;;
        st <- get_prop (data action) "status" ;;
        remote_write env
          (RSet ("children/" +:+ template childCode +:+ "/status") st) ;;;
        js_ret true
      else js_ret false (* console.warn: unknown action type *) )
    (λ _, js_ret false (* console.error *)).

(** **** The cache *)

Definition category (k : OfflineKey) (d : OfflineData) : list json :=
  match k with
  | Klocations => locations d
  | Kmessages => messages d
  | KsosAlerts => sosAlerts d
  | KlastSync => []
  end.

Definition set_category (k : OfflineKey) (l : list json) (d : OfflineData)
    : OfflineData :=
  match k with
  | Klocations => mkOfflineData l (messages d) (sosAlerts d) (lastSync d)
  | Kmessages => mkOfflineData (locations d) l (sosAlerts d) (lastSync d)
  | KsosAlerts => mkOfflineData (locations d) (messages d) l (lastSync d)
  | KlastSync => d
  end.

Definition set_lastSync (v : JsValue) (d : OfflineData) : OfflineData :=
  mkOfflineData (locations d) (messages d) (sosAlerts d) v.

(** [{ ...data, _offline: true, _timestamp: Date.now() }] *)
Definition cache_entry (data : JsValue) (now : Z) : json :=
  JObj (obj_set "_timestamp" (JNum now)
          (obj_set "_offline" (JBool true) (spread data))).

(** [if (list.length > 100) list.splice(0, 50)] *)
Definition trim (l : list json) : list json :=
  if (100 <? length l)%nat then drop 50 l else l.

(** [storeOfflineData(type, data)] *)
Definition storeOfflineData (k : OfflineKey) (data : JsValue) (now : Z)
    : Js World unit :=
  match k with
  | KlastSync => upd_mgr (λ m, set_offlineData
                                 (set_lastSync data (offlineData m)) m)
  | _ =>
      upd_mgr (λ m, set_offlineData
                      (set_category k
                         (category k (offlineData m)
                            ++ [cache_entry data now])
                         (offlineData m)) m) ;;;
      upd_mgr (λ m, set_offlineData
                      (set_category k (trim (category k (offlineData m)))
                         (offlineData m)) m)
  end ;;;
  saveOfflineData.

(** [getOfflineData(type)] for the three list categories. *)
Definition getOfflineData (k : OfflineKey) (w : World) : list json :=
  category k (offlineData (mgr w)).

(** **** The queue and its drain *)

(** [syncWhenOnline()] up to its first [await]: the guard, the flag and
    the snapshot.  The call then stays suspended in [drains]. *)
Definition syncWhenOnline : Js World unit :=
  w <- get_state ;;
  if negb (isOnline (mgr w)) || syncInProgress (mgr w)
     || (length (syncQueue (mgr w)) =? 0)%nat
  then js_ret tt
  else
    upd_mgr (set_syncInProgress true) ;;;
    modify (λ w, set_nextTag (S (nextTag w))
                   (set_drains
                      (drains w
                         ++ [mkDrain (nextTag w) (syncQueue (mgr w)) 0 []])
                      w)).

(** The object literal of [queueAction]; [now] is [Date.now()] and [rnd] is
    [Math.random().toString(36).substr(2, 9)]. *)
Definition new_action (t : ActionType) (data : JsValue) (now : Z)
    (rnd : string) : QueuedAction :=
  mkAction (type_name t +:+ "_" +:+ pretty now +:+ "_" +:+ rnd)
           (type_name t) data now 0.

(** [queueAction(type, data)] *)
Definition queueAction (t : ActionType) (data : JsValue) (now : Z)
    (rnd : string) : Js World string :=
  let action := new_action t data now rnd in
  upd_mgr (λ m, set_syncQueue (syncQueue m ++ [length (heap m)])
                  (set_heap (heap m ++ [action]) m)) ;;;
  saveOfflineData ;;;
  (w <- get_state ;; when (isOnline (mgr w)) syncWhenOnline) ;;;
  js_ret (id action).

(** [action.id] of the object behind a reference. *)
Definition action_id (m : Manager) (r : ref) : string :=
  match heap m !! r with Some a => id a | None => "" end.

(** [action.retryCount++] *)
Definition bump (a : QueuedAction) : QueuedAction :=
  mkAction (id a) (type a) (data a) (timestamp a) (retryCount a + 1).

Definition push_id (s : string) (d : Drain) : Drain :=
  mkDrain (tag d) (actionsToSync d) (cursor d) (successfulSyncs d ++ [s]).

(** The failure arm of the loop body: count the retry, give up at
    [maxRetries]. *)
Definition count_retry (r : ref) (d : Drain) : Js World Drain :=
  upd_mgr (λ m, set_heap (alter bump r (heap m)) m) ;;;
  w <- get_state ;;
  match heap (mgr w) !! r with
  | Some action =>
      if maxRetries <=? retryCount action
      then js_ret (push_id (id action) d)
      else js_ret d
  | None => js_ret d
  end.

(** The body of the for-of loop once [await this.syncAction(action)]
    has settled with [res]. *)
Definition loop_body (r : ref) (res : Completion bool) (d : Drain)
    : Js World Drain :=
  try_catch
    ( match res with
      | Normal success =>
          if success
          then w <- get_state ;; js_ret (push_id (action_id (mgr w) r) d)
          else count_retry r d
      | Thrown e => throw e
      end )
    (λ _, count_retry r d).

(** The statements after the loop. *)
Definition finish (d : Drain) (now : Z) : Js World unit :=
  upd_mgr (λ m, set_syncQueue
                  (filter (λ r, action_id m r ∉ successfulSyncs d)
                          (syncQueue m)) m) ;;;
  upd_mgr (λ m, set_offlineData
                  (set_lastSync (Some (JNum now)) (offlineData m)) m) ;;;
  saveOfflineData ;;;
  upd_mgr (set_syncInProgress false).

(** The suspended call [i] resumes: the dispatch it awaits is run
    against [env] and settles, the loop body runs, and the call either
    suspends at the next action or runs to its end. *)
Definition resume (i : nat) (env : RemoteEnv) (now : Z) : Js World unit :=
  w <- get_state ;;
  match drains w !! i with
  | None => js_ret tt
  | Some d =>
      match actionsToSync d !! cursor d with
      | None => js_ret tt
      | Some r =>
          match heap (mgr w) !! r with
          | None => js_ret tt
          | Some action =>
              let sent := syncAction env action (remote w) in
              modify (set_remote sent.2) ;;;
              modify (λ w, set_dispatched
                             (dispatched w ++ [(tag d, r)]) w) ;;;
              d1 <- loop_body r sent.1 d ;;
              let d2 := mkDrain (tag d1) (actionsToSync d1)
                                (S (cursor d1)) (successfulSyncs d1) in
              if (cursor d2 <? length (actionsToSync d2))%nat
              then modify (λ w, set_drains (<[i := d2]> (drains w)) w)
              else
                finish d2 now ;;;
                modify (λ w, set_drains (delete i (drains w)) w)
          end
      end
  end.

(** [getSyncStatus()] *)
Record SyncStatus := mkSyncStatus {
  status_isOnline : bool;
  queuedActions : nat;
  status_lastSync : JsValue;
  status_syncInProgress : bool
}.

Definition getSyncStatus (w : World) : SyncStatus :=
  mkSyncStatus (isOnline (mgr w)) (length (syncQueue (mgr w)))
               (lastSync (offlineData (mgr w))) (syncInProgress (mgr w)).

(** **** The event loop *)

(** Everything that can run between two suspension points. *)
Inductive Event :=
| Online                               (* window 'online' *)
| Offline                              (* window 'offline' *)
| VisibilityChange (hidden : bool)     (* document 'visibilitychange' *)
| PeriodicSync                         (* the 30 s interval *)
| QueueAction (t : ActionType) (data : JsValue) (now : Z) (rnd : string)
| StoreOfflineData (k : OfflineKey) (data : JsValue) (now : Z)
| ClearOfflineData (now : Z)
| SyncWhenOnline                       (* a direct call of the method *)
| Settle (i : nat) (env : RemoteEnv) (now : Z).
                                       (* an awaited dispatch settles *)

(** The [online] and [offline] listeners also run [notifyCallbacks]: the
    callbacks the page registered with [onConnectionChange] update the
    page (a flag and a notification in the child dashboard) and do not
    call back into the manager, so they are not part of this state. *)
Definition handle (e : Event) : Js World unit :=
  match e with
  | Online => upd_mgr (set_isOnline true) ;;; syncWhenOnline
  | Offline => upd_mgr (set_isOnline false)
  | VisibilityChange hidden =>
      w <- get_state ;;
      when (negb hidden && isOnline (mgr w)) syncWhenOnline
  | PeriodicSync =>
      w <- get_state ;;
      when (isOnline (mgr w) && (0 <? length (syncQueue (mgr w)))%nat)
           syncWhenOnline
  | QueueAction t data now rnd => queueAction t data now rnd ;;; js_ret tt
  | StoreOfflineData k data now => storeOfflineData k data now
  | ClearOfflineData now => clearOfflineData now
  | SyncWhenOnline => syncWhenOnline
  | Settle i env now => resume i env now
  end.

Definition step (w : World) (e : Event) : World := after (handle e) w.

Definition run (es : list Event) (w : World) : World :=
  fold_left step es w.

(** The awaits of the drain in flight settling one after the other,
    with nothing else in between. *)
Definition settle_all (envs : list RemoteEnv) (now : Z) : list Event :=
  (λ env, Settle 0 env now) <$> envs.

(** Storing a list of payloads one after the other. *)
Definition store_all (k : OfflineKey) (entries : list (JsValue * Z))
    (w : World) : World :=
  fold_left (λ w e, after (storeOfflineData k e.1 e.2) w) entries w.

(** What the stored offline-data blob is to [loadOfflineData]. *)
Definition offline_blob_malformed (st : Storage) : Prop :=
  ∃ s, items st !! "safestep_offline_data" = Some s ∧ s ≠ ""
       ∧ (JSON_parse s = None
          ∨ ∃ v, JSON_parse s = Some v ∧ valid_offlineData v = false).

Definition offline_blob_unparsable (st : Storage) : Prop :=
  ∃ s, items st !! "safestep_offline_data" = Some s ∧ s ≠ ""
       ∧ JSON_parse s = None.



(** Every reference in the queue points into the heap. *)
Definition wf_queue (w : World) : Prop :=
  ∀ r, r ∈ syncQueue (mgr w) → (r < length (heap (mgr w)))%nat.

(** The objects a queue refers to. *)
Definition queued (w : World) : list QueuedAction :=
  omap (λ r, heap (mgr w) !! r) (syncQueue (mgr w)).

(** The references drain number [t] has dispatched, in order. *)
Definition dispatched_by (t : nat) (w : World) : list ref :=
  snd <$> filter (λ p, p.1 = t) (dispatched w).

(** **** The loop of a drain as a pure function *)

(** The loop body as a function of heap, [successfulSyncs] and remote log. *)
Definition settle_pure (st : list QueuedAction * list string * list RemoteOp)
    (x : ref * RemoteEnv) : list QueuedAction * list string * list RemoteOp :=
  match st.1.1 !! x.1 with
  | None => st
  | Some a =>
      let sent := syncAction x.2 a st.2 in
      match sent.1 with
      | Normal true => (st.1.1, st.1.2 ++ [id a], sent.2)
      | _ =>
          (alter bump x.1 st.1.1,
           if maxRetries <=? retryCount a + 1
           then st.1.2 ++ [id a] else st.1.2,
           sent.2)
      end
  end.

Definition drain_pure (h : list QueuedAction) (ss : list string)
    (l : list RemoteOp) (todo : list (ref * RemoteEnv))
    : list QueuedAction * list string * list RemoteOp :=
  fold_left settle_pure todo (h, ss, l).

Definition with_cursor (c : nat) (ss : list string) (d : Drain) : Drain :=
  mkDrain (tag d) (actionsToSync d) c ss.

Definition go_online (w : World) : World :=
  mkWorld (set_isOnline true (mgr w)) (localStorage w) (drains w) (nextTag w)
          (dispatched w) (remote w).

(** The world a whole drain leaves behind, given what the loop computed. *)
Definition drained (w : World) (now : Z)
    (p : list QueuedAction * list string * list RemoteOp)
    (i : gmap string string) : World :=
  mkWorld
    (mkManager (isOnline (mgr w)) p.1.1
       (filter (λ r, action_id (set_heap p.1.1 (mgr w)) r ∉ p.1.2)
               (syncQueue (mgr w)))
       (set_lastSync (Some (JNum now)) (offlineData (mgr w))) false)
    (mkStorage i (readable (localStorage w)) (writable (localStorage w)))
    [] (S (nextTag w))
    (dispatched w ++ (pair (nextTag w) <$> syncQueue (mgr w)))
    p.2.

Definition always_succeeds (env : RemoteEnv) : Prop :=
  import_resolves env = true ∧ ∀ op, write_resolves env op = true.

(** [action.data] can be read for its fields. *)
Definition has_fields (v : JsValue) : bool :=
  match v with None | Some JNull => false | Some _ => true end.

(** An action of one of the four kinds whose payload [syncAction] can read:
    the only things a succeeding remote store still depends on. *)
Definition dispatchable (a : QueuedAction) : bool :=
  if String.eqb (type a) "location" || String.eqb (type a) "message"
     || String.eqb (type a) "status"
  then has_fields (data a)
  else String.eqb (type a) "sos".

(** [action.data.k] when [action.data] can be read. *)
Definition field (v : JsValue) (k : string) : JsValue :=
  match v with Some j => prop j k | None => None end.

(** The writes [syncAction] issues for an action, by kind. *)
Definition remote_writes (a : QueuedAction) : list RemoteOp :=
  if String.eqb (type a) "location" then
    [RSet ("children/" +:+ template (field (data a) "childCode")) (data a);
     RPush ("children/" +:+ template (field (data a) "childCode")
              +:+ "/locationHistory") (field (data a) "lastLocation")]
  else if String.eqb (type a) "message" then
    [RPush ("chats/" +:+ template (field (data a) "childCode")
              +:+ "/messages") (field (data a) "message")]
  else if String.eqb (type a) "sos" then
    [RPush "sosAlerts" (data a)]
  else if String.eqb (type a) "status" then
    [RSet ("children/" +:+ template (field (data a) "childCode")
             +:+ "/status") (field (data a) "status")]
  else [].

Definition enqueued (w : World) (a : QueuedAction) (i : gmap string string)
    : World :=
  mkWorld (set_syncQueue (syncQueue (mgr w) ++ [length (heap (mgr w))])
             (set_heap (heap (mgr w) ++ [a]) (mgr w)))
          (mkStorage i (readable (localStorage w)) (writable (localStorage w)))
          (drains w) (nextTag w) (dispatched w) (remote w).

(** [syncAction] on [a] returns [false] under each of the given remotes. *)
Definition always_fails (a : QueuedAction) (envs : list RemoteEnv) : Prop :=
  Forall (λ env, ∀ l, (syncAction env a l).1 = Normal false) envs.

(** How often [syncAction] has been called on the object [r]. *)
Definition attempts (r : ref) (w : World) : nat :=
  length (filter (λ p, p.2 = r) (dispatched w)).

(** No other queued action carries the id of the object [r]. *)
Definition only_holder (h : list QueuedAction) (q : list ref) (r : ref)
    : Prop :=
  ∀ r' a a', r' ∈ q → r' ≠ r → h !! r = Some a → h !! r' = Some a' →
             id a' ≠ id a.

(** A manager between drains. *)
Definition at_rest (w : World) : Prop :=
  isOnline (mgr w) = true ∧ syncInProgress (mgr w) = false ∧ drains w = []
  ∧ wf_queue w ∧ NoDup (syncQueue (mgr w)).

(** A suspended drain is consistent with the log of dispatches: it has
    dispatched exactly the actions of its snapshot before its cursor, and
    the ids it has collected are ids of actions of its snapshot. *)
Definition flight_ok (w : World) (d : Drain) : Prop :=
  (tag d < nextTag w)%nat
  ∧ (cursor d < length (actionsToSync d))%nat
  ∧ NoDup (actionsToSync d)
  ∧ (∀ r, r ∈ actionsToSync d → (r < length (heap (mgr w)))%nat)
  ∧ dispatched_by (tag d) w = take (cursor d) (actionsToSync d)
  ∧ (∀ s, s ∈ successfulSyncs d →
          ∃ r, r ∈ actionsToSync d ∧ action_id (mgr w) r = s).

(** The invariant of the event loop. *)
Definition single_flight (w : World) : Prop :=
  (length (drains w) ≤ 1)%nat
  ∧ (syncInProgress (mgr w) = true ↔ drains w ≠ [])
  ∧ wf_queue w
  ∧ NoDup (syncQueue (mgr w))
  ∧ (∀ p, p ∈ dispatched w → (p.1 < nextTag w)%nat)
  ∧ (∀ t, NoDup (dispatched_by t w))
  ∧ Forall (flight_ok w) (drains w).

(** **** Concrete worlds and remotes *)

(** An empty, working [localStorage]. *)
Definition empty_storage : Storage := mkStorage ∅ true true.

(** A manager constructed offline at time 0 over [empty_storage]. *)
Definition fresh_world : World :=
  mkWorld (new_Manager false 0) empty_storage [] 0 [] [].

(** A remote store that accepts every write, and one that rejects them. *)
Definition accept_all : RemoteEnv := mkRemoteEnv true (λ _, true).
Definition reject_all : RemoteEnv := mkRemoteEnv true (λ _, false).

(** **** Callers of the queue *)

(** An awaited [set(...)] or [push(...)] made directly by a caller. *)
Definition await_write (env : RemoteEnv) (op : RemoteOp) : Js World unit :=
  w <- get_state ;;
  match remote_write env op (remote w) with
  | (Normal _, l) => modify (set_remote l)
  | (Thrown e, _) => throw e
  end.




(** [{ lastLocation, status: 'online', lastSeen: Date.now(), childCode,
       isActive: true }] *)
Definition childData (locationData : JsValue) (childCode : string) (now : Z)
    : json :=
  obj [("lastLocation", locationData); ("status", Some (JStr "online"));
       ("lastSeen", Some (JNum now)); ("childCode", Some (JStr childCode));
       ("isActive", Some (JBool true))].

(** [{ childCode, lastLocation: locationData }] *)
Definition queued_location (locationData : JsValue) (childCode : string)
    : json :=
  obj [("childCode", Some (JStr childCode)); ("lastLocation", locationData)].

(** [BackgroundService.updateFirebaseLocation(locationData, childCode)].
    [offline_import] tells whether [import('./offlineManager')] in the
    catch block resolves. *)
Definition updateFirebaseLocation (env : RemoteEnv) (offline_import : bool)
    (locationData : JsValue) (childCode : string) (now nowQ : Z)
    (rnd : string) : Js World unit :=
  try_catch
    ( (if import_resolves env then js_ret tt else throw "import") ;;;
      await_write env
        (RSet ("children/" +:+ childCode)
              (Some (childData locationData childCode now))) ;;;
      await_write env
        (RPush ("children/" +:+ childCode +:+ "/locationHistory")
               locationData) )
    (λ _,
       (if offline_import then js_ret tt else throw "import") ;;;
       queueAction location (Some (queued_location locationData childCode))
         nowQ rnd ;;;
       js_ret tt).


(** A store that refuses every write, and a manager constructed over it. *)
Definition full_storage : Storage := mkStorage ∅ true false.
Definition fresh_full : World :=
  mkWorld (new_Manager false 0) full_storage [] 0 [] [].

(** A manager constructed online over [empty_storage]. *)
Definition fresh_online : World :=
  mkWorld (new_Manager true 0) empty_storage [] 0 [] [].
End Operations.

End OfflineManager.

(* ===================================================================== *)
(** ** A concrete [JSON] codec                                           *)
(* ===================================================================== *)

(** The model is parametric in the platform's [JSON] object.  To run it on
    concrete stores this module supplies one codec, through S-expressions. *)
Module Codec.
Import OfflineManager.

Fixpoint json_to_sexp (v : json) : sexp :=
  match v with
  | JNull => Atom_ (Raw "null")
  | JBool true => Atom_ (Raw "true")
  | JBool false => Atom_ (Raw "false")
  | JNum n => Atom_ (Num n)
  | JStr s => Atom_ (Str s)
  | JArr l => List (Atom_ (Raw "arr") :: List.map json_to_sexp l)
  | JObj kvs =>
      List (Atom_ (Raw "obj")
              :: List.map (λ kv, List [Atom_ (Str kv.1); json_to_sexp kv.2])
                          kvs)
  end.

Fixpoint sexp_to_json (e : sexp) : option json :=
  match e with
  | Atom_ (Raw r) =>
      if String.eqb r "null" then Some JNull
      else if String.eqb r "true" then Some (JBool true)
      else if String.eqb r "false" then Some (JBool false)
      else None
  | Atom_ (Num n) => Some (JNum n)
  | Atom_ (Str s) => Some (JStr s)
  | List (Atom_ (Raw r) :: l) =>
      if String.eqb r "arr" then JArr <$> mapM sexp_to_json l
      else if String.eqb r "obj" then
        JObj <$> mapM (λ kv, match kv with
                             | List [Atom_ (Str k); v] =>
                                 pair k <$> sexp_to_json v
                             | _ => None
                             end) l
      else None
  | List _ => None
  end.

Definition encode (v : json) : string := to_string (json_to_sexp v).

Definition decode (s : string) : option json :=
  match (from_string s : error + sexp) with
  | inr e => sexp_to_json e
  | inl _ => None
  end.

Definition codec : JSON :=
  {| JSON_stringify := encode; JSON_parse := decode |}.


(** Three payloads, and the offline manager after queueing them. *)
Definition sos_payload : JsValue :=
  Some (JObj [("childCode", JStr "c1")]).
Definition message_payload : JsValue :=
  Some (JObj [("childCode", JStr "c1");
                             ("message", JStr "hi")]).
Definition status_payload : JsValue :=
  Some (JObj [("childCode", JStr "c1");
                             ("status", JStr "safe")]).

Definition three_queued : World :=
  run (H := codec)
    [QueueAction message message_payload 1 "a";
     QueueAction status status_payload 2 "b";
     QueueAction sos sos_payload 3 "c"]
    fresh_world.

(** A manager that went offline while a drain was in flight: one action
    queued online, whose drain awaits the remote, and one queued after the
    connection was lost. *)
Definition queued_during_drain : World :=
  run (H := codec)
    [QueueAction message message_payload 1 "a";
     Offline;
     QueueAction message message_payload 2 "b"]
    fresh_online.

(** An online manager at rest with one queued action. *)
Definition one_queued : World :=
  mkWorld
    (mkManager true
       [new_action sos sos_payload 5 "k3j"] [0%nat]
       (empty_offlineData 0) false)
    empty_storage [] 0 [] [].

End Codec.

(* ===================================================================== *)
(** ** [VoiceCommandManager]: matching a spoken command                  *)
(* ===================================================================== *)

Module VoiceCommandManager.

(** The double-quote character. *)
Definition dquote : string := String (Ascii.ascii_of_nat 34) EmptyString.

(** [s.includes(pat)] *)
Fixpoint includes (s pat : string) : bool :=
  String.prefix pat s
  || match s with
     | EmptyString => false
     | String _ rest => includes rest pat
     end.

Definition is_lower (c : Ascii.ascii) : bool :=
  (97 <=? Ascii.nat_of_ascii c)%nat && (Ascii.nat_of_ascii c <=? 122)%nat.
Definition is_upper (c : Ascii.ascii) : bool :=
  (65 <=? Ascii.nat_of_ascii c)%nat && (Ascii.nat_of_ascii c <=? 90)%nat.

(** [s.replace(/([a-z])([A-Z])/g, '$1 $2')] *)
Fixpoint camel_spaces (s : string) : string :=
  match s with
  | String a (String b rest as tl) =>
      if is_lower a && is_upper b
      then String a (String (Ascii.ascii_of_nat 32)
                             (String b (camel_spaces rest)))
      else String a (camel_spaces tl)
  | _ => s
  end.

(** A command handler: whether the promise it returns for a command
    resolves ([false]: it throws or rejects). *)
Definition VoiceCommandHandler : Type := string → bool.

Inductive Callback := ShowAvailableCommands.

(** What the manager does to the outside world. *)
Inductive Effect :=
| Speak (text : string)
| OnStatusUpdate (status : string)
| ShowNotification (text kind : string)
| CallHandler (key command : string)
| SetTimeout (callback : Callback) (delay : Z).

Record State := mkState {
  commandHandlers : gmap string VoiceCommandHandler;
  lastCommandTime : Z;
  effects : list Effect                (* oldest first *)
}.

Definition commandCooldown : Z := 2000.

Definition emit (e : Effect) (s : State) : State :=
  mkState (commandHandlers s) (lastCommandTime s) (effects s ++ [e]).

Definition set_lastCommandTime (t : Z) (s : State) : State :=
  mkState (commandHandlers s) t (effects s).

(** [commandPatterns]: the phrases of each command and its key. *)
Definition commandPatterns : list (list string * string) :=
  [ (["send sos"; "sos"; "emergency"; "help me"; "need help";
      "call for help"], "send sos");
    (["enable panic siren"; "start siren"; "siren on"; "panic siren";
      "enable panic"; "start panic"; "panic beeping"; "start beeping";
      "loud beeping"], "enable panic siren");
    (["disable panic siren"; "stop siren"; "siren off"; "stop panic";
      "disable panic"; "stop beeping"; "stop loud beeping"],
     "disable panic siren");
    (["i am safe"; "i'm safe"; "safe"; "all good"; "everything is fine"],
     "i am safe");
    (["coming home"; "going home"; "on my way home"; "heading home"],
     "coming home");
    (["need pickup"; "need a ride"; "pick me up"; "come get me"],
     "need pickup");
    (["where is my child"; "child location"; "where is child";
      "child's location"; "find my child"], "where is my child");
    (["child battery"; "battery level"; "what is battery";
      "child's battery"; "battery status"], "child battery");
    (["are you okay"; "are you ok"; "check on child"], "are you okay");
    (["on my way"; "coming to get you"; "be right there"], "on my way");
    (["call me"; "phone me"; "give me a call"], "call me");
    (["ping child"; "send ping"; "check child"], "ping child") ].

(** The inner loop: the first phrase the command includes, if the key has
    a handler. *)
Fixpoint scan_phrases (command key : string)
    (handlers : gmap string VoiceCommandHandler) (phrases : list string)
    : option VoiceCommandHandler :=
  match phrases with
  | [] => None
  | patternText :: rest =>
      if includes command patternText then
        match handlers !! key with
        | Some handler => Some handler
        | None => scan_phrases command key handlers rest
        end
      else scan_phrases command key handlers rest
  end.

(** The outer loop: it stops at the first command found. *)
Fixpoint scan_patterns (command : string)
    (handlers : gmap string VoiceCommandHandler)
    (table : list (list string * string))
    : option (string * VoiceCommandHandler) :=
  match table with
  | [] => None
  | pattern :: rest =>
      match scan_phrases command pattern.2 handlers pattern.1 with
      | Some handler => Some (pattern.2, handler)
      | None => scan_patterns command handlers rest
      end
  end.

(** [handleCommand(command)], with [now = Date.now()]. *)
Definition handleCommand (command : string) (now : Z) (s : State) : State :=
  if now - lastCommandTime s <? commandCooldown then
    emit (Speak "Please wait a moment before the next command.") s
  else
    let s1 := set_lastCommandTime now s in
    match scan_patterns command (commandHandlers s1) commandPatterns with
    | Some (key, handler) =>
        let s2 := emit (CallHandler key command) s1 in
        if handler command then
          emit (Speak ("Command executed: " +:+ camel_spaces key))
            (emit (OnStatusUpdate ("✅ Command executed: " +:+ dquote
                                   +:+ key +:+ dquote)) s2)
        else
          emit (OnStatusUpdate ("❌ Error executing command: " +:+ dquote
                                +:+ key +:+ dquote))
            (emit (Speak "Sorry, I encountered an error executing that command.")
               s2)
    | None =>
        emit (SetTimeout ShowAvailableCommands 2000)
          (emit (Speak ("Sorry, I didn't understand " +:+ dquote +:+ command
                        +:+ dquote +:+ ". Try commands like " +:+ dquote
                        +:+ "send SOS" +:+ dquote +:+ ", " +:+ dquote
                        +:+ "where is my child" +:+ dquote +:+ ", or "
                        +:+ dquote +:+ "battery level" +:+ dquote +:+ "."))
             (emit (OnStatusUpdate ("❓ Command not recognized: " +:+ dquote
                                    +:+ command +:+ dquote)) s1))
    end.

(** The handler calls made so far: key and command, oldest first. *)
Definition calls (s : State) : list (string * string) :=
  omap (λ e, match e with
             | CallHandler key command => Some (key, command)
             | _ => None
             end) (effects s).

(** A table entry the command matches: one of its phrases occurs in it. *)
Definition matches (command : string) (pattern : list string * string)
    : bool :=
  existsb (includes command) pattern.1.

(** The handlers the child dashboard installs ([setupVoiceCommands]);
    [run] says which of them complete. *)
Definition child_handlers (run : VoiceCommandHandler)
    : gmap string VoiceCommandHandler :=
  list_to_map
    [("send sos", run); ("enable panic siren", run);
     ("disable panic siren", run); ("i am safe", run);
     ("coming home", run); ("need pickup", run)].

(** A manager with the child dashboard's handlers, none of which fails,
    that has not handled a command yet. *)
Definition child_voice : State :=
  mkState (child_handlers (λ _, true)) 0 [].

End VoiceCommandManager.

(* ===================================================================== *)
(** ** [PermissionManager]: notification and microphone permission       *)
(* ===================================================================== *)

Module PermissionManager.

(** [Notification.permission] and the state of a permission query. *)
Inductive PermissionState := granted | denied | prompt.

(** [navigator.mediaDevices]: the property is missing, or it is there with
    a value that is not an object (as in an insecure context), or it is
    the object, with or without [getUserMedia]. *)
Inductive MediaDevices :=
| NoMediaDevices
| MediaDevicesUndefined
| MediaDevicesObject (has_getUserMedia : bool).

(** The static fields of the class the two requests use. *)
Record Flags := mkFlags {
  notificationPermissionGranted : bool;
  microphonePermissionGranted : bool
}.

(** The browser: what it offers, what the user has decided so far, and
    what the page has made it do. *)
Record Browser := mkBrowser {
  has_Notification : bool;          (* 'Notification' in window *)
  Notification_permission : PermissionState;  (* prompt: 'default' *)
  mediaDevices : MediaDevices;
  has_permissions : bool;           (* 'permissions' in navigator *)
  notification_prompts : nat;       (* Notification.requestPermission() *)
  microphone_requests : nat;        (* getUserMedia({ audio }) *)
  shown : list string               (* titles of notifications created *)
}.

Record World := mkWorld { flags : Flags; browser : Browser }.

Definition upd_flags (f : Flags → Flags) : Js World unit :=
  modify (λ w, mkWorld (f (flags w)) (browser w)).
Definition upd_browser (f : Browser → Browser) : Js World unit :=
  modify (λ w, mkWorld (flags w) (f (browser w))).
Arguments upd_flags f _ /.
Arguments upd_browser f _ /.

Definition set_notificationPermissionGranted (b : bool) (f : Flags)
    : Flags :=
  mkFlags b (microphonePermissionGranted f).
Definition set_microphonePermissionGranted (b : bool) (f : Flags) : Flags :=
  mkFlags (notificationPermissionGranted f) b.

Definition is_granted (p : PermissionState) : bool :=
  match p with granted => true | _ => false end.
Definition is_denied (p : PermissionState) : bool :=
  match p with denied => true | _ => false end.

(** How the user and the browser answer during one call. *)
Record Answers := mkAnswers {
  notification_answer : option PermissionState;
                                    (* None: requestPermission rejects *)
  notification_constructor_throws : bool;
  microphone_query : option PermissionState;
                                    (* None: permissions.query rejects *)
  getUserMedia_resolves : bool
}.

(** [await Notification.requestPermission()]: the prompt is shown and the
    browser records the answer. *)
Definition Notification_requestPermission (a : Answers)
    : Js World PermissionState :=
  upd_browser (λ b, mkBrowser (has_Notification b)
                      (Notification_permission b) (mediaDevices b)
                      (has_permissions b) (S (notification_prompts b))
                      (microphone_requests b) (shown b)) ;;;
  match notification_answer a with
  | Some p =>
      upd_browser (λ b, mkBrowser (has_Notification b) p
                          (mediaDevices b) (has_permissions b)
                          (notification_prompts b) (microphone_requests b)
                          (shown b)) ;;;
      js_ret p
  | None => throw "requestPermission"
  end.

Definition new_Notification (a : Answers) (title : string) : Js World unit :=
  if notification_constructor_throws a then throw "TypeError"
  else upd_browser (λ b, mkBrowser (has_Notification b)
                           (Notification_permission b) (mediaDevices b)
                           (has_permissions b) (notification_prompts b)
                           (microphone_requests b) (shown b ++ [title])).

(** [static async requestNotificationPermission(): Promise<boolean>] *)
Definition requestNotificationPermission (a : Answers) : Js World bool :=
  w <- get_state ;;
  if negb (has_Notification (browser w)) then js_ret false
  else if is_granted (Notification_permission (browser w)) then
    upd_flags (set_notificationPermissionGranted true) ;;; js_ret true
  else if is_denied (Notification_permission (browser w)) then js_ret false
  else
    try_catch
      ( permission <- Notification_requestPermission a ;;
        upd_flags (set_notificationPermissionGranted (is_granted permission)) ;;;
        w1 <- get_state ;;
        when (notificationPermissionGranted (flags w1))
          (new_Notification a "SafeStep Notifications Enabled") ;;;
        w2 <- get_state ;;
        js_ret (notificationPermissionGranted (flags w2)) )
      (λ _, js_ret false).

(** [static isNotificationPermissionGranted(): boolean]; reading
    [Notification.permission] where there is no [Notification] is a
    [ReferenceError]. *)
Definition isNotificationPermissionGranted : Js World bool :=
  w <- get_state ;;
  if notificationPermissionGranted (flags w) then js_ret true
  else if has_Notification (browser w)
  then js_ret (is_granted (Notification_permission (browser w)))
  else throw "ReferenceError".

(** [await navigator.mediaDevices.getUserMedia({ audio })] followed by
    stopping the tracks of the stream. *)
Definition getUserMedia (a : Answers) : Js World unit :=
  upd_browser (λ b, mkBrowser (has_Notification b)
                      (Notification_permission b) (mediaDevices b)
                      (has_permissions b) (notification_prompts b)
                      (S (microphone_requests b)) (shown b)) ;;;
  if getUserMedia_resolves a then js_ret tt else throw "NotAllowedError".

(** The inner [try] of [requestMicrophonePermission]: [Some b] when it
    returns [b], [None] when the request goes on to [getUserMedia]. *)
Definition query_microphone (a : Answers) : Js World (option bool) :=
  w <- get_state ;;
  if has_permissions (browser w) then
    try_catch
      ( match microphone_query a with
        | Some granted =>
            upd_flags (set_microphonePermissionGranted true) ;;;
            js_ret (Some true)
        | Some denied => js_ret (Some false)
        | Some prompt => js_ret None
        | None => throw "query"
        end )
      (λ _, js_ret None)
  else js_ret None.

(** [static async requestMicrophonePermission(): Promise<boolean>] *)
Definition requestMicrophonePermission (a : Answers) : Js World bool :=
  w <- get_state ;;
  match mediaDevices (browser w) with
  | NoMediaDevices => js_ret false
  | MediaDevicesUndefined =>
      (* 'getUserMedia' in undefined, outside the try *)
      throw "TypeError"
  | MediaDevicesObject false => js_ret false
  | MediaDevicesObject true =>
    try_catch
      ( early <- query_microphone a ;;
        match early with
        | Some b => js_ret b
        | None =>
            getUserMedia a ;;;
            upd_flags (set_microphonePermissionGranted true) ;;;
            js_ret true
        end )
      (λ _, upd_flags (set_microphonePermissionGranted false) ;;;
            js_ret false)
  end.

(** [static isMicrophonePermissionGranted(): boolean] *)
Definition isMicrophonePermissionGranted (w : World) : bool :=
  microphonePermissionGranted (flags w).

End PermissionManager.

(* ===================================================================== *)
(** * Properties                                                         *)
(* ===================================================================== *)

(** ** The shake counter *)

Section ShakeCounter.
Import GestureManager.

Lemma state_eta (s : State) :
  mkState (has_onShake s) (isEnabled s) (lastAcceleration s) (shakeCount s)
          (shakeResetTimeout s) (lastShakeTime s) (timers s) (nextHandle s)
          (effects s) = s.
Proof. by destruct s. Qed.

(** No timeout is due: the platform runs nothing before the sample. *)
Lemma fire_due_idle now s :
  Forall (λ t : Timer, now < t.2) (timers s) → fire_due now s = s.
Proof.
  intros Hall. unfold fire_due.
  assert (Hdue : filter (λ t : Timer, t.2 <= now) (timers s) = []).
  { induction Hall as [|t ts Ht _ IH]; [done|].
    rewrite filter_cons_False by (cbn; lia). exact IH. }
  assert (Hrest : filter (λ t : Timer, ¬ t.2 <= now) (timers s) = timers s).
  { clear Hdue. induction Hall as [|t ts Ht _ IH]; [done|].
    rewrite filter_cons_True by (cbn; lia). by rewrite IH. }
  rewrite Hdue, Hrest. cbn. apply state_eta.
Qed.

(** A reading above the threshold, outside the debounce interval, is
    counted. *)
Lemma handleDeviceMotion_counted t a s :
  isEnabled s = true →
  above_threshold (lastAcceleration s) a →
  500 < t - lastShakeTime s →
  handleDeviceMotion t (reading a) s = count_and_notify t a s.
Proof.
  intros He [Hnz Hd] Ht. unfold handleDeviceMotion, reading. cbn.
  rewrite He. cbn.
  destruct a as [x y z]. cbn in *.
  destruct (Z.eqb_spec x 0), (Z.eqb_spec y 0), (Z.eqb_spec z 0); cbn;
    try (exfalso; apply Hnz; by repeat split);
    (destruct (Z.ltb_spec shakeThreshold
                 (totalDelta (lastAcceleration s) (mkAcc x y z)));
       [|unfold totalDelta in *; cbn in *; lia]);
    (destruct (Z.ltb_spec 500 (t - lastShakeTime s)); [done|lia]).
Qed.

(** A sample inside the debounce interval changes neither the count nor
    what the application has been told. *)
Lemma handleDeviceMotion_debounced t e s :
  t - lastShakeTime s <= 500 →
  shakeCount (handleDeviceMotion t e s) = shakeCount s
  ∧ effects (handleDeviceMotion t e s) = effects s
  ∧ timers (handleDeviceMotion t e s) = timers s.
Proof.
  intros Ht. unfold handleDeviceMotion.
  destruct e as [acc|]; [|done].
  destruct (negb (isEnabled s)); [done|].
  destruct (_ && _); [done|].
  destruct (Z.ltb_spec 500 (t - lastShakeTime s)); [lia|].
  by destruct (_ <? _).
Qed.

(** One counted sample: no timeout due, manager enabled, reading above
    the threshold against the last stored one, debounce interval over. *)
Lemma deliver_counted s t a :
  Forall (λ tm : Timer, t < tm.2) (timers s) →
  isEnabled s = true →
  above_threshold (lastAcceleration s) a →
  500 < t - lastShakeTime s →
  deliver s (t, reading a) = count_and_notify t a s.
Proof.
  intros Hdue He Ha Ht. unfold deliver. cbn [fst snd].
  rewrite fire_due_idle by done. by apply handleDeviceMotion_counted.
Qed.

Lemma deliver_debounced s t e :
  timers s = [] →
  t - lastShakeTime s <= 500 →
  shakeCount (deliver s (t, e)) = shakeCount s
  ∧ effects (deliver s (t, e)) = effects s.
Proof.
  intros Hnone Ht. unfold deliver. cbn [fst snd].
  rewrite fire_due_idle by (rewrite Hnone; constructor).
  destruct (handleDeviceMotion_debounced t e s Ht) as (? & ? & _). done.
Qed.

(** [count_and_notify] by the value the counter had. *)
Lemma count_first t a s :
  shakeCount s = 0 →
  count_and_notify t a s
  = setLastAcceleration a
      (armResetTimeout t
         (emit (ShowGestureNotification (ShakeDetected 1))
               (countShake t s))).
Proof.
  intros H. unfold count_and_notify. cbn [shakeCount countShake].
  by rewrite H.
Qed.

Lemma count_second t a s :
  shakeCount s = 1 →
  count_and_notify t a s
  = setLastAcceleration a
      (armResetTimeout t
         (emit (ShowGestureNotification (ShakeProgress 2))
               (countShake t s))).
Proof.
  intros H. unfold count_and_notify. cbn [shakeCount countShake].
  by rewrite H.
Qed.

Lemma count_third t a s :
  shakeCount s = 2 →
  count_and_notify t a s
  = setLastAcceleration a
      (armResetTimeout t
         (call_onShake
            (emit (ShowGestureNotification PanicSirenActivated)
                  (countShake t s)))).
Proof.
  intros H. unfold count_and_notify. cbn [shakeCount countShake].
  by rewrite H.
Qed.

Lemma count_fourth t a s :
  shakeCount s = 3 →
  count_and_notify t a s
  = resetShakeCount
      (call_onShake
         (emit (ShowGestureNotification SOSAlertActivated)
               (countShake t s))).
Proof.
  intros H. unfold count_and_notify. cbn [shakeCount countShake].
  by rewrite H.
Qed.

Local Ltac shake E count :=
  rewrite deliver_counted in E;
    [ rewrite count in E by (subst; reflexivity)
    | subst; cbn;
      repeat (apply Forall_cons_2; [cbn; unfold shakeWindow; lia|]);
      apply Forall_nil_2
    | subst; reflexivity
    | subst; assumption
    | subst; cbn; lia ].

(** C3, amended.  Readings above the threshold delivered 0, 600, 1200 and
    1800 ms after a clock reading [T0 > 500] make the manager call
    [onShake(3)] (panic siren) exactly once, at the third sample, and
    [onShake(4)] (SOS) at the fourth, which resets [shakeCount] to 0
    without another panic call.  A further sample up to 500 ms after the
    SOS sample is debounced and leaves [shakeCount] at 0; a reading above
    the threshold more than 500 ms after it starts a new count at 1. *)
Theorem shake_scenario T0 r1 r2 r3 r4 :
  500 < T0 →
  above_threshold (mkAcc 0 0 0) r1 →
  above_threshold r1 r2 →
  above_threshold r2 r3 →
  above_threshold r3 r4 →
  let s2 := feed (take 2 (shakes T0 r1 r2 r3 r4)) enabled_init in
  let s3 := feed (take 3 (shakes T0 r1 r2 r3 r4)) enabled_init in
  let s4 := feed (shakes T0 r1 r2 r3 r4) enabled_init in
  (shakeCount s2 = 2 ∧ app_events s2 = [])
  ∧ (shakeCount s3 = 3 ∧ app_events s3 = [PanicSiren])
  ∧ (shakeCount s4 = 0 ∧ app_events s4 = [PanicSiren; SendSOS])
  ∧ (∀ t5 e5, t5 <= T0 + 2300 →
       shakeCount (deliver s4 (t5, e5)) = 0
       ∧ app_events (deliver s4 (t5, e5)) = [PanicSiren; SendSOS])
  ∧ (∀ t5 r5, T0 + 2300 < t5 → above_threshold r3 r5 →
       shakeCount (deliver s4 (t5, reading r5)) = 1
       ∧ app_events (deliver s4 (t5, reading r5)) = [PanicSiren; SendSOS]).
Proof.
  intros HT H1 H2 H3 H4. unfold shakes, feed. cbn [take fold_left].
  remember (deliver enabled_init (T0, reading r1)) as s1 eqn:E1.
  remember (deliver s1 (T0 + 600, reading r2)) as s2 eqn:E2.
  remember (deliver s2 (T0 + 1200, reading r3)) as s3 eqn:E3.
  remember (deliver s3 (T0 + 1800, reading r4)) as s4 eqn:E4.
  shake E1 count_first. shake E2 count_second. shake E3 count_third.
  shake E4 count_fourth.
  assert (G2 : shakeCount s2 = 2 ∧ app_events s2 = [])
    by (subst; vm_compute; done).
  assert (G3 : shakeCount s3 = 3 ∧ app_events s3 = [PanicSiren])
    by (subst; vm_compute; done).
  assert (F1 : shakeCount s4 = 0) by (subst; reflexivity).
  assert (F2 : app_events s4 = [PanicSiren; SendSOS])
    by (subst; vm_compute; reflexivity).
  assert (F3 : timers s4 = []) by (subst; reflexivity).
  assert (F4 : lastShakeTime s4 = T0 + 1800) by (subst; reflexivity).
  assert (F5 : lastAcceleration s4 = r3) by (subst; reflexivity).
  assert (F6 : isEnabled s4 = true) by (subst; reflexivity).
  clear E1 E2 E3 E4.
  split; [exact G2|]. split; [exact G3|]. split; [by split|]. split.
  - intros t5 e5 Ht.
    destruct (deliver_debounced s4 t5 e5 F3) as [Hc Hfx]; [lia|].
    unfold app_events in *. by rewrite Hc, Hfx.
  - intros t5 r5 Ht Hr.
    rewrite deliver_counted, count_first; try done.
    + cbn. rewrite F1. split; [done|].
      unfold app_events in *. cbn. rewrite omap_app, F2. done.
    + rewrite F3. apply Forall_nil_2.
    + by rewrite F5.
    + lia.
Qed.

(** C3, as stated: in a run of the scenario the sample at t = 2300 (and
    likewise one 100 ms after the SOS sample) does not start a count at 1;
    the counter stays at 0. *)
Lemma shake_after_sos_not_counted :
  let s4 := feed (shakes 1000 (mkAcc 20 0 0) (mkAcc 1 0 0) (mkAcc 20 0 0)
                    (mkAcc 1 0 0)) enabled_init in
  app_events s4 = [PanicSiren; SendSOS]
  ∧ shakeCount (deliver s4 (1000 + 2300, reading (mkAcc 1 0 0))) ≠ 1
  ∧ shakeCount (deliver s4 (1000 + 1900, reading (mkAcc 1 0 0))) ≠ 1
  ∧ shakeCount (deliver s4 (1000 + 2300, reading (mkAcc 1 0 0))) = 0.
Proof. vm_compute. repeat split; discriminate. Qed.

Lemma shake_scenario_witness :
  let s4 := feed (shakes 1000 (mkAcc 20 0 0) (mkAcc 1 0 0) (mkAcc 20 0 0)
                    (mkAcc 1 0 0)) enabled_init in
  shakeCount s4 = 0 ∧ app_events s4 = [PanicSiren; SendSOS].
Proof.
  assert (Hq : ∀ a b, (a = 20 ∧ b = 1) ∨ (a = 1 ∧ b = 20) ∨ (a = 0 ∧ b = 20) →
               above_threshold (mkAcc a 0 0) (mkAcc b 0 0)).
  { intros a b Hab. split; [unfold nonzero; cbn; lia|].
    unfold totalDelta, shakeThreshold; cbn; lia. }
  destruct (shake_scenario 1000 (mkAcc 20 0 0) (mkAcc 1 0 0) (mkAcc 20 0 0)
              (mkAcc 1 0 0)) as (_ & _ & Hsos & _);
    [lia | apply Hq; lia .. | exact Hsos].
Defined.

End ShakeCounter.

(** ** The background service *)

Section BackgroundServiceProperties.
Import BackgroundService.

Lemma not_in_remove (x : Z) (l : list Z) : x ∉ remove x l.
Proof. unfold remove. rewrite list_elem_of_filter. tauto. Qed.

Local Ltac crush_stop :=
  repeat (cbn;
          match goal with
          | |- context [?n =? 0] => destruct (Z.eqb_spec n 0)
          | |- context [bool_decide ?P] =>
              (rewrite (bool_decide_eq_true_2 P) by eauto)
              || (rewrite (bool_decide_eq_false_2 P) by (by intros [??]))
          end).






Lemma acquireWakeLock_absent env w :
  wakeLock_api env = false ∨ wakeLock_request env = None →
  wakeLock (svc (after (acquireWakeLock env) w)) = wakeLock (svc w).
Proof.
  unfold acquireWakeLock.
  intros [H|H]; rewrite H; [done|]. by destruct (wakeLock_api env).
Qed.






Local Opaque acquireWakeLock registerServiceWorker startLocationTracking
  startHeartbeat enableBackgroundGestures new_Notification.



Local Transparent acquireWakeLock registerServiceWorker
  startLocationTracking startHeartbeat enableBackgroundGestures
  new_Notification.



End BackgroundServiceProperties.

(** ** The offline manager *)

Section OfflineManagerProperties.
Import OfflineManager.
Context `{JSON}.

(** *** Persisting *)

Lemma world_eta w :
  set_items (items (localStorage w)) w = w.
Proof. by destruct w as [? [] ? ? ? ?]. Qed.

(** [saveOfflineData] never throws and touches nothing but the store. *)
Lemma saveOfflineData_run w :
  ∃ i, saveOfflineData w = (Normal tt, set_items i w).
Proof.
  unfold saveOfflineData, localStorage_setItem. cbn.
  destruct (writable (localStorage w)) eqn:Hw; cbn.
  - rewrite Hw. cbn. eexists. unfold set_items. cbn. rewrite Hw. done.
  - exists (items (localStorage w)). by rewrite world_eta.
Qed.

(** With a writable store both blobs are written. *)
Lemma saveOfflineData_writable w :
  writable (localStorage w) = true →
  saveOfflineData w
  = (Normal tt,
     set_items
       (<["safestep_sync_queue" :=
            JSON_stringify (queue_to_json (mgr w))]>
          (<["safestep_offline_data" :=
               JSON_stringify (offlineData_to_json (offlineData (mgr w)))]>
             (items (localStorage w)))) w).
Proof.
  intros Hw. unfold saveOfflineData, localStorage_setItem. cbn.
  rewrite Hw. cbn. rewrite Hw. done.
Qed.

(** *** The cache *)

Lemma trim_length l : (length l ≤ 101 → length (trim l) ≤ 100)%nat.
Proof.
  intros Hl. unfold trim. destruct (Nat.ltb_spec 100 (length l)).
  - rewrite length_drop. lia.
  - lia.
Qed.

Lemma trim_small l : (length l ≤ 100)%nat → trim l = l.
Proof.
  intros Hl. unfold trim. by destruct (Nat.ltb_spec 100 (length l)); [lia|].
Qed.

(** What [storeOfflineData] does to the category it is given. *)
Lemma storeOfflineData_category k data now w :
  k ≠ KlastSync →
  getOfflineData k (after (storeOfflineData k data now) w)
  = trim (getOfflineData k w ++ [cache_entry data now]).
Proof.
  intros Hk. unfold getOfflineData, storeOfflineData, after.
  destruct k; try done; cbn;
    match goal with
    | |- context [saveOfflineData ?w] =>
        destruct (saveOfflineData_run w) as [i ->]
    end; done.
Qed.

Lemma storeOfflineData_other k k' data now w :
  k ≠ k' → k ≠ KlastSync →
  getOfflineData k' (after (storeOfflineData k data now) w)
  = getOfflineData k' w.
Proof.
  intros Hk Hl. unfold getOfflineData, storeOfflineData, after.
  destruct k, k'; try done; cbn;
    match goal with
    | |- context [saveOfflineData ?w] =>
        destruct (saveOfflineData_run w) as [i ->]
    end; done.
Qed.

(** Storing [n] payloads into a list that never overflows just appends. *)
Lemma store_all_append k entries w :
  k ≠ KlastSync →
  (length (getOfflineData k w) + length entries ≤ 100)%nat →
  getOfflineData k (store_all k entries w)
  = getOfflineData k w ++ ((λ e, cache_entry e.1 e.2) <$> entries).
Proof.
  intros Hk. revert w. induction entries as [|e es IH]; intros w Hlen.
  - cbn. by rewrite app_nil_r.
  - change (store_all k (e :: es) w)
      with (store_all k es (after (storeOfflineData k e.1 e.2) w)).
    cbn in Hlen.
    assert (Hfit : getOfflineData k (after (storeOfflineData k e.1 e.2) w)
                   = getOfflineData k w ++ [cache_entry e.1 e.2]).
    { rewrite storeOfflineData_category by done. apply trim_small.
      rewrite length_app. cbn. lia. }
    rewrite IH, Hfit.
    + by rewrite fmap_cons, <- app_assoc.
    + rewrite Hfit, length_app. cbn. lia.
Qed.

Lemma store_all_app k es1 es2 w :
  store_all k (es1 ++ es2) w = store_all k es2 (store_all k es1 w).
Proof. unfold store_all. by rewrite fold_left_app. Qed.

(** C4.  For each of the three list categories: [storeOfflineData] keeps
    a list of at most 100 entries at most 100 entries long; an insertion
    into a list of exactly 100 entries removes the oldest entry (together
    with the 49 after it), leaving the 51 newest; and 150 insertions into
    an empty category leave exactly 100 entries, the 50 oldest gone. *)
Theorem cache_capped k w :
  k ≠ KlastSync →
  (∀ data now,
     (length (getOfflineData k w) ≤ 100)%nat →
     (length (getOfflineData k (after (storeOfflineData k data now) w))
      ≤ 100)%nat)
  ∧ (∀ data now,
       length (getOfflineData k w) = 100%nat →
       getOfflineData k (after (storeOfflineData k data now) w)
       = drop 50 (getOfflineData k w ++ [cache_entry data now]))
  ∧ (∀ entries,
       getOfflineData k w = [] →
       length entries = 150%nat →
       getOfflineData k (store_all k entries w)
       = drop 50 ((λ e, cache_entry e.1 e.2) <$> entries)
       ∧ length (getOfflineData k (store_all k entries w)) = 100%nat).
Proof.
  intros Hk. split; [|split].
  - intros data now Hlen. rewrite storeOfflineData_category by done.
    apply trim_length. rewrite length_app. cbn. lia.
  - intros data now Hlen. rewrite storeOfflineData_category by done.
    unfold trim. rewrite length_app, Hlen. done.
  - intros entries Hempty Hlen.
    assert (Hgoal : getOfflineData k (store_all k entries w)
                    = drop 50 ((λ e, cache_entry e.1 e.2) <$> entries)).
    { rewrite <- (take_drop 100 entries) at 1.
      rewrite store_all_app.
      destruct (drop 100 entries) as [|e rest] eqn:Hrest.
      { apply (f_equal length) in Hrest. rewrite length_drop in Hrest.
        cbn in Hrest. lia. }
      assert (Hr : length rest = 49%nat).
      { apply (f_equal length) in Hrest. rewrite length_drop in Hrest.
        cbn in Hrest. lia. }
      set (w1 := store_all k (take 100 entries) w).
      assert (H1 : getOfflineData k w1
                   = (λ e, cache_entry e.1 e.2) <$> take 100 entries).
      { unfold w1. rewrite store_all_append, Hempty; [done | done |].
        rewrite Hempty, length_take. cbn [length]. lia. }
      change (store_all k (e :: rest) w1)
        with (store_all k rest (after (storeOfflineData k e.1 e.2) w1)).
      set (w2 := after (storeOfflineData k e.1 e.2) w1).
      assert (H2 : getOfflineData k w2
                   = drop 50 ((λ e, cache_entry e.1 e.2)
                                <$> (take 100 entries ++ [e]))).
      { unfold w2. rewrite storeOfflineData_category, H1 by done.
        unfold trim. rewrite length_app, length_fmap, length_take.
        by rewrite Hlen, fmap_app. }
      rewrite store_all_append, H2; [|done|].
      - assert (Hsplit : (λ e, cache_entry e.1 e.2) <$> entries
                         = ((λ e, cache_entry e.1 e.2)
                              <$> (take 100 entries ++ [e]))
                           ++ ((λ e, cache_entry e.1 e.2) <$> rest)).
        { rewrite <- fmap_app, <- app_assoc. cbn [app].
          by rewrite <- Hrest, take_drop. }
        rewrite Hsplit.
        rewrite drop_app_le; [done|].
        rewrite length_fmap, length_app, length_take. cbn [length]. lia.
      - rewrite H2, length_drop, length_fmap, length_app, length_take.
        cbn [length]. lia. }
    split; [exact Hgoal|].
    rewrite Hgoal, length_drop, length_fmap. lia.
Qed.

(** *** Loading *)

Lemma omap_lookup_seq {A} (pre l : list A) :
  omap (λ r, (pre ++ l) !! r) (seq (length pre) (length l)) = l.
Proof.
  revert pre. induction l as [|x l IH]; intros pre; [done|].
  cbn. rewrite lookup_app_r, Nat.sub_diag by lia. cbn. f_equal.
  specialize (IH (pre ++ [x])).
  rewrite length_app, <- app_assoc in IH. cbn in IH.
  by rewrite Nat.add_1_r in IH.
Qed.

Lemma omap_lookup_seq0 {A} (l : list A) :
  omap (λ r, l !! r) (seq 0 (length l)) = l.
Proof. exact (omap_lookup_seq [] l). Qed.

Lemma queued_adopt fresh m st ds n disp rem :
  syncQueue m = [] →
  queued (mkWorld (adopt fresh m) st ds n disp rem) = fresh.
Proof. intros _. unfold queued, adopt. cbn. apply omap_lookup_seq. Qed.

Local Opaque saveOfflineData.

Local Ltac save_step :=
  match goal with
  | |- context [saveOfflineData ?w] =>
      let i := fresh "i" in
      destruct (saveOfflineData_run w) as [i ->]
  end.

Local Ltac use_hyps :=
  repeat match goal with
         | H : ?x = _ |- context [?x] => rewrite H
         end.

Local Ltac load_leaf := repeat (cbn; use_hyps; try save_step).

(** The ways a stored blob can look to the loader. *)
Local Ltac blob_cases k :=
  let s := fresh "s" in
  let v := fresh "v" in
  destruct (items _ !! k) as [s|] eqn:?;
    [ destruct (String.eqb s "") eqn:?;
      [ | destruct (JSON_parse s) as [v|] eqn:? ] | ].

Local Ltac blob_facts :=
  intros;
  repeat match goal with
         | H : ∃ _, _ |- _ => destruct H
         | H : _ ∧ _ |- _ => destruct H
         | H : _ ∨ _ |- _ => destruct H
         | H : String.eqb _ _ = true |- _ => apply String.eqb_eq in H
         end;
  simplify_eq; try done; try congruence.

(** What constructing a manager leaves behind, by what the store holds. *)
Lemma constructor_cases st onLine now w0 :
  let w' := after (constructor st onLine now) w0 in
  outcome (constructor st onLine now) w0 = Normal tt
  ∧ (readable st = true → offline_blob_malformed st →
       offlineData (mgr w') = empty_offlineData now)
  ∧ (readable st = true → offline_blob_unparsable st →
       syncQueue (mgr w') = [])
  ∧ (∀ q entries,
       items st !! "safestep_sync_queue" = Some q →
       JSON_parse q = Some (JArr entries) →
       (∀ a, a ∈ queued w' →
          ∃ item, item ∈ entries ∧ valid_item item = true
                  ∧ as_QueuedAction item = Some a)
       ∧ (readable st = true → q ≠ "" → ¬ offline_blob_unparsable st →
            queued w' = omap as_QueuedAction (List.filter valid_item entries))).
Proof.
  cbn zeta. unfold constructor, loadOfflineData, localStorage_getItem,
    resetOfflineData, parse, outcome, after, offline_blob_malformed,
    offline_blob_unparsable.
  destruct (readable st) eqn:Hr.
  2:{ load_leaf. split; [done|]. split; [done|]. split; [done|].
      intros q entries _ _. split; [|done]. intros a Ha.
      unfold queued in Ha. cbn in Ha. by apply elem_of_nil in Ha. }
  blob_cases "safestep_offline_data";
    [ | destruct (valid_offlineData v) eqn:? | | ];
    blob_cases "safestep_sync_queue"; load_leaf.
  all: try match goal with
           | |- context [match ?v with JArr _ => _ | _ => _ end] =>
               destruct v eqn:?; load_leaf
           end.
  all: (split; [done|]).
  all: (split; [by blob_facts|]).
  all: (split; [by blob_facts|]).
  all: intros q entries Hq Hparse; simplify_eq.
  all: rewrite ?omap_lookup_seq0.
  all: split;
    [ intros a Ha; try (by apply elem_of_nil in Ha);
      apply list_elem_of_omap in Ha as (item & Hin & Hitem);
      apply list_elem_of_In, filter_In in Hin as [Hin Hvalid];
      exists item; by rewrite list_elem_of_In
    | intros _ Hne Hparsable; try done;
      try match goal with
          | E : String.eqb ?q "" = true, N : ?q ≠ "" |- _ =>
              by apply String.eqb_eq in E
          end;
      try (exfalso; apply Hparsable; eexists; split; [done|];
           split; [by apply String.eqb_neq|done]) ].
Qed.

Local Transparent saveOfflineData.

(** A store that refuses writes is left as it is. *)
Lemma saveOfflineData_unwritable w :
  writable (localStorage w) = false → saveOfflineData w = (Normal tt, w).
Proof.
  intros Hw. unfold saveOfflineData, localStorage_setItem. cbn.
  by rewrite Hw.
Qed.

Local Opaque saveOfflineData.

(** What [resetOfflineData] writes to a writable store. *)
Lemma resetOfflineData_run now w :
  writable (localStorage w) = true →
  resetOfflineData now w
  = (Normal tt,
     mkWorld (set_syncQueue [] (set_offlineData (empty_offlineData now)
                                                 (mgr w)))
       (mkStorage
          (<["safestep_sync_queue" := JSON_stringify (JArr [])]>
             (<["safestep_offline_data" :=
                  JSON_stringify
                    (offlineData_to_json (empty_offlineData now))]>
                (items (localStorage w))))
          (readable (localStorage w)) true)
       (drains w) (nextTag w) (dispatched w) (remote w)).
Proof.
  intros Hw. unfold resetOfflineData. cbn.
  rewrite saveOfflineData_writable by done. unfold set_items. cbn.
  by rewrite Hw.
Qed.




(** *** Enqueue, then restart *)

Lemma action_json_valid a : valid_item (action_to_json a) = true.
Proof. destruct a as [i t [d|] ts rc]; reflexivity. Qed.

Lemma action_json_roundtrip a : as_QueuedAction (action_to_json a) = Some a.
Proof. destruct a as [i t [d|] ts rc]; reflexivity. Qed.

Lemma load_queue_json l :
  omap as_QueuedAction (List.filter valid_item (action_to_json <$> l)) = l.
Proof.
  induction l as [|a l IH]; [done|].
  rewrite fmap_cons. cbn [List.filter]. rewrite action_json_valid.
  cbn [omap list_omap]. rewrite action_json_roundtrip.
  fold (@omap list _ _ _ as_QueuedAction). by rewrite IH.
Qed.

Lemma queue_to_json_queued m :
  queue_to_json m
  = JArr (action_to_json <$> omap (λ r, heap m !! r) (syncQueue m)).
Proof.
  unfold queue_to_json. f_equal.
  induction (syncQueue m) as [|r q IH]; [done|].
  cbn. destruct (heap m !! r); cbn; by rewrite IH.
Qed.

Lemma omap_lookup_app {A} (h : list A) (x : A) (q : list ref) :
  (∀ r, r ∈ q → (r < length h)%nat) →
  omap (λ r, (h ++ [x]) !! r) q = omap (λ r, h !! r) q.
Proof.
  intros Hq. apply list_omap_ext, Forall2_same_length_lookup.
  split; [done|]. intros i r r' Hr Hr'. simplify_eq.
  apply lookup_app_l, Hq. by eapply list_elem_of_lookup_2.
Qed.

(** What [queueAction] leaves in memory and in a writable store. *)
Lemma queueAction_run t data now rnd w :
  wf_queue w →
  writable (localStorage w) = true →
  let a := new_action t data now rnd in
  let w1 := after (queueAction t data now rnd) w in
  outcome (queueAction t data now rnd) w = Normal (id a)
  ∧ queued w1 = queued w ++ [a]
  ∧ offlineData (mgr w1) = offlineData (mgr w)
  ∧ readable (localStorage w1) = readable (localStorage w)
  ∧ items (localStorage w1)
    = <["safestep_sync_queue" :=
          JSON_stringify (JArr (action_to_json <$> (queued w ++ [a])))]>
        (<["safestep_offline_data" :=
             JSON_stringify (offlineData_to_json (offlineData (mgr w)))]>
           (items (localStorage w))).
Proof.
  intros Hwf Hw. cbn zeta. unfold queueAction, outcome, after. cbn.
  rewrite saveOfflineData_writable by done. cbn.
  rewrite queue_to_json_queued. cbn.
  assert (Hq : omap (λ r, (heap (mgr w) ++ [new_action t data now rnd]) !! r)
                 (syncQueue (mgr w) ++ [length (heap (mgr w))])
               = queued w ++ [new_action t data now rnd]).
  { unfold queued. rewrite omap_app. cbn.
    rewrite lookup_app_r, Nat.sub_diag by lia. cbn.
    by rewrite omap_lookup_app. }
  rewrite Hq. unfold syncWhenOnline, set_items. cbn.
  assert (Hlen : (length (syncQueue (mgr w) ++ [length (heap (mgr w))])
                  =? 0)%nat = false).
  { apply Nat.eqb_neq. rewrite length_app. cbn. lia. }
  destruct (isOnline (mgr w)) eqn:Hon; cbn;
    rewrite ?Hon, ?Hlen, ?orb_false_r; cbn;
    [destruct (syncInProgress (mgr w)) eqn:Hs; cbn|];
    repeat split; try done; apply Hq.
Qed.

(** With a store that refuses writes the action is queued in memory
    only. *)
Lemma queueAction_refused t payload now rnd w :
  writable (localStorage w) = false →
  localStorage (after (queueAction t payload now rnd) w) = localStorage w.
Proof.
  intros Hw. unfold queueAction, after. cbn.
  rewrite saveOfflineData_unwritable by done. cbn.
  unfold syncWhenOnline. cbn.
  destruct (isOnline (mgr w)) eqn:Hon; cbn; [|done].
  rewrite Hon. cbn.
  by destruct (syncInProgress (mgr w)
               || (length (syncQueue (mgr w) ++ [length (heap (mgr w))])
                   =? 0)%nat).
Qed.

(** C7, amended.  For every action kind, [queueAction] appends to the
    queue a new action of that kind with the payload given, the time of
    the call and [retryCount = 0], and returns its id.  When the store
    accepts the write it has, before it returns, written the whole queue
    to it; if the platform's [JSON] reads back what it wrote (and rejects
    the empty string), a manager constructed afterwards from that store
    holds the same queue: every action, the new one last, with its
    [retryCount] unchanged.  When the store refuses the write
    [queueAction] returns all the same and the store is left as it was. *)
Theorem enqueue_survives_restart t payload now rnd w onLine' now' w0 :
  let a := new_action t payload now rnd in
  let w1 := after (queueAction t payload now rnd) w in
  let w2 := after (constructor (localStorage w1) onLine' now') w0 in
  wf_queue w →
  readable (localStorage w) = true →
  JSON_parse "" = None →
  JSON_parse (JSON_stringify (offlineData_to_json (offlineData (mgr w1))))
    = Some (offlineData_to_json (offlineData (mgr w1))) →
  JSON_parse (JSON_stringify (queue_to_json (mgr w1)))
    = Some (queue_to_json (mgr w1)) →
  (outcome (queueAction t payload now rnd) w = Normal (id a)
   ∧ type a = type_name t ∧ data a = payload
   ∧ timestamp a = now ∧ retryCount a = 0
   ∧ heap (mgr w1) = heap (mgr w) ++ [a]
   ∧ syncQueue (mgr w1) = syncQueue (mgr w) ++ [length (heap (mgr w))]
   ∧ queued w1 = queued w ++ [a])
  ∧ (writable (localStorage w) = true →
       items (localStorage w1) !! "safestep_sync_queue"
       = Some (JSON_stringify (queue_to_json (mgr w1)))
       ∧ queued w2 = queued w ++ [a]
       ∧ last (queued w2) = Some a)
  ∧ (writable (localStorage w) = false →
       localStorage w1 = localStorage w).
Proof.
  intros a w1 w2 Hwf Hr Hempty Hdata Hqueue.
  assert (Hmem : heap (mgr w1) = heap (mgr w) ++ [a]
                 ∧ syncQueue (mgr w1)
                   = syncQueue (mgr w) ++ [length (heap (mgr w))]
                 ∧ outcome (queueAction t payload now rnd) w
                   = Normal (id a)).
  { unfold w1, queueAction, after, outcome. cbn.
    destruct (saveOfflineData_run
                (mkWorld
                   (set_syncQueue
                      (syncQueue (mgr w) ++ [length (heap (mgr w))])
                      (set_heap (heap (mgr w) ++ [a]) (mgr w)))
                   (localStorage w) (drains w) (nextTag w) (dispatched w)
                   (remote w))) as [i Hi].
    unfold a in Hi. rewrite Hi. cbn. unfold syncWhenOnline. cbn.
    destruct (isOnline (mgr w)) eqn:Hon; cbn; [|done].
    rewrite Hon. cbn.
    by destruct (syncInProgress (mgr w)
                 || (length (syncQueue (mgr w) ++ [length (heap (mgr w))])
                     =? 0)%nat). }
  destruct Hmem as (Hheap & Hsq & Hout).
  assert (Hq : queued w1 = queued w ++ [a]).
  { unfold queued. rewrite Hheap, Hsq, omap_app. cbn.
    rewrite lookup_app_r, Nat.sub_diag by lia. cbn.
    by rewrite omap_lookup_app. }
  split; [done|]. split; [|by apply queueAction_refused].
  intros Hw.
  destruct (queueAction_run t payload now rnd w Hwf Hw)
    as (_ & _ & Hod & Hrd & Hitems).
  fold a w1 in Hod, Hrd, Hitems.
  assert (Hjson : queue_to_json (mgr w1)
                  = JArr (action_to_json <$> queued w1)).
  { apply queue_to_json_queued. }
  assert (Hstored : items (localStorage w1) !! "safestep_sync_queue"
                    = Some (JSON_stringify (queue_to_json (mgr w1)))).
  { by rewrite Hitems, lookup_insert_eq, Hjson, Hq. }
  assert (Hrestart : queued w2 = queued w1).
  { destruct (constructor_cases (localStorage w1) onLine' now' w0)
      as (_ & _ & _ & Hload).
    assert (Hparsed : JSON_parse (JSON_stringify (queue_to_json (mgr w1)))
                      = Some (JArr (action_to_json <$> queued w1)))
      by (by rewrite Hqueue, Hjson).
    destruct (Hload _ _ Hstored Hparsed) as [_ Hexact].
    fold w2 in Hexact. rewrite Hexact, ?load_queue_json; try done.
    - congruence.
    - intros Hnil. rewrite Hnil in Hqueue. congruence.
    - intros (s & Hs & _ & Hbad).
      rewrite Hitems, lookup_insert_ne, lookup_insert_eq in Hs by done.
      simplify_eq. rewrite <- Hod in Hbad. congruence. }
  split; [done|]. rewrite Hrestart, Hq. split; [done|].
  by rewrite last_snoc.
Qed.

(** *** One suspended drain resumes *)

Local Opaque saveOfflineData syncAction.
Local Arguments Nat.ltb : simpl never.
Local Arguments Nat.eqb : simpl never.
Local Arguments lookup : simpl never.
Local Arguments alter : simpl never.
Local Arguments insert : simpl never.

Lemma syncAction_normal env a l : ∃ b, (syncAction env a l).1 = Normal b.
Proof.
  Local Transparent syncAction.
  unfold syncAction. cbn.
  match goal with |- context [let (_, _) := ?x in _] => destruct x as [[b|e] l'] end;
    cbn; eauto.
  Local Opaque syncAction.
Qed.

(** The suspended drain is not at its last action: it moves on. *)
Lemma resume_continue w d r a env now :
  drains w = [d] →
  actionsToSync d !! cursor d = Some r →
  heap (mgr w) !! r = Some a →
  (S (cursor d) < length (actionsToSync d))%nat →
  let p := settle_pure (heap (mgr w), successfulSyncs d, remote w) (r, env) in
  step w (Settle 0 env now)
  = mkWorld (set_heap p.1.1 (mgr w)) (localStorage w)
            [with_cursor (S (cursor d)) p.1.2 d] (nextTag w)
            (dispatched w ++ [(tag d, r)]) p.2.
Proof.
  intros Hd Hr Ha Hlt. unfold step, after, handle, resume, settle_pure.
  destruct w as [m st ds nt disp rem].
  cbn [drains mgr remote nextTag dispatched localStorage] in *. subst ds.
  cbn. change ([d] !! 0%nat) with (Some d). cbn. rewrite Hr, Ha. cbn.
  destruct (syncAction_normal env a rem) as [b Hb].
  destruct (syncAction env a rem) as [res rem'] eqn:Hsent.
  cbn in Hb. subst res. cbn.
  unfold loop_body, count_retry, action_id. cbn.
  destruct b; cbn.
  - rewrite Ha. cbn.
    apply Nat.ltb_lt in Hlt. rewrite Hlt. cbn. by destruct m.
  - rewrite list_lookup_alter_eq, Ha. cbn.
    apply Nat.ltb_lt in Hlt.
    destruct (maxRetries <=? retryCount a + 1); cbn; rewrite Hlt; cbn;
      by destruct m.
Qed.

(** The suspended drain is at its last action: it runs to its end. *)
Lemma resume_finish w d r a env now :
  drains w = [d] →
  actionsToSync d !! cursor d = Some r →
  heap (mgr w) !! r = Some a →
  (length (actionsToSync d) ≤ S (cursor d))%nat →
  let p := settle_pure (heap (mgr w), successfulSyncs d, remote w) (r, env) in
  let m' := set_heap p.1.1 (mgr w) in
  ∃ i,
    step w (Settle 0 env now)
    = mkWorld
        (mkManager (isOnline m') (heap m')
           (filter (λ r, action_id m' r ∉ p.1.2) (syncQueue m'))
           (set_lastSync (Some (JNum now)) (offlineData m')) false)
        (mkStorage i (readable (localStorage w)) (writable (localStorage w)))
        [] (nextTag w) (dispatched w ++ [(tag d, r)]) p.2.
Proof.
  intros Hd Hr Ha Hge. unfold step, after, handle, resume, settle_pure.
  destruct w as [m st ds nt disp rem].
  cbn [drains mgr remote nextTag dispatched localStorage] in *. subst ds.
  cbn. change ([d] !! 0%nat) with (Some d). cbn. rewrite Hr, Ha. cbn.
  destruct (syncAction_normal env a rem) as [b Hb].
  destruct (syncAction env a rem) as [res rem'] eqn:Hsent.
  cbn in Hb. subst res. cbn.
  unfold loop_body, count_retry, action_id, finish. cbn.
  assert (Hnlt : (S (cursor d) <? length (actionsToSync d))%nat = false)
    by (apply Nat.ltb_ge; lia).
  destruct b; cbn.
  - rewrite Ha. cbn. rewrite Hnlt. cbn.
    match goal with
    | |- context [saveOfflineData ?w] =>
        destruct (saveOfflineData_run w) as [i ->]
    end.
    cbn. exists i. by destruct m.
  - rewrite list_lookup_alter_eq, Ha. cbn.
    destruct (maxRetries <=? retryCount a + 1); cbn; rewrite Hnlt; cbn;
      match goal with
      | |- context [saveOfflineData ?w] =>
          destruct (saveOfflineData_run w) as [i ->]
      end; cbn; exists i; by destruct m.
Qed.

Lemma settle_pure_length st x :
  length (settle_pure st x).1.1 = length st.1.1.
Proof.
  unfold settle_pure. destruct (st.1.1 !! x.1); [|done].
  destruct (syncAction x.2 q st.2).1 as [[]|]; cbn;
    by rewrite ?length_alter.
Qed.

(** *** A whole drain with nothing in between *)

Lemma run_cons e es w : run (e :: es) w = run es (step w e).
Proof. done. Qed.

Lemma run_app es1 es2 w : run (es1 ++ es2) w = run es2 (run es1 w).
Proof. unfold run. apply fold_left_app. Qed.

Lemma settle_all_cons env envs now :
  settle_all (env :: envs) now = Settle 0 env now :: settle_all envs now.
Proof. done. Qed.

(** From a drain suspended at position [cursor d], the remaining awaits
    settling one after the other. *)
Lemma drain_loop now envs : ∀ w d,
  drains w = [d] →
  (cursor d < length (actionsToSync d))%nat →
  length envs = (length (actionsToSync d) - cursor d)%nat →
  (∀ r, r ∈ actionsToSync d → (r < length (heap (mgr w)))%nat) →
  let p := drain_pure (heap (mgr w)) (successfulSyncs d) (remote w)
             (zip (drop (cursor d) (actionsToSync d)) envs) in
  let m' := set_heap p.1.1 (mgr w) in
  ∃ i,
    run (settle_all envs now) w
    = mkWorld
        (mkManager (isOnline m') (heap m')
           (filter (λ r, action_id m' r ∉ p.1.2) (syncQueue m'))
           (set_lastSync (Some (JNum now)) (offlineData m')) false)
        (mkStorage i (readable (localStorage w)) (writable (localStorage w)))
        [] (nextTag w)
        (dispatched w
           ++ (pair (tag d) <$> drop (cursor d) (actionsToSync d)))
        p.2.
Proof.
  induction envs as [|env envs IH]; intros w d Hd Hc Hlen Hvalid.
  { cbn in Hlen. lia. }
  destruct (lookup_lt_is_Some_2 (actionsToSync d) (cursor d) Hc) as [r Hr].
  assert (Hin : r ∈ actionsToSync d) by (by eapply list_elem_of_lookup_2).
  destruct (lookup_lt_is_Some_2 _ _ (Hvalid r Hin)) as [a Ha].
  rewrite (drop_S _ _ _ Hr). cbn [zip zip_with fmap list_fmap].
  unfold drain_pure. cbn [fold_left]. rewrite settle_all_cons, run_cons.
  set (p1 := settle_pure (heap (mgr w), successfulSyncs d, remote w) (r, env)).
  destruct (decide (S (cursor d) < length (actionsToSync d))%nat) as [Hlt|Hge].
  - rewrite (resume_continue w d r a env now Hd Hr Ha Hlt). fold p1.
    edestruct (IH (mkWorld (set_heap p1.1.1 (mgr w)) (localStorage w)
                   [with_cursor (S (cursor d)) p1.1.2 d] (nextTag w)
                   (dispatched w ++ [(tag d, r)]) p1.2)
                (with_cursor (S (cursor d)) p1.1.2 d)) as [i Hi];
      [done | done | cbn in *; lia | | ].
    { intros r' Hr'. cbn. unfold p1. rewrite settle_pure_length. cbn.
      by apply Hvalid. }
    exists i. rewrite Hi. cbn. unfold drain_pure.
    rewrite <- app_assoc. cbn.
    replace (p1.1.1, p1.1.2, p1.2) with p1 by (by destruct p1 as [[??]?]).
    done.
  - assert (envs = []) as ->.
    { cbn in Hlen. destruct envs; [done|]. cbn in Hlen. lia. }
    destruct (resume_finish w d r a env now Hd Hr Ha) as [i Hi]; [lia|].
    exists i. change (run (settle_all [] now)) with (λ w : World, w).
    cbn beta. rewrite Hi. fold p1.
    rewrite (drop_ge _ (S (cursor d))) by lia. cbn. done.
Qed.

(** [syncWhenOnline()] up to its first await. *)
Lemma syncWhenOnline_run w :
  syncWhenOnline w
  = (Normal tt,
     if negb (isOnline (mgr w)) || syncInProgress (mgr w)
        || (length (syncQueue (mgr w)) =? 0)%nat
     then w
     else mkWorld (set_syncInProgress true (mgr w)) (localStorage w)
            (drains w ++ [mkDrain (nextTag w) (syncQueue (mgr w)) 0 []])
            (S (nextTag w)) (dispatched w) (remote w)).
Proof.
  unfold syncWhenOnline. cbn.
  by destruct (negb (isOnline (mgr w)) || syncInProgress (mgr w)
               || (length (syncQueue (mgr w)) =? 0)%nat).
Qed.

Lemma step_Online w : step w Online = step (go_online w) SyncWhenOnline.
Proof. done. Qed.

(** A drain started on an idle, online manager and run to its end. *)
Lemma drain_run now envs w :
  isOnline (mgr w) = true →
  syncInProgress (mgr w) = false →
  drains w = [] →
  wf_queue w →
  syncQueue (mgr w) ≠ [] →
  length envs = length (syncQueue (mgr w)) →
  ∃ i, run (SyncWhenOnline :: settle_all envs now) w
       = drained w now
           (drain_pure (heap (mgr w)) [] (remote w)
                       (zip (syncQueue (mgr w)) envs)) i.
Proof.
  intros Hon Hsip Hd Hwf Hne Hlen. rewrite run_cons.
  unfold step, after, handle. rewrite syncWhenOnline_run. cbn [snd].
  rewrite Hon, Hsip. cbn [negb orb].
  destruct (syncQueue (mgr w)) as [|r0 q] eqn:Hq; [done|].
  change (length (r0 :: q) =? 0)%nat with false. cbn [orb]. rewrite Hd.
  cbn [app].
  edestruct (drain_loop now envs
               (mkWorld (set_syncInProgress true (mgr w)) (localStorage w)
                  [mkDrain (nextTag w) (r0 :: q) 0 []]
                  (S (nextTag w)) (dispatched w) (remote w))
               (mkDrain (nextTag w) (r0 :: q) 0 [])) as [i Hi];
    [done | cbn; lia | cbn in *; lia | | ].
  { intros r Hr. cbn. apply Hwf. by rewrite Hq. }
  exists i. rewrite Hi. unfold drained. cbn. rewrite Hq, Hon. done.
Qed.

(** *** Dispatch against a remote store that accepts everything *)

Local Transparent syncAction.

Lemma syncAction_success env a l :
  always_succeeds env → dispatchable a = true →
  syncAction env a l = (Normal true, l ++ remote_writes a).
Proof.
  intros [Himp Hw] Hd. unfold dispatchable, has_fields in Hd.
  unfold syncAction, remote_write, get_prop, remote_writes, field.
  cbn. rewrite Himp. cbn.
  destruct (String.eqb (type a) "location"); cbn in *.
  { destruct (data a) as [[]|]; try done; cbn; rewrite !Hw; cbn;
      rewrite ?Hw; cbn; by rewrite <- app_assoc. }
  destruct (String.eqb (type a) "message"); cbn in *.
  { destruct (data a) as [[]|]; try done; cbn; rewrite !Hw; done. }
  destruct (String.eqb (type a) "sos"); cbn in *.
  { rewrite Hw. done. }
  destruct (String.eqb (type a) "status"); cbn in *; [|done].
  destruct (data a) as [[]|]; try done; cbn; rewrite !Hw; done.
Qed.

(** [syncAction] reads neither [retryCount] nor the identity of the object. *)
Lemma syncAction_bump env a l : syncAction env (bump a) l = syncAction env a l.
Proof. done. Qed.

Local Opaque syncAction.

Lemma settle_pure_success h ss l r env a :
  h !! r = Some a →
  always_succeeds env → dispatchable a = true →
  settle_pure (h, ss, l) (r, env) = (h, ss ++ [id a], l ++ remote_writes a).
Proof.
  intros Ha Henv Hd. unfold settle_pure. cbn. rewrite Ha.
  by rewrite (syncAction_success env a l Henv Hd).
Qed.

(** With a succeeding remote store and dispatchable actions the loop marks
    every action of the snapshot and touches no retry counter. *)
Lemma drain_pure_success q : ∀ envs h ss l,
  length envs = length q →
  Forall always_succeeds envs →
  (∀ r, r ∈ q → ∃ a, h !! r = Some a ∧ dispatchable a = true) →
  drain_pure h ss l (zip q envs)
  = (h, ss ++ omap (λ r, id <$> h !! r) q,
     l ++ concat (remote_writes <$> omap (λ r, h !! r) q)).
Proof.
  induction q as [|r q IH]; intros envs h ss l Hlen Henvs Hq.
  - cbn. by rewrite !app_nil_r.
  - destruct envs as [|env envs]; [done|].
    apply Forall_cons in Henvs as [Henv Henvs].
    destruct (Hq r) as (a & Ha & Hd); [by left|].
    unfold drain_pure. cbn [zip zip_with fold_left].
    rewrite (settle_pure_success h ss l r env a Ha Henv Hd).
    pose proof (IH envs h (ss ++ [id a]) (l ++ remote_writes a)) as Hl'.
    unfold drain_pure in Hl'. rewrite Hl'.
    + cbn. rewrite Ha. cbn. by rewrite <- !app_assoc.
    + cbn in Hlen. lia.
    + done.
    + intros r' Hr'. apply Hq. by right.
Qed.

Lemma filter_none {A} (P : A → Prop) `{∀ x, Decision (P x)} (l : list A) :
  (∀ x, x ∈ l → ¬ P x) → filter P l = [].
Proof.
  induction l as [|x l IH]; intros Hl; [done|].
  rewrite filter_cons_False by (apply Hl; by left).
  apply IH. intros y Hy. apply Hl. by right.
Qed.

Lemma queued_lookup w r :
  wf_queue w → r ∈ syncQueue (mgr w) →
  ∃ a, heap (mgr w) !! r = Some a ∧ a ∈ queued w.
Proof.
  intros Hwf Hr. destruct (lookup_lt_is_Some_2 _ _ (Hwf r Hr)) as [a Ha].
  exists a. split; [done|]. unfold queued. apply list_elem_of_omap. eauto.
Qed.

(** C9, amended.  With actions queued and the manager offline, the
    [online] event marks the manager online.  If no drain is in flight it
    starts one over the whole queue; once its dispatches have settled
    against a remote store that accepts every write, the queue is empty,
    [getSyncStatus] reports 0 queued actions and no drain is in progress
    (the queued actions being of the four kinds, with readable payloads).
    If a drain started before the connection was lost is still in flight,
    the event starts none: nothing but the online flag changes. *)
Theorem online_transition_drains w envs now :
  isOnline (mgr w) = false →
  wf_queue w →
  syncQueue (mgr w) ≠ [] →
  let w1 := step w Online in
  let w2 := run (settle_all envs now) w1 in
  isOnline (mgr w1) = true
  ∧ (syncInProgress (mgr w) = false → drains w = [] →
     (∀ a, a ∈ queued w → dispatchable a = true) →
     length envs = length (syncQueue (mgr w)) →
     Forall always_succeeds envs →
       (syncInProgress (mgr w1) = true
        ∧ drains w1 = [mkDrain (nextTag w) (syncQueue (mgr w)) 0 []])
       ∧ syncQueue (mgr w2) = []
       ∧ queuedActions (getSyncStatus w2) = 0%nat
       ∧ status_syncInProgress (getSyncStatus w2) = false
       ∧ drains w2 = [])
  ∧ (syncInProgress (mgr w) = true →
       w1 = go_online w
       ∧ drains w1 = drains w
       ∧ nextTag w1 = nextTag w
       ∧ syncQueue (mgr w1) = syncQueue (mgr w)).
Proof.
  intros Hoff Hwf Hne w1 w2.
  assert (Hon : isOnline (mgr w1) = true).
  { unfold w1. rewrite step_Online. unfold step, after, handle.
    rewrite syncWhenOnline_run. cbn [snd]. by case_match. }
  split; [done|]. split.
  - intros Hsip Hd Hdisp Hlen Henvs.
    assert (Hw1 : w1 = mkWorld (set_syncInProgress true
                                  (set_isOnline true (mgr w)))
                         (localStorage w)
                         [mkDrain (nextTag w) (syncQueue (mgr w)) 0 []]
                         (S (nextTag w)) (dispatched w) (remote w)).
    { unfold w1. rewrite step_Online. unfold step, after, handle.
      rewrite syncWhenOnline_run. cbn. rewrite Hsip, Hd. cbn.
      destruct (syncQueue (mgr w)); [done|]. done. }
    split; [by rewrite Hw1|].
    assert (Hrun : w2 = run (SyncWhenOnline :: settle_all envs now)
                          (go_online w)).
    { unfold w2, w1. by rewrite run_cons, step_Online. }
    destruct (drain_run now envs (go_online w)) as [i Hi]; try done.
    rewrite <- Hrun in Hi.
    pose proof (drain_pure_success (syncQueue (mgr w)) envs (heap (mgr w)) []
                  (remote w) Hlen Henvs) as Hp.
    lapply Hp; [clear Hp; intros Hp|].
    2:{ intros r Hr. destruct (queued_lookup w r Hwf Hr) as (a & Ha & Hin).
        eauto. }
    change (drain_pure _ _ _ _)
      with (drain_pure (heap (mgr w)) [] (remote w)
              (zip (syncQueue (mgr w)) envs)) in Hi.
    rewrite Hp in Hi.
    assert (Hq : syncQueue (mgr w2) = []).
    { rewrite Hi. cbn. apply filter_none. intros r Hr Hnot. apply Hnot.
      unfold action_id. cbn.
      destruct (queued_lookup w r Hwf Hr) as (a & Ha & _). rewrite Ha.
      apply list_elem_of_omap. exists r. by rewrite Ha. }
    unfold getSyncStatus. cbn. rewrite Hq. by rewrite Hi.
  - intros Hsip.
    assert (Hw1 : w1 = go_online w).
    { unfold w1. rewrite step_Online. unfold step, after, handle.
      rewrite syncWhenOnline_run. cbn [snd].
      replace (syncInProgress (mgr (go_online w))) with true by done.
      by rewrite orb_true_r. }
    by rewrite Hw1.
Qed.

(** *** Enqueueing *)

Local Opaque syncWhenOnline.

Lemma queueAction_step t data now rnd w :
  ∃ i, step w (QueueAction t data now rnd)
       = let enq := enqueued w (new_action t data now rnd) i in
         if isOnline (mgr w) then (syncWhenOnline enq).2 else enq.
Proof.
  unfold step, after, handle, queueAction. cbn.
  match goal with
  | |- context [saveOfflineData ?w] =>
      destruct (saveOfflineData_run w) as [i ->]
  end.
  exists i. cbn. destruct (isOnline (mgr w)) eqn:Hon; cbn.
  - unfold enqueued, set_items. by rewrite !syncWhenOnline_run.
  - done.
Qed.

Lemma queued_enqueued w a i :
  wf_queue w → queued (enqueued w a i) = queued w ++ [a].
Proof.
  intros Hwf. unfold queued, enqueued. cbn. rewrite omap_app. cbn.
  rewrite lookup_app_r, Nat.sub_diag by lia. cbn.
  by rewrite omap_lookup_app.
Qed.

Lemma wf_enqueued w a i : wf_queue w → wf_queue (enqueued w a i).
Proof.
  intros Hwf r. unfold enqueued. cbn. rewrite length_app. cbn.
  intros [Hr| ->%list_elem_of_singleton]%elem_of_app; [|lia].
  specialize (Hwf r Hr). lia.
Qed.

(** The dispatches of a drain whose tag was unused when it started. *)
Lemma dispatched_by_fresh (l : list (nat * nat)) (t : nat) (q : list nat) :
  (∀ p, p ∈ l → (p.1 < t)%nat) →
  snd <$> filter (λ p, p.1 = t) (l ++ (pair t <$> q)) = q.
Proof.
  intros Hl. rewrite filter_app, fmap_app.
  rewrite (filter_none _ l), app_nil_l.
  - induction q as [|r q IH]; [done|].
    rewrite fmap_cons, filter_cons_True by done. cbn. by rewrite IH.
  - intros p Hp. specialize (Hl p Hp). lia.
Qed.

(** C5.  Actions A, B, C enqueued in that order while offline are appended
    to the queue in that order, whatever their kinds.  The drain the next
    [online] event starts calls [syncAction] on the queued actions in queue
    order: the older ones first, then A, then B, then C.  Against a remote
    store that accepts every write (the actions being dispatchable) the
    store receives their writes in that same order. *)
Theorem fifo_dispatch w tA dA nA rA tB dB nB rB tC dC nC rC envs now :
  isOnline (mgr w) = false →
  syncInProgress (mgr w) = false →
  drains w = [] →
  wf_queue w →
  (∀ p, p ∈ dispatched w → (p.1 < nextTag w)%nat) →
  let A := new_action tA dA nA rA in
  let B := new_action tB dB nB rB in
  let C := new_action tC dC nC rC in
  let w3 := run [QueueAction tA dA nA rA; QueueAction tB dB nB rB;
                 QueueAction tC dC nC rC] w in
  let w4 := run (Online :: settle_all envs now) w3 in
  length envs = length (syncQueue (mgr w3)) →
  queued w3 = queued w ++ [A; B; C]
  ∧ omap (λ r, heap (mgr w3) !! r) (dispatched_by (nextTag w3) w4)
    = queued w ++ [A; B; C]
  ∧ (Forall always_succeeds envs →
     (∀ a, a ∈ queued w ++ [A; B; C] → dispatchable a = true) →
     remote w4
     = remote w ++ concat (remote_writes <$> (queued w ++ [A; B; C]))).
Proof.
  intros Hoff Hsip Hd Hwf Htags A B C w3 w4 Hlen.
  destruct (queueAction_step tA dA nA rA w) as [i1 H1].
  rewrite Hoff in H1. cbn zeta in H1. fold A in H1.
  set (w1 := enqueued w A i1) in *.
  destruct (queueAction_step tB dB nB rB w1) as [i2 H2].
  change (isOnline (mgr w1)) with (isOnline (mgr w)) in H2.
  rewrite Hoff in H2. cbn zeta in H2. fold B in H2.
  set (w2 := enqueued w1 B i2) in *.
  destruct (queueAction_step tC dC nC rC w2) as [i3 H3].
  change (isOnline (mgr w2)) with (isOnline (mgr w)) in H3.
  rewrite Hoff in H3. cbn zeta in H3. fold C in H3.
  assert (Hw3 : w3 = enqueued w2 C i3).
  { unfold w3. by rewrite !run_cons, H1, H2, H3. }
  assert (Hwf3 : wf_queue w3).
  { rewrite Hw3. by repeat apply wf_enqueued. }
  assert (Hq3 : queued w3 = queued w ++ [A; B; C]).
  { rewrite Hw3. unfold w2, w1.
    rewrite !queued_enqueued; try by repeat apply wf_enqueued.
    by rewrite <- !app_assoc. }
  assert (Hne : syncQueue (mgr w3) ≠ []).
  { rewrite Hw3. cbn. intros Hnil.
    apply (f_equal length) in Hnil. rewrite length_app in Hnil.
    cbn in Hnil. lia. }
  assert (Hw4 : w4 = run (SyncWhenOnline :: settle_all envs now)
                         (go_online w3)).
  { unfold w4. by rewrite !run_cons, step_Online. }
  assert (Hsame : isOnline (mgr w3) = false ∧ syncInProgress (mgr w3) = false
                  ∧ drains w3 = [] ∧ dispatched w3 = dispatched w
                  ∧ nextTag w3 = nextTag w ∧ remote w3 = remote w).
  { by rewrite Hw3. }
  destruct Hsame as (Hoff3 & Hsip3 & Hd3 & Hdisp3 & Hnt3 & Hrem3).
  clearbody w3 w4. clear H1 H2 H3 Hw3.
  destruct (drain_run now envs (go_online w3)) as [i Hi]; try done.
  rewrite <- Hw4 in Hi.
  split; [done|]. split.
  - unfold dispatched_by. rewrite Hi. unfold drained, go_online.
    cbn [dispatched nextTag mgr syncQueue set_isOnline].
    rewrite dispatched_by_fresh; [exact Hq3|].
    intros p Hp. rewrite Hnt3. rewrite Hdisp3 in Hp. by apply Htags.
  - intros Henvs Hdisp. rewrite Hi. unfold drained, go_online.
    cbn [remote mgr heap syncQueue set_isOnline].
    rewrite drain_pure_success; try done.
    + cbn. fold (queued w3). by rewrite Hq3, Hrem3.
    + intros r Hr. destruct (queued_lookup w3 r Hwf3 Hr) as (a & Ha & Hin).
      exists a. split; [done|]. apply Hdisp. by rewrite <- Hq3.
Qed.

(** *** An action whose dispatch always fails *)

Lemma settle_pure_ids st x r :
  id <$> ((settle_pure st x).1.1 !! r) = id <$> (st.1.1 !! r).
Proof.
  destruct st as [[h ss] l], x as [r0 env]. unfold settle_pure. cbn [fst snd].
  destruct (h !! r0) as [a0|] eqn:Ha0; [|done].
  destruct (syncAction env a0 l).1 as [[]|]; cbn [fst snd]; try done;
    (destruct (decide (r0 = r)) as [<-|Hne];
     [by rewrite list_lookup_alter_eq, Ha0
     |by rewrite list_lookup_alter_ne]).
Qed.

(** The loop on another object leaves [r] and its id alone. *)
Lemma settle_pure_other st r0 env r s :
  r0 ≠ r →
  (∀ a0, st.1.1 !! r0 = Some a0 → id a0 ≠ s) →
  (settle_pure st (r0, env)).1.1 !! r = st.1.1 !! r
  ∧ (s ∈ (settle_pure st (r0, env)).1.2 ↔ s ∈ st.1.2).
Proof.
  intros Hne Hid. unfold settle_pure. cbn [fst snd].
  destruct (st.1.1 !! r0) as [a0|] eqn:Ha0; [|done].
  specialize (Hid a0 eq_refl).
  assert (Hss : s ∈ st.1.2 ++ [id a0] ↔ s ∈ st.1.2).
  { rewrite elem_of_app, list_elem_of_singleton. intuition congruence. }
  destruct (syncAction env a0 st.2).1 as [[]|]; cbn; try done;
    rewrite ?list_lookup_alter_ne by done;
    try (destruct (maxRetries <=? retryCount a0 + 1)); done.
Qed.

(** The loop on [r] itself, when the dispatch fails. *)
Lemma settle_pure_failed st r env a :
  st.1.1 !! r = Some a →
  (syncAction env a st.2).1 = Normal false →
  (settle_pure st (r, env)).1.1 !! r = Some (bump a)
  ∧ (settle_pure st (r, env)).1.2
    = if maxRetries <=? retryCount a + 1 then st.1.2 ++ [id a] else st.1.2.
Proof.
  intros Ha Hfail. unfold settle_pure. cbn [fst snd]. rewrite Ha, Hfail. cbn.
  by rewrite list_lookup_alter_eq, Ha.
Qed.

(** A stretch of the loop that does not meet [r]. *)
Lemma drain_pure_other q r s : ∀ envs h ss l,
  r ∉ q →
  (∀ r' a', r' ∈ q → h !! r' = Some a' → id a' ≠ s) →
  (drain_pure h ss l (zip q envs)).1.1 !! r = h !! r
  ∧ (s ∈ (drain_pure h ss l (zip q envs)).1.2 ↔ s ∈ ss).
Proof.
  induction q as [|r0 q IH]; intros envs h ss l Hr Hids; [done|].
  destruct envs as [|env envs]; [done|].
  apply not_elem_of_cons in Hr as [Hne Hr].
  unfold drain_pure. cbn [zip zip_with fold_left].
  destruct (settle_pure (h, ss, l) (r0, env)) as [[h1 ss1] l1] eqn:Hst.
  destruct (settle_pure_other (h, ss, l) r0 env r s) as [H1 H2]; [done| |].
  { intros a0 Ha0. eapply Hids; [by left|done]. }
  rewrite Hst in H1, H2. cbn in H1, H2.
  destruct (IH envs h1 ss1 l1 Hr) as [H3 H4].
  { intros r' a' Hr' Ha'.
    pose proof (settle_pure_ids (h, ss, l) (r0, env) r') as Hid.
    rewrite Hst in Hid. cbn in Hid. rewrite Ha' in Hid.
    destruct (h !! r') as [a''|] eqn:Ha''; [|done].
    cbn in Hid. injection Hid as Hid. rewrite Hid.
    eapply Hids; [by right|done]. }
  unfold drain_pure in H3, H4. rewrite H3, H4, H1, H2. done.
Qed.

(** The loop over a snapshot that holds [r] once, [r]'s dispatch failing. *)
Lemma drain_pure_target q r a : ∀ envs h ss l,
  length envs = length q →
  NoDup q → r ∈ q →
  h !! r = Some a →
  id a ∉ ss →
  only_holder h q r →
  always_fails a envs →
  (drain_pure h ss l (zip q envs)).1.1 !! r = Some (bump a)
  ∧ (id a ∈ (drain_pure h ss l (zip q envs)).1.2
     ↔ maxRetries <= retryCount a + 1).
Proof.
  induction q as [|r0 q IH]; intros envs h ss l Hlen Hnd Hr Ha Hss Hu Hfail.
  { by apply elem_of_nil in Hr. }
  destruct envs as [|env envs]; [done|].
  apply NoDup_cons in Hnd as [Hr0 Hnd].
  apply Forall_cons in Hfail as [Hf Hfail].
  unfold drain_pure. cbn [zip zip_with fold_left].
  destruct (settle_pure (h, ss, l) (r0, env)) as [[h1 ss1] l1] eqn:Hst.
  pose proof (settle_pure_ids (h, ss, l) (r0, env)) as Hids.
  rewrite Hst in Hids. cbn in Hids.
  destruct (decide (r0 = r)) as [->|Hne].
  - destruct (settle_pure_failed (h, ss, l) r env a Ha (Hf l)) as [H1 H2].
    rewrite Hst in H1, H2. cbn in H1, H2.
    destruct (drain_pure_other q r (id a) envs h1 ss1 l1 Hr0) as [H3 H4].
    { intros r' a' Hr' Ha'. specialize (Hids r'). rewrite Ha' in Hids.
      destruct (h !! r') as [a''|] eqn:Ha''; [|done].
      cbn in Hids. injection Hids as Hids. rewrite Hids.
      eapply (Hu r'); [by right | | done | done]. intros ->. done. }
    unfold drain_pure in H3, H4. rewrite H3, H4, H1, H2.
    split; [done|].
    destruct (Z.leb_spec maxRetries (retryCount a + 1)).
    + rewrite elem_of_app, list_elem_of_singleton. intuition.
    + split; [done|lia].
  - apply elem_of_cons in Hr as [?|Hr]; [done|].
    destruct (settle_pure_other (h, ss, l) r0 env r (id a) Hne) as [H1 H2].
    { intros a0 Ha0. eapply (Hu r0); [by left|done..]. }
    rewrite Hst in H1, H2. cbn in H1, H2.
    apply (IH envs h1 ss1 l1); try done.
    + cbn in Hlen. lia.
    + by rewrite H1.
    + by rewrite H2.
    + intros r' b b' Hr' Hne' Hb Hb'.
      rewrite H1, Ha in Hb. injection Hb as <-.
      pose proof (Hids r') as Hid. rewrite Hb' in Hid.
      destruct (h !! r') as [a''|] eqn:Ha''; [|done].
      cbn in Hid. injection Hid as Hid. rewrite Hid.
      eapply (Hu r'); [by right|done..].
Qed.

Lemma drain_pure_ids todo : ∀ h ss l r,
  id <$> ((drain_pure h ss l todo).1.1 !! r) = id <$> (h !! r).
Proof.
  induction todo as [|x todo IH]; intros h ss l r; [done|].
  unfold drain_pure. cbn [fold_left].
  destruct (settle_pure (h, ss, l) x) as [[h1 ss1] l1] eqn:Hst.
  pose proof (IH h1 ss1 l1 r) as Hi. unfold drain_pure in Hi. rewrite Hi.
  pose proof (settle_pure_ids (h, ss, l) x r) as Hid.
  by rewrite Hst in Hid.
Qed.

Lemma drain_pure_length todo : ∀ h ss l,
  length (drain_pure h ss l todo).1.1 = length h.
Proof.
  induction todo as [|x todo IH]; intros h ss l; [done|].
  unfold drain_pure. cbn [fold_left].
  destruct (settle_pure (h, ss, l) x) as [[h1 ss1] l1] eqn:Hst.
  pose proof (IH h1 ss1 l1) as Hi. unfold drain_pure in Hi. rewrite Hi.
  pose proof (settle_pure_length (h, ss, l) x) as Hl.
  by rewrite Hst in Hl.
Qed.

Lemma attempts_snapshot (l : list (nat * nat)) (t r : nat) (q : list nat) :
  NoDup q → r ∈ q →
  length (filter (λ p, p.2 = r) (l ++ (pair t <$> q)))
  = S (length (filter (λ p, p.2 = r) l)).
Proof.
  intros Hnd Hr. rewrite filter_app, length_app.
  assert (Hone : length (filter (λ p : nat * nat, p.2 = r) (pair t <$> q))
                 = 1%nat); [|lia].
  induction Hnd as [|r0 q Hr0 Hnd IH]; [by apply elem_of_nil in Hr|].
  rewrite fmap_cons. destruct (decide (r0 = r)) as [->|Hne].
  - rewrite filter_cons_True by done. cbn. f_equal.
    rewrite filter_none; [done|].
    intros p [r' [-> Hr']]%list_elem_of_fmap. cbn. by intros ->.
  - rewrite filter_cons_False by done. apply IH.
    by apply elem_of_cons in Hr as [?|?].
Qed.

(** One whole drain seen from an action whose dispatch fails: it is
    dispatched once, its counter goes up by one, and it stays in the queue
    exactly when the counter is still below [maxRetries]. *)
Lemma failing_drain w r a envs now :
  at_rest w →
  r ∈ syncQueue (mgr w) →
  heap (mgr w) !! r = Some a →
  only_holder (heap (mgr w)) (syncQueue (mgr w)) r →
  always_fails a envs →
  length envs = length (syncQueue (mgr w)) →
  let w' := run (SyncWhenOnline :: settle_all envs now) w in
  at_rest w'
  ∧ heap (mgr w') !! r = Some (bump a)
  ∧ (r ∈ syncQueue (mgr w') ↔ retryCount a + 1 < maxRetries)
  ∧ only_holder (heap (mgr w')) (syncQueue (mgr w')) r
  ∧ attempts r w' = S (attempts r w).
Proof.
  intros (Hon & Hsip & Hd & Hwf & Hnd) Hr Ha Hu Hfail Hlen w'.
  assert (Hne : syncQueue (mgr w) ≠ []).
  { intros Hnil. rewrite Hnil in Hr. by apply elem_of_nil in Hr. }
  destruct (drain_run now envs w Hon Hsip Hd Hwf Hne Hlen) as [i Hi].
  fold w' in Hi. clearbody w'.
  set (p := drain_pure (heap (mgr w)) [] (remote w)
              (zip (syncQueue (mgr w)) envs)) in *.
  destruct (drain_pure_target (syncQueue (mgr w)) r a envs (heap (mgr w)) []
              (remote w)) as [Hh Hss]; try done.
  { apply not_elem_of_nil. }
  fold p in Hh, Hss.
  assert (Hid : ∀ r', action_id (set_heap p.1.1 (mgr w)) r'
                      = action_id (mgr w) r').
  { intros r'. unfold action_id. cbn.
    pose proof (drain_pure_ids (zip (syncQueue (mgr w)) envs) (heap (mgr w))
                  [] (remote w) r') as Hids.
    fold p in Hids.
    destruct (p.1.1 !! r'), (heap (mgr w) !! r'); cbn in Hids; congruence. }
  subst w'. unfold drained, at_rest, wf_queue, attempts. cbn.
  split; [|split; [|split; [|split]]].
  - repeat split; try done.
    + intros r' [_ Hr']%list_elem_of_filter. unfold p.
      rewrite drain_pure_length. by apply Hwf.
    + by apply NoDup_filter.
  - done.
  - rewrite list_elem_of_filter, Hid. unfold action_id. rewrite Ha, Hss.
    split; [intros [? _]; lia | intros ?; split; [lia|done]].
  - intros r' b b' [_ Hr']%list_elem_of_filter Hne' Hb Hb'.
    rewrite Hh in Hb. injection Hb as <-. cbn.
    pose proof (drain_pure_ids (zip (syncQueue (mgr w)) envs) (heap (mgr w))
                  [] (remote w) r') as Hids.
    fold p in Hids. rewrite Hb' in Hids.
    destruct (heap (mgr w) !! r') as [b''|] eqn:Hb''; [|done].
    cbn in Hids. injection Hids as Hids. rewrite Hids. by eapply (Hu r').
  - by apply attempts_snapshot.
Qed.

Lemma always_fails_bump a envs : always_fails a envs → always_fails (bump a) envs.
Proof.
  unfold always_fails. intros Hf. eapply Forall_impl; [exact Hf|].
  intros env Hl l. by rewrite syncAction_bump.
Qed.

(** C1.  Take a queued action with [retryCount = 0] whose id no other
    queued action carries and whose dispatch fails under every remote it
    meets.  Three successive drains call [syncAction] on it once each: after
    the first and the second it is still queued, with [retryCount] 1 and 2;
    the third raises the counter to [maxRetries] = 3 and removes it from the
    queue.  So it leaves the queue after exactly three failed attempts, and
    being out of the queue it is never attempted again. *)
Theorem retry_budget w r a envs1 envs2 envs3 now1 now2 now3 :
  at_rest w →
  r ∈ syncQueue (mgr w) →
  heap (mgr w) !! r = Some a →
  retryCount a = 0 →
  only_holder (heap (mgr w)) (syncQueue (mgr w)) r →
  always_fails a (envs1 ++ envs2 ++ envs3) →
  let w1 := run (SyncWhenOnline :: settle_all envs1 now1) w in
  let w2 := run (SyncWhenOnline :: settle_all envs2 now2) w1 in
  let w3 := run (SyncWhenOnline :: settle_all envs3 now3) w2 in
  length envs1 = length (syncQueue (mgr w)) →
  length envs2 = length (syncQueue (mgr w1)) →
  length envs3 = length (syncQueue (mgr w2)) →
  (r ∈ syncQueue (mgr w1)
   ∧ retryCount <$> (heap (mgr w1) !! r) = Some 1
   ∧ attempts r w1 = (attempts r w + 1)%nat)
  ∧ (r ∈ syncQueue (mgr w2)
     ∧ retryCount <$> (heap (mgr w2) !! r) = Some 2
     ∧ attempts r w2 = (attempts r w + 2)%nat)
  ∧ ((r ∉ syncQueue (mgr w3))
     ∧ retryCount <$> (heap (mgr w3) !! r) = Some maxRetries
     ∧ attempts r w3 = (attempts r w + 3)%nat).
Proof.
  intros Hrest Hr Ha Hrc Hu Hfail w1 w2 w3 Hl1 Hl2 Hl3.
  unfold always_fails in Hfail.
  apply Forall_app in Hfail as [Hf1 Hfail].
  apply Forall_app in Hfail as [Hf2 Hf3].
  destruct (failing_drain w r a envs1 now1 Hrest Hr Ha Hu Hf1 Hl1)
    as (Hrest1 & Ha1 & Hin1 & Hu1 & Hat1).
  fold w1 in Hrest1, Ha1, Hin1, Hu1, Hat1.
  assert (Hr1 : r ∈ syncQueue (mgr w1)).
  { apply Hin1. rewrite Hrc. unfold maxRetries. lia. }
  destruct (failing_drain w1 r (bump a) envs2 now2 Hrest1 Hr1 Ha1 Hu1
              (always_fails_bump _ _ Hf2) Hl2)
    as (Hrest2 & Ha2 & Hin2 & Hu2 & Hat2).
  fold w2 in Hrest2, Ha2, Hin2, Hu2, Hat2.
  assert (Hr2 : r ∈ syncQueue (mgr w2)).
  { apply Hin2. cbn. rewrite Hrc. unfold maxRetries. lia. }
  destruct (failing_drain w2 r (bump (bump a)) envs3 now3 Hrest2 Hr2 Ha2 Hu2
              (always_fails_bump _ _ (always_fails_bump _ _ Hf3)) Hl3)
    as (Hrest3 & Ha3 & Hin3 & Hu3 & Hat3).
  fold w3 in Hrest3, Ha3, Hin3, Hu3, Hat3.
  clearbody w1 w2 w3.
  rewrite Ha1, Ha2, Ha3. cbn. rewrite Hrc.
  repeat split; try done; try lia.
  rewrite Hin3. cbn. rewrite Hrc. unfold maxRetries. lia.
Qed.

(** *** At most one drain in flight *)






(** A resting, consistent manager satisfies the invariant. *)
Lemma single_flight_at_rest w :
  drains w = [] → syncInProgress (mgr w) = false →
  wf_queue w → NoDup (syncQueue (mgr w)) → dispatched w = [] →
  single_flight w.
Proof.
  intros Hd Hs Hwf Hnd Hdisp. unfold single_flight, dispatched_by.
  rewrite Hd, Hs, Hdisp. repeat split; try done.
  - cbn. lia.
  - intros p Hp. by apply elem_of_nil in Hp.
  - intros t. cbn. apply NoDup_nil_2.
Qed.

(** A manager just constructed is in such a state, whatever the store
    held. *)
Lemma single_flight_constructor st onLine now w0 :
  single_flight (after (constructor st onLine now) w0).
Proof.
  assert (Hshape : ∀ w', w' = after (constructor st onLine now) w0 →
            drains w' = [] ∧ syncInProgress (mgr w') = false
            ∧ dispatched w' = []
            ∧ syncQueue (mgr w') = seq 0 (length (heap (mgr w')))).
  { intros w' ->.
    unfold constructor, loadOfflineData, localStorage_getItem,
      resetOfflineData, parse, after.
    destruct (readable st) eqn:Hr; [|by load_leaf].
    cbn. rewrite Hr. cbn.
    blob_cases "safestep_offline_data";
      [ | destruct (valid_offlineData v) eqn:? | | ];
      blob_cases "safestep_sync_queue"; load_leaf.
    all: try match goal with
             | |- context [match ?v with JArr _ => _ | _ => _ end] =>
                 destruct v eqn:?; load_leaf
             end.
    all: done. }
  destruct (Hshape _ eq_refl) as (Hd & Hs & Hdisp & Hq).
  apply single_flight_at_rest; try done.
  - intros r Hr. rewrite Hq in Hr. apply elem_of_seq in Hr. lia.
  - rewrite Hq. apply NoDup_seq.
Qed.



Lemma step_Settle_idle w i env now :
  drains w !! i = None → step w (Settle i env now) = w.
Proof.
  intros Hi. unfold step, after, handle, resume. cbn. by rewrite Hi.
Qed.






End OfflineManagerProperties.

(** ** Further properties of the code *)

Section ShakeCoverage.
Import GestureManager.

Lemma well_sequenced_snoc calls : ∀ prev n,
  well_sequenced prev (calls ++ [n])
  = well_sequenced prev calls
    && ((n =? 3) || ((n =? 4) && (default prev (last calls) =? 3))).
Proof.
  induction calls as [|m calls IH]; intros prev n; cbn.
  - by rewrite andb_true_r.
  - assert (Hlast : default prev (last (m :: calls))
                    = default m (last calls)).
    { rewrite last_cons. by destruct (last calls). }
    by rewrite IH, andb_assoc, Hlast.
Qed.

Lemma resets_keep (due : list Timer) : ∀ s,
  let s' := fold_left (λ st _, resetShakeCount st) due s in
  effects s' = effects s ∧ has_onShake s' = has_onShake s
  ∧ (shakeCount s' = shakeCount s ∨ shakeCount s' = 0).
Proof.
  induction due as [|d due IH]; intros s; cbn; [by auto|].
  destruct (IH (resetShakeCount s)) as (-> & -> & Hc).
  cbn in *. repeat split; try done. destruct Hc; auto.
Qed.

Lemma fire_due_keeps now s :
  effects (fire_due now s) = effects s
  ∧ has_onShake (fire_due now s) = has_onShake s
  ∧ (shakeCount (fire_due now s) = shakeCount s
     ∨ shakeCount (fire_due now s) = 0).
Proof.
  unfold fire_due.
  match goal with
  | |- context [fold_left _ ?due ?s0] =>
      destruct (resets_keep due s0) as (-> & -> & Hc)
  end.
  by cbn in *.
Qed.

Lemma onShake_calls_emit e s :
  onShake_calls (emit e s)
  = onShake_calls s ++ match e with OnShake n => [n] | _ => [] end.
Proof.
  unfold onShake_calls. cbn. rewrite omap_app. by destruct e.
Qed.

(** What one motion event does to the counter and to the handler. *)
Lemma handleDeviceMotion_calls t e s :
  0 <= shakeCount s <= 3 →
  let s' := handleDeviceMotion t e s in
  has_onShake s' = has_onShake s
  ∧ ((shakeCount s' = shakeCount s ∧ onShake_calls s' = onShake_calls s)
     ∨ (shakeCount s' = shakeCount s + 1 ∧ shakeCount s' <= 2
        ∧ onShake_calls s' = onShake_calls s)
     ∨ (shakeCount s = 2 ∧ shakeCount s' = 3
        ∧ onShake_calls s'
          = onShake_calls s ++ (if has_onShake s then [3] else []))
     ∨ (shakeCount s = 3 ∧ shakeCount s' = 0
        ∧ onShake_calls s'
          = onShake_calls s ++ (if has_onShake s then [4] else []))).
Proof.
  intros Hc. cbn zeta. unfold handleDeviceMotion.
  destruct e as [acc|]; [|by auto].
  destruct (negb (isEnabled s)); [by auto|].
  destruct (_ && _); [by auto|].
  destruct (_ <? _); [|by auto].
  destruct (_ <? _); [|by auto].
  set (cur := mkAcc _ _ _).
  assert (shakeCount s = 0 ∨ shakeCount s = 1 ∨ shakeCount s = 2
          ∨ shakeCount s = 3) as [E|[E|[E|E]]] by lia.
  - rewrite count_first by done. cbn. split; [done|]. right. left.
    unfold onShake_calls. cbn. rewrite omap_app. cbn.
    rewrite app_nil_r. repeat split; try done; lia.
  - rewrite count_second by done. cbn. split; [done|]. right. left.
    unfold onShake_calls. cbn. rewrite omap_app. cbn.
    rewrite app_nil_r. repeat split; try done; lia.
  - rewrite count_third by done. unfold call_onShake. cbn.
    destruct (has_onShake s) eqn:Hh; cbn; rewrite ?Hh;
      (split; [done|]); right; right; left;
      unfold onShake_calls; cbn; rewrite ?omap_app; cbn;
      rewrite ?app_nil_r, <- ?app_assoc; cbn; rewrite E;
      repeat split; done.
  - rewrite count_fourth by done. unfold call_onShake. cbn.
    destruct (has_onShake s) eqn:Hh; cbn; rewrite ?Hh;
      (split; [done|]); right; right; right;
      unfold onShake_calls; cbn; rewrite ?omap_app; cbn;
      rewrite ?app_nil_r, <- ?app_assoc; cbn; rewrite E;
      repeat split; done.
Qed.

(** X14.  Whatever motion events arrive and whenever the reset timers fire,
    [shakeCount] stays between 0 and 3, the [onShake] handler is only ever
    called with 3 or 4, and a call with 4 (SOS) comes directly after a
    call with 3 (panic siren): the SOS alert is never raised by shaking
    without the panic siren having been raised just before. *)
Theorem panic_before_sos samples s0 :
  shakeCount s0 = 0 → effects s0 = [] →
  let s := feed samples s0 in
  0 <= shakeCount s <= 3
  ∧ well_sequenced 0 (onShake_calls s) = true.
Proof.
  intros Hc0 He0. cbn zeta.
  assert (Hinv : 0 <= shakeCount s0 <= 3
                 ∧ well_sequenced 0 (onShake_calls s0) = true
                 ∧ (shakeCount s0 = 3 → has_onShake s0 = true →
                    last (onShake_calls s0) = Some 3)).
  { unfold onShake_calls. rewrite Hc0, He0. cbn. split; [lia|].
    split; [done|]. intros; lia. }
  clear Hc0 He0. unfold feed.
  revert s0 Hinv.
  induction samples as [|[t e] samples IH]; intros s0 Hinv;
    [by destruct Hinv as (? & ? & _)|].
  cbn [fold_left]. apply IH. clear IH.
  destruct Hinv as (Hc & Hwf & Hlast).
  unfold deliver. cbn [fst snd].
  destruct (fire_due_keeps t s0) as (Hfx & Hh & Hcnt).
  set (s1 := fire_due t s0) in *.
  assert (Hinv1 : 0 <= shakeCount s1 <= 3
                  ∧ well_sequenced 0 (onShake_calls s1) = true
                  ∧ (shakeCount s1 = 3 → has_onShake s1 = true →
                     last (onShake_calls s1) = Some 3)).
  { unfold onShake_calls in *. rewrite Hfx, Hh.
    destruct Hcnt as [->| ->]; [done|].
    split; [lia|]. split; [done|]. intros; lia. }
  clearbody s1. clear s0 Hc Hwf Hlast Hfx Hh Hcnt.
  destruct Hinv1 as (Hc & Hwf & Hlast).
  destruct (handleDeviceMotion_calls t e s1 Hc) as (Hh & Hcases).
  set (s2 := handleDeviceMotion t e s1) in *. clearbody s2.
  destruct Hcases as [(E1 & E2)|[(E1 & E1' & E2)|[(E0 & E1 & E2)|(E0 & E1 & E2)]]];
    rewrite E1, E2, ?Hh.
  - done.
  - split; [lia|]. split; [done|]. intros; lia.
  - split; [lia|]. destruct (has_onShake s1).
    + rewrite well_sequenced_snoc, Hwf, last_snoc. done.
    + rewrite app_nil_r. split; [done|]. intros; done.
  - split; [lia|]. destruct (has_onShake s1) eqn:Hh1.
    + rewrite well_sequenced_snoc, Hwf, (Hlast E0 eq_refl). cbn.
      split; [done|]. intros; lia.
    + rewrite app_nil_r. split; [done|]. intros; lia.
Qed.

Local Ltac counted E count :=
  rewrite deliver_counted in E;
    [ rewrite count in E by (subst; reflexivity)
    | subst; cbn;
      repeat (apply Forall_cons_2; [cbn; unfold shakeWindow; lia|]);
      apply Forall_nil_2
    | subst; reflexivity
    | subst; assumption
    | subst; cbn; lia ].

(** The only pending timer is due: it fires and resets the count. *)
Lemma fire_due_single now s h due :
  timers s = [(h, due)] → shakeResetTimeout s = Some h → due <= now →
  fire_due now s
  = mkState (has_onShake s) (isEnabled s) (lastAcceleration s) 0 None
            (lastShakeTime s) [] (nextHandle s) (effects s).
Proof.
  intros Ht Hh Hdue. unfold fire_due. rewrite Ht.
  rewrite filter_cons_True by done.
  rewrite filter_cons_False by (cbn; lia).
  cbn. rewrite Hh. cbn. by rewrite ?filter_nil.
Qed.

(** X15.  The three-second window runs from the last counted shake, not
    from the first.  After two counted shakes, a third one less than 3000
    ms after the second raises the panic siren, however long ago the first
    one was; a third one 3000 ms or more after the second finds the count
    reset and starts again at 1, raising nothing. *)
Theorem shake_window_slides T0 g2 g3 r1 r2 r3 :
  500 < T0 →
  above_threshold (mkAcc 0 0 0) r1 →
  above_threshold r1 r2 →
  above_threshold r2 r3 →
  500 < g2 < 3000 →
  let s2 := feed (take 2 (spaced T0 g2 g3 r1 r2 r3)) enabled_init in
  let s3 := feed (spaced T0 g2 g3 r1 r2 r3) enabled_init in
  shakeCount s2 = 2
  ∧ (500 < g3 < 3000 → shakeCount s3 = 3 ∧ app_events s3 = [PanicSiren])
  ∧ (3000 <= g3 → shakeCount s3 = 1 ∧ app_events s3 = []).
Proof.
  intros HT H1 H2 H3 Hg2. unfold spaced, feed. cbn [take fold_left].
  remember (deliver enabled_init (T0, reading r1)) as s1 eqn:E1.
  remember (deliver s1 (T0 + g2, reading r2)) as s2 eqn:E2.
  counted E1 count_first. counted E2 count_second.
  assert (F1 : shakeCount s2 = 2) by (subst; reflexivity).
  assert (F2 : effects s2
               = [ShowGestureNotification (ShakeDetected 1);
                  ShowGestureNotification (ShakeProgress 2)])
    by (subst; reflexivity).
  assert (F3 : timers s2 = [(2%N, T0 + g2 + shakeWindow)])
    by (subst; reflexivity).
  assert (F4 : lastShakeTime s2 = T0 + g2) by (subst; reflexivity).
  assert (F5 : lastAcceleration s2 = r2) by (subst; reflexivity).
  assert (F6 : isEnabled s2 = true) by (subst; reflexivity).
  assert (F7 : shakeResetTimeout s2 = Some 2%N) by (subst; reflexivity).
  assert (F8 : has_onShake s2 = true) by (subst; reflexivity).
  clear E1 E2. split; [done|]. split.
  - intros Hg3. rewrite deliver_counted, count_third; try done.
    + unfold app_events, call_onShake. cbn. rewrite F8. cbn.
      rewrite F1, F2. done.
    + rewrite F3. apply Forall_cons_2; [cbn; unfold shakeWindow; lia|].
      apply Forall_nil_2.
    + by rewrite F5.
    + lia.
  - intros Hg3. unfold deliver. cbn [fst snd].
    rewrite (fire_due_single _ s2 2%N (T0 + g2 + shakeWindow))
      by (try done; unfold shakeWindow; lia).
    rewrite handleDeviceMotion_counted, count_first; try done.
    + unfold app_events. cbn. by rewrite F2.
    + cbn. by rewrite F5.
    + cbn. lia.
Qed.

Lemma panic_before_sos_witness :
  well_sequenced 0
    (onShake_calls
       (feed (shakes 1000 (mkAcc 20 0 0) (mkAcc 1 0 0) (mkAcc 20 0 0)
                (mkAcc 1 0 0)) enabled_init)) = true.
Proof.
  destruct (panic_before_sos
              (shakes 1000 (mkAcc 20 0 0) (mkAcc 1 0 0) (mkAcc 20 0 0)
                 (mkAcc 1 0 0)) enabled_init eq_refl eq_refl) as [_ Hwf].
  exact Hwf.
Defined.

Lemma shake_window_slides_witness :
  shakeCount (feed (spaced 1000 2900 2900 (mkAcc 20 0 0) (mkAcc 1 0 0)
                      (mkAcc 20 0 0)) enabled_init) = 3
  ∧ shakeCount (feed (spaced 1000 2900 3000 (mkAcc 20 0 0) (mkAcc 1 0 0)
                        (mkAcc 20 0 0)) enabled_init) = 1.
Proof.
  assert (Hq : ∀ a b, (a = 20 ∧ b = 1) ∨ (a = 1 ∧ b = 20) ∨ (a = 0 ∧ b = 20) →
               above_threshold (mkAcc a 0 0) (mkAcc b 0 0)).
  { intros a b Hab. split; [unfold nonzero; cbn; lia|].
    unfold totalDelta, shakeThreshold; cbn; lia. }
  split.
  - destruct (shake_window_slides 1000 2900 2900 (mkAcc 20 0 0)
                (mkAcc 1 0 0) (mkAcc 20 0 0)) as (_ & Hin & _);
      [lia | apply Hq; lia .. | lia | ].
    apply Hin. lia.
  - destruct (shake_window_slides 1000 2900 3000 (mkAcc 20 0 0)
                (mkAcc 1 0 0) (mkAcc 20 0 0)) as (_ & _ & Hout);
      [lia | apply Hq; lia .. | lia | ].
    apply Hout. lia.
Defined.

End ShakeCoverage.

Section TouchProperties.
Import GestureManager.
Import PrimFloat SpecFloat FloatOps FloatAxioms.

Lemma touch_eta s :
  {| handlers := handlers s; touchStartX := touchStartX s;
     touchStartY := touchStartY s; touchStartTime := touchStartTime s;
     lastTap := lastTap s; longPressTimer := longPressTimer s;
     longPressTimers := longPressTimers s; nextTimer := nextTimer s;
     touchEffects := touchEffects s |} = s.
Proof. by destruct s. Qed.

(** A distance below the tap bound is not above the swipe threshold. *)
Lemma tap_not_swipe d :
  (d <? 10)%float = true → (SWIPE_THRESHOLD <? d)%float = false.
Proof.
  rewrite !ltb_spec. unfold SWIPE_THRESHOLD.
  set (ten := Prim2SF 10). set (fifty := Prim2SF 50).
  vm_compute in ten, fifty. subst ten fifty.
  unfold SFltb, SFcompare.
  destruct (Prim2SF d) as [[]|[]| |[] m e]; try done.
  destruct (Z.compare_spec e (-49)) as [->| |]; [| |done].
  - done.
  - destruct (Z.compare_spec (-47) e); [lia|lia|done].
Qed.

(** No timeout is due: the platform runs nothing. *)
Lemma fire_long_press_idle now s :
  Forall (λ t : Timer, now < t.2) (longPressTimers s) →
  fire_long_press now s = s.
Proof.
  intros Hall. unfold fire_long_press.
  assert (Hdue : filter (λ t : Timer, t.2 <= now) (longPressTimers s) = []).
  { induction Hall as [|t ts Ht _ IH]; [done|].
    rewrite filter_cons_False by (cbn; lia). exact IH. }
  assert (Hrest : filter (λ t : Timer, ¬ t.2 <= now) (longPressTimers s)
                  = longPressTimers s).
  { clear Hdue. induction Hall as [|t ts Ht _ IH]; [done|].
    rewrite filter_cons_True by (cbn; lia). by rewrite IH. }
  rewrite Hdue, Hrest. cbn. apply touch_eta.
Qed.

(** The one pending timeout is due: its callback runs. *)
Lemma fire_long_press_due now h due s :
  longPressTimers s = [(h, due)] → due <= now →
  fire_long_press now s
  = longPressCallback
      {| handlers := handlers s; touchStartX := touchStartX s;
         touchStartY := touchStartY s; touchStartTime := touchStartTime s;
         lastTap := lastTap s; longPressTimer := longPressTimer s;
         longPressTimers := []; nextTimer := nextTimer s;
         touchEffects := touchEffects s |}.
Proof.
  intros Ht Hdue. unfold fire_long_press. rewrite Ht.
  rewrite filter_cons_True by (cbn; lia).
  rewrite filter_cons_False by (cbn; lia).
  by rewrite !filter_nil.
Qed.

Lemma clearTimeout_own h due : clearTimeout h [(h, due)] = [].
Proof.
  unfold clearTimeout. rewrite filter_cons_False; [done|].
  cbn. intros Hn. by apply Hn.
Qed.

(** The finger is down and the timer is running. *)
Lemma handleTouchStart_armed t p cs s :
  longPressTimers s = [] →
  let s1 := handleTouchStart t (mkTouchEvent [p] cs) s in
  longPressTimers s1 = [(nextTimer s, t + LONG_PRESS_DURATION)]
  ∧ longPressTimer s1 = Some (nextTimer s)
  ∧ touchEffects s1 = touchEffects s
  ∧ handlers s1 = handlers s
  ∧ lastTap s1 = lastTap s
  ∧ touchStartX s1 = clientX p ∧ touchStartY s1 = clientY p
  ∧ touchStartTime s1 = t
  ∧ nextTimer s1 = N.succ (nextTimer s).
Proof. intros Ht. cbn. by rewrite Ht. Qed.

Lemma cancelLongPress_armed h due s :
  longPressTimers s = [(h, due)] → longPressTimer s = Some h →
  cancelLongPress s
  = {| handlers := handlers s; touchStartX := touchStartX s;
       touchStartY := touchStartY s; touchStartTime := touchStartTime s;
       lastTap := lastTap s; longPressTimer := None;
       longPressTimers := []; nextTimer := nextTimer s;
       touchEffects := touchEffects s |}.
Proof.
  intros Ht Hh. unfold cancelLongPress. rewrite Hh, Ht.
  by rewrite clearTimeout_own.
Qed.

(** [swipe] calls at most one handler, never the long-press one, and
    touches nothing else. *)
Lemma swipe_calls dx dy d v s :
  ∃ extra,
    swipe dx dy d v s
    = {| handlers := handlers s; touchStartX := touchStartX s;
         touchStartY := touchStartY s; touchStartTime := touchStartTime s;
         lastTap := lastTap s; longPressTimer := longPressTimer s;
         longPressTimers := longPressTimers s; nextTimer := nextTimer s;
         touchEffects := touchEffects s ++ extra |}
    ∧ (extra = [] ∨ ∃ g message,
                     extra = [Call g; GestureNotification message]
                     ∧ g ≠ LongPress ∧ g ≠ DoubleTap).
Proof.
  unfold swipe.
  repeat match goal with
         | |- context [if ?b then _ else _] => destruct b
         end;
    first [ exists []; rewrite app_nil_r, touch_eta; split; [done|by left]
          | eexists; split;
            [reflexivity|right; eexists _, _; split; [reflexivity|done]] ].
Qed.

(** [handleTouchEnd] cancels the timer, calls at most one handler and
    never the long-press one. *)
Lemma handleTouchEnd_calls t e s1 h due :
  longPressTimers s1 = [(h, due)] → longPressTimer s1 = Some h →
  let s2 := handleTouchEnd t e s1 in
  longPressTimers s2 = [] ∧ handlers s2 = handlers s1
  ∧ ∃ extra, touchEffects s2 = touchEffects s1 ++ extra
      ∧ (extra = [] ∨ ∃ g message,
                        extra = [Call g; GestureNotification message]
                        ∧ g ≠ LongPress).
Proof.
  intros Ht Hh. cbn zeta. unfold handleTouchEnd.
  rewrite (cancelLongPress_armed h due) by done.
  set (s := mkTouchState _ _ _ _ _ _ _ _ _).
  destruct (changedTouches e) as [|touch [|]].
  - repeat split; try done. exists []. rewrite app_nil_r. split; [done|by left].
  - cbn zeta.
    match goal with
    | |- context [swipe ?dx ?dy ?d ?v s] =>
        destruct (swipe_calls dx dy d v s) as (x1 & E1 & H1);
        destruct (swipe_calls dx dy d v (set_lastTap t s)) as (x2 & E2 & H2);
        rewrite E1, E2
    end.
    repeat match goal with
           | |- context [if ?b then _ else _] => destruct b
           end; cbn;
      (repeat split; try done);
      first [ exists []; rewrite app_nil_r; split; [done|by left]
            | eexists; split; [reflexivity|];
              first [ right; eexists _, _; split; [reflexivity|done]
                    | destruct H1 as [->|(g & msg & -> & Hg & _)];
                      [by left|right; eauto]
                    | destruct H2 as [->|(g & msg & -> & Hg & _)];
                      [by left|right; eauto] ] ].
  - repeat split; try done. exists []. rewrite app_nil_r. split; [done|by left].
Qed.

Lemma long_presses_app s s' extra :
  touchEffects s' = touchEffects s ++ extra →
  (extra = [] ∨ ∃ g message,
                  extra = [Call g; GestureNotification message]
                  ∧ g ≠ LongPress) →
  long_presses s' = long_presses s.
Proof.
  intros E Hx. unfold long_presses, gestures. rewrite E, omap_app, filter_app.
  rewrite length_app.
  destruct Hx as [->|(g & msg & -> & Hg)]; cbn; [lia|].
  rewrite decide_False by done. cbn. lia.
Qed.

(** X22.  A long press needs a finger that stays down and still for 800 ms.
    After a one-finger [touchstart] at time [t] with no timer pending, the
    long-press handler (if one is installed) is called exactly once when
    the clock reaches [t + 800]; a [touchmove] or a [touchend] before that,
    whatever it carries, cancels it for good, and the [touchend] calls at
    most one other handler. *)
Theorem long_press_needs_still_finger t p cs s :
  longPressTimers s = [] →
  let s1 := handleTouchStart t (mkTouchEvent [p] cs) s in
  (∀ t' t'', t + 800 <= t' →
     let s2 := fire_long_press t' s1 in
     touchEffects s2
     = touchEffects s
       ++ (if onLongPress (handlers s)
           then [Call LongPress; GestureNotification "Long press detected"]
           else [])
     ∧ fire_long_press t'' s2 = s2)
  ∧ (∀ t' t'' e, t' < t + 800 →
       let s2 := handleTouchMove e (fire_long_press t' s1) in
       touchEffects s2 = touchEffects s ∧ fire_long_press t'' s2 = s2)
  ∧ (∀ t' t'' e, t' < t + 800 →
       let s2 := handleTouchEnd t' e (fire_long_press t' s1) in
       long_presses s2 = long_presses s ∧ fire_long_press t'' s2 = s2).
Proof.
  intros Ht.
  destruct (handleTouchStart_armed t p cs s Ht)
    as (Ht1 & Hh1 & He1 & Hhd1 & _).
  cbn zeta. set (s1 := handleTouchStart _ _ _) in *. clearbody s1.
  unfold LONG_PRESS_DURATION in Ht1.
  split; [|split].
  - intros t' t'' Hd.
    rewrite (fire_long_press_due t' _ _ s1 Ht1 Hd).
    unfold longPressCallback. cbn. rewrite Hhd1, He1.
    destruct (onLongPress (handlers s)).
    + split; [done|]. by apply fire_long_press_idle.
    + rewrite app_nil_r. split; [done|]. by apply fire_long_press_idle.
  - intros t' t'' e Hd.
    rewrite fire_long_press_idle
      by (rewrite Ht1; apply Forall_singleton; cbn; lia).
    unfold handleTouchMove.
    rewrite (cancelLongPress_armed _ _ s1 Ht1 Hh1).
    split; [done|]. by apply fire_long_press_idle.
  - intros t' t'' e Hd.
    rewrite fire_long_press_idle
      by (rewrite Ht1; apply Forall_singleton; cbn; lia).
    destruct (handleTouchEnd_calls t' e s1 _ _ Ht1 Hh1)
      as (Ht2 & _ & extra & E & Hx).
    split.
    + rewrite He1 in E. by apply (long_presses_app s _ extra).
    + apply fire_long_press_idle. by rewrite Ht2.
Qed.

(** One tap: the finger goes down at [p] at time [a] and comes up at [q]
    at time [b]. *)
Lemma tap_single a b p q s :
  longPressTimers s = [] → a <= b →
  is_tap p q (b - a) = true →
  ¬ (0 < b - lastTap s < 300) →
  tap a b p q s
  = {| handlers := handlers s; touchStartX := clientX p;
       touchStartY := clientY p; touchStartTime := a;
       lastTap := b; longPressTimer := None;
       longPressTimers := []; nextTimer := N.succ (nextTimer s);
       touchEffects := touchEffects s |}.
Proof.
  intros Ht Hab Htap Hnd. unfold tap.
  rewrite (fire_long_press_idle a s) by (rewrite Ht; constructor).
  destruct (handleTouchStart_armed a p [p] s Ht)
    as (Ht1 & Hh1 & He1 & Hhd1 & Hl1 & Hx1 & Hy1 & Ha1 & Hn1).
  set (s1 := handleTouchStart _ _ _) in *. clearbody s1.
  unfold is_tap in Htap. apply andb_prop in Htap as [Hd Hdt].
  apply Z.ltb_lt in Hdt.
  rewrite fire_long_press_idle
    by (rewrite Ht1; apply Forall_singleton; cbn;
        unfold LONG_PRESS_DURATION; lia).
  unfold handleTouchEnd.
  rewrite (cancelLongPress_armed _ _ s1 Ht1 Hh1). cbn -[distance_of swipe].
  rewrite Hx1, Hy1, Ha1, Hl1, Hd.
  rewrite (proj2 (Z.ltb_lt _ _) Hdt). cbn -[distance_of swipe].
  unfold DOUBLE_TAP_DELAY.
  replace ((b - lastTap s <? 300) && (0 <? b - lastTap s)) with false
    by (symmetry; apply andb_false_iff;
        destruct (Z.ltb_spec (b - lastTap s) 300); [right|by left];
        apply Z.ltb_ge; lia).
  unfold swipe. rewrite (tap_not_swipe _ Hd). cbn.
  unfold set_lastTap. cbn. by rewrite Hhd1, He1, Hn1.
Qed.

Lemma tap_double a b p q s :
  longPressTimers s = [] → a <= b →
  is_tap p q (b - a) = true →
  0 < b - lastTap s < 300 →
  tap a b p q s
  = {| handlers := handlers s; touchStartX := clientX p;
       touchStartY := clientY p; touchStartTime := a;
       lastTap := lastTap s; longPressTimer := None;
       longPressTimers := []; nextTimer := N.succ (nextTimer s);
       touchEffects :=
         touchEffects s
         ++ (if onDoubleTap (handlers s)
             then [Call DoubleTap; GestureNotification "Double tap detected"]
             else []) |}.
Proof.
  intros Ht Hab Htap Hnd. unfold tap.
  rewrite (fire_long_press_idle a s) by (rewrite Ht; constructor).
  destruct (handleTouchStart_armed a p [p] s Ht)
    as (Ht1 & Hh1 & He1 & Hhd1 & Hl1 & Hx1 & Hy1 & Ha1 & Hn1).
  set (s1 := handleTouchStart _ _ _) in *. clearbody s1.
  unfold is_tap in Htap. apply andb_prop in Htap as [Hd Hdt].
  apply Z.ltb_lt in Hdt.
  rewrite fire_long_press_idle
    by (rewrite Ht1; apply Forall_singleton; cbn;
        unfold LONG_PRESS_DURATION; lia).
  unfold handleTouchEnd.
  rewrite (cancelLongPress_armed _ _ s1 Ht1 Hh1). cbn -[distance_of swipe].
  rewrite Hx1, Hy1, Ha1, Hl1, Hd.
  rewrite (proj2 (Z.ltb_lt _ _) Hdt). cbn -[distance_of swipe].
  unfold DOUBLE_TAP_DELAY.
  rewrite (proj2 (Z.ltb_lt (b - lastTap s) 300)) by lia.
  rewrite (proj2 (Z.ltb_lt 0 (b - lastTap s))) by lia. cbn.
  rewrite Hhd1, He1, Hn1.
  destruct (onDoubleTap (handlers s)); [done|].
  by rewrite app_nil_r.
Qed.

(** X23.  The double-tap window is measured from the first tap and a double
    tap does not restart it.  After a tap that is not a double tap, a
    second tap less than 300 ms later calls the double-tap handler, and so
    does a third one if it also ends within 300 ms of the first; a third
    tap that ends 300 ms or more after the first is a plain tap, however
    soon it follows the second. *)
Theorem double_tap_window_from_first
    a1 b1 a2 b2 a3 b3 p1 q1 p2 q2 p3 q3 s :
  longPressTimers s = [] →
  onDoubleTap (handlers s) = true →
  is_tap p1 q1 (b1 - a1) = true →
  is_tap p2 q2 (b2 - a2) = true →
  is_tap p3 q3 (b3 - a3) = true →
  a1 <= b1 ∧ b1 < a2 ∧ a2 <= b2 ∧ b2 < a3 ∧ a3 <= b3 →
  ¬ (0 < b1 - lastTap s < 300) →
  b2 - b1 < 300 →
  let double := [Call DoubleTap; GestureNotification "Double tap detected"] in
  let s2 := tap a2 b2 p2 q2 (tap a1 b1 p1 q1 s) in
  let s3 := tap a3 b3 p3 q3 s2 in
  touchEffects s2 = touchEffects s ++ double
  ∧ lastTap s2 = b1
  ∧ (b3 - b1 < 300 →
       touchEffects s3 = touchEffects s ++ double ++ double
       ∧ lastTap s3 = b1)
  ∧ (300 <= b3 - b1 →
       touchEffects s3 = touchEffects s ++ double ∧ lastTap s3 = b3).
Proof.
  intros Ht Hh T1 T2 T3 (H1 & H2 & H3 & H4 & H5) Hfirst Hsecond. cbn zeta.
  rewrite (tap_single a1 b1 p1 q1 s) by done.
  rewrite tap_double by (cbn; first [done|lia]).
  cbn -[tap]. rewrite Hh.
  split; [done|]. split; [done|]. split; intros Hthird.
  - rewrite tap_double by (cbn; first [done|lia]). cbn. rewrite Hh.
    by rewrite <- app_assoc.
  - by rewrite tap_single by (cbn; first [done|lia]).
Qed.

Lemma fire_due_isEnabled now s : isEnabled (fire_due now s) = isEnabled s.
Proof.
  unfold fire_due.
  assert (Hfold : ∀ (l : list Timer) i,
            isEnabled (fold_left (λ st _, resetShakeCount st) l i)
            = isEnabled i).
  { intros l. induction l as [|x l IH]; intros i; [done|].
    cbn [fold_left]. by rewrite IH. }
  by rewrite Hfold.
Qed.

(** X24.  [disable()] does not cancel a long press that is under way, and
    takes away the listener that would.  With the finger down since [t],
    lifting it before [t + 800] cancels the long press; if [disable()] is
    called in between, the lift is no longer seen and the long-press
    handler runs at [t + 800], on a manager that is disabled. *)
Theorem disable_keeps_long_press t t1 t2 t3 p q m :
  isEnabled (shake m) = true →
  touchListeners m = true →
  longPressTimers (touch m) = [] →
  t <= t1 ∧ t1 <= t2 ∧ t2 < t + 800 ∧ t + 800 <= t3 →
  let lifted := play [(t, finger_down p); (t2, finger_up q); (t3, Wait)] m in
  let disabled :=
    play [(t, finger_down p); (t1, Disable); (t2, finger_up q); (t3, Wait)]
      m in
  long_presses (touch lifted) = long_presses (touch m)
  ∧ touchEffects (touch disabled)
    = touchEffects (touch m)
      ++ (if onLongPress (handlers (touch m))
          then [Call LongPress; GestureNotification "Long press detected"]
          else [])
  ∧ isEnabled (shake disabled) = false
  ∧ touchListeners disabled = false.
Proof.
  intros Hen Hl Ht (H1 & H2 & H3 & H4). cbn zeta.
  unfold play. cbn [fold_left].
  destruct (handleTouchStart_armed t p [p] (touch m) Ht)
    as (Ht1 & Hh1 & He1 & Hhd1 & _).
  unfold LONG_PRESS_DURATION in Ht1.
  set (s1 := handleTouchStart _ _ _) in *.
  assert (Hdown : handle m (t, finger_down p)
                  = {| shake := fire_due t (shake m); touch := s1;
                       touchListeners := true;
                       motionListener := motionListener m |}).
  { unfold handle, finger_down, timeouts, on_touch. cbn. rewrite Hl.
    by rewrite (fire_long_press_idle t (touch m))
      by (rewrite Ht; constructor). }
  rewrite !Hdown. clear Hdown. clearbody s1.
  assert (Hidle : ∀ t', t' < t + 800 → fire_long_press t' s1 = s1).
  { intros t' Ht'. apply fire_long_press_idle.
    rewrite Ht1. apply Forall_singleton. cbn. lia. }
  set (M1 := mkManager _ s1 _ _).
  assert (Hup : handle M1 (t2, finger_up q)
                = {| shake := fire_due t2 (shake M1);
                     touch := handleTouchEnd t2 (mkTouchEvent [] [q]) s1;
                     touchListeners := true;
                     motionListener := motionListener M1 |}).
  { unfold handle, finger_up, timeouts, on_touch.
    cbn -[fire_long_press fire_due handleTouchEnd].
    by rewrite Hidle by lia. }
  assert (Hdis : handle M1 (t1, Disable)
                 = {| shake := resetShakeCount
                                 (set_isEnabled false (fire_due t1 (shake M1)));
                      touch := s1; touchListeners := false;
                      motionListener := false |}).
  { unfold handle, timeouts, disable.
    cbn -[fire_long_press fire_due handleTouchEnd].
    by rewrite !fire_due_isEnabled, Hen, Hidle by lia. }
  rewrite Hup, Hdis. clear Hup Hdis. clearbody M1.
  set (M2 := mkManager _ s1 false false).
  assert (Hup : handle M2 (t2, finger_up q)
                = {| shake := fire_due t2 (shake M2); touch := s1;
                     touchListeners := false; motionListener := false |}).
  { unfold handle, finger_up, timeouts, on_touch.
    cbn -[fire_long_press fire_due handleTouchEnd].
    by rewrite Hidle by lia. }
  rewrite Hup. clear Hup.
  assert (Hoff : isEnabled (shake M2) = false) by done.
  clearbody M2.
  unfold handle, timeouts. cbn -[fire_long_press fire_due handleTouchEnd].
  rewrite !fire_due_isEnabled. split.
  - destruct (handleTouchEnd_calls t2 (mkTouchEvent [] [q]) s1 _ _ Ht1 Hh1)
      as (Ht2 & _ & extra & E & Hx).
    rewrite fire_long_press_idle by (rewrite Ht2; constructor).
    rewrite He1 in E. by apply (long_presses_app (touch m) _ extra).
  - rewrite (fire_long_press_due t3 _ _ s1 Ht1) by lia.
    unfold longPressCallback. cbn. rewrite Hhd1, He1.
    destruct (onLongPress (handlers (touch m))); [done|].
    by rewrite app_nil_r.
Qed.

(** A finger held at (100, 200) from time 1000 on a new manager. *)
Lemma long_press_needs_still_finger_witness :
  gestures (fire_long_press 1800
              (handleTouchStart 1000
                 (mkTouchEvent [mkTouch 100 200] [mkTouch 100 200])
                 (touch_init all_handlers)))
  = [LongPress].
Proof.
  destruct (long_press_needs_still_finger 1000 (mkTouch 100 200)
              [mkTouch 100 200] (touch_init all_handlers) eq_refl)
    as (Hfire & _).
  destruct (Hfire 1800 1800 ltac:(lia)) as (E & _).
  unfold gestures. rewrite E. reflexivity.
Defined.

(** Three taps of 50 ms, 100 ms apart, each moving the finger by 5 px. *)
Lemma double_tap_window_from_first_witness :
  gestures
    (tap 1200 1250 (mkTouch 100 200) (mkTouch 103 204)
       (tap 1100 1150 (mkTouch 100 200) (mkTouch 103 204)
          (tap 1000 1050 (mkTouch 100 200) (mkTouch 103 204)
             (touch_init all_handlers))))
  = [DoubleTap; DoubleTap].
Proof.
  destruct (double_tap_window_from_first 1000 1050 1100 1150 1200 1250
              (mkTouch 100 200) (mkTouch 103 204)
              (mkTouch 100 200) (mkTouch 103 204)
              (mkTouch 100 200) (mkTouch 103 204)
              (touch_init all_handlers)
              eq_refl eq_refl eq_refl eq_refl eq_refl
              ltac:(lia) ltac:(cbn; lia) ltac:(lia))
    as (_ & _ & Hthird & _).
  destruct (Hthird ltac:(lia)) as (E & _).
  unfold gestures. rewrite E. reflexivity.
Defined.

(** The finger goes down at 1000, [disable()] is called at 1200 and the
    finger is lifted at 1300. *)
Lemma disable_keeps_long_press_witness :
  gestures
    (touch (play [(1000, finger_down (mkTouch 100 200)); (1200, Disable);
                  (1300, finger_up (mkTouch 100 200)); (1800, Wait)]
              manager_init))
  = [LongPress].
Proof.
  destruct (disable_keeps_long_press 1000 1200 1300 1800
              (mkTouch 100 200) (mkTouch 100 200) manager_init
              eq_refl eq_refl eq_refl ltac:(lia))
    as (_ & E & _).
  unfold gestures. rewrite E. reflexivity.
Defined.

End TouchProperties.

Section BackgroundServiceCoverage.
Import BackgroundService.

(** [stop()] when nothing fails. *)
Lemma stop_clean w :
  isRunning (svc w) = true →
  let w' := after (stop no_failure) w in
  isRunning (svc w') = false
  ∧ (∀ id, locationWatchId (svc w) = Some id → id ≠ 0 →
       id ∉ geo_watches (plat w'))
  ∧ (∀ id, heartbeatInterval (svc w) = Some id → id ≠ 0 →
       id ∉ intervals (plat w'))
  ∧ (∀ h, wakeLock (svc w) = Some h → h ∉ wake_locks (plat w'))
  ∧ motion_listeners (plat w') = motion_listeners (plat w).
Proof.
  intros Hrun.
  destruct w as [[run lw hb wl sw] [gw iv wls inbox ml nt ll lr]].
  cbn in Hrun. subst run.
  unfold stop, after, wakeLock_release, release_listener.
  destruct lw as [lw|], hb as [hb|], wl as [wl|], sw as [sw|]; cbn;
    repeat match goal with
           | |- context [?n =? 0] => destruct (Z.eqb_spec n 0); cbn
           | |- context [bool_decide (?x ∈ ?l)] =>
               destruct (decide (x ∈ l));
               [rewrite !(bool_decide_eq_true_2 (x ∈ l)) by done
               |rewrite !(bool_decide_eq_false_2 (x ∈ l)) by done]; cbn
           end;
    repeat split; try done; intros; simplify_eq;
      try apply not_in_remove; done.
Qed.

Lemma acquireWakeLock_tracked env w :
  ∃ w1, acquireWakeLock env w = (Normal tt, w1)
        ∧ isRunning (svc w1) = isRunning (svc w)
        ∧ tracked w1 = tracked w.
Proof.
  unfold acquireWakeLock.
  destruct (wakeLock_api env), (wakeLock_request env); cbn; eauto.
Qed.

Lemma registerServiceWorker_tracked env w :
  ∃ w1, registerServiceWorker env w = (Normal tt, w1)
        ∧ isRunning (svc w1) = isRunning (svc w)
        ∧ tracked w1 = tracked w
        ∧ wakeLock (svc w1) = wakeLock (svc w)
        ∧ wake_locks (plat w1) = wake_locks (plat w).
Proof.
  unfold registerServiceWorker.
  destruct (serviceWorker_api env), (serviceWorker_register env);
    cbn; eauto 10.
Qed.

Lemma enableBackgroundGestures_tracked env w :
  ∃ w1, enableBackgroundGestures env w = (Normal tt, w1)
        ∧ svc w1 = svc w
        ∧ geo_watches (plat w1) = geo_watches (plat w)
        ∧ intervals (plat w1) = intervals (plat w)
        ∧ wake_locks (plat w1) = wake_locks (plat w)
        ∧ (motion_listeners (plat w) ≤ motion_listeners (plat w1))%nat
        ∧ (adds_listener env →
             motion_listeners (plat w1) = S (motion_listeners (plat w))).
Proof.
  unfold enableBackgroundGestures, adds_listener.
  destruct (deviceMotion_api env), (deviceMotion_permission env) as [[]|];
    cbn; eexists; (split; [done|]); cbn; repeat split; try done; try lia;
    intros [? ?]; done.
Qed.

Lemma new_Notification_tracked o n w :
  o ≠ NoticeThrows →
  ∃ w1, new_Notification o n w = (Normal tt, w1)
        ∧ svc w1 = svc w
        ∧ geo_watches (plat w1) = geo_watches (plat w)
        ∧ intervals (plat w1) = intervals (plat w)
        ∧ wake_locks (plat w1) = wake_locks (plat w)
        ∧ motion_listeners (plat w1) = motion_listeners (plat w).
Proof. destruct o; cbn; eauto 10. done. Qed.

Local Opaque acquireWakeLock registerServiceWorker
  enableBackgroundGestures new_Notification.

(** What a successful [start()] holds when it returns. *)
Lemma start_tracked env childCode w :
  isRunning (svc w) = false →
  starts env childCode →
  ∃ w1, start env childCode w = (Normal true, w1)
        ∧ isRunning (svc w1) = true
        ∧ (truthy_string childCode = true →
             locationWatchId (svc w1) = Some (watchPosition_id env)
             ∧ watchPosition_id env ∈ geo_watches (plat w1))
        ∧ heartbeatInterval (svc w1) = Some (setInterval_id env)
        ∧ setInterval_id env ∈ intervals (plat w1)
        ∧ (motion_listeners (plat w) ≤ motion_listeners (plat w1))%nat
        ∧ (adds_listener env →
             motion_listeners (plat w1) = S (motion_listeners (plat w))).
Proof.
  intros Hrun [Hsetup Hbg]. unfold setup_throws in Hsetup.
  apply orb_false_iff in Hsetup as [Hgeo Hbat].
  assert (Hbat' : battery_notice env ≠ NoticeThrows)
    by (by destruct (battery_notice env)).
  unfold start. cbn. rewrite Hrun.
  unfold requestBatteryOptimizationExemption,
    showBackgroundNotification, startLocationTracking, startHeartbeat.
  cbn.
  destruct (acquireWakeLock_tracked env w) as (w1 & -> & R1 & T1). cbn.
  destruct (registerServiceWorker_tracked env w1)
    as (w2 & -> & R2 & T2 & _). cbn.
  unfold tracked in T1, T2.
  destruct (truthy_string childCode) eqn:Hcc; cbn in Hgeo |- *;
    [apply negb_false_iff in Hgeo; rewrite Hgeo; cbn|];
    (match goal with
     | |- context [enableBackgroundGestures env ?w] =>
         destruct (enableBackgroundGestures_tracked env w)
           as (w5 & -> & S5 & G5 & I5 & _ & M5 & M5'); cbn
     end);
    (match goal with
     | |- context [new_Notification ?o ?n ?w] =>
         destruct (new_Notification_tracked o n w Hbat')
           as (w6 & -> & S6 & G6 & I6 & _ & M6); cbn
     end);
    (match goal with
     | |- context [new_Notification ?o ?n ?w] =>
         destruct (new_Notification_tracked o n w Hbg)
           as (w7 & -> & S7 & G7 & I7 & _ & M7); cbn
     end);
    (eexists; (split; [done|]); cbn in *);
    rewrite ?S7, ?G7, ?I7, ?M7; cbn;
    rewrite ?S6, ?G6, ?I6, ?M6; cbn in *;
    rewrite ?S5, ?G5, ?I5; cbn;
    simplify_eq;
    (repeat split; try done;
     try (apply elem_of_app; right; by apply list_elem_of_singleton);
     try lia);
    intros Ha; rewrite (M5' Ha); cbn; congruence.
Qed.

Local Transparent acquireWakeLock registerServiceWorker
  enableBackgroundGestures new_Notification.

(** X12.  A [start()] that succeeds and the [stop()] that follows it, no
    release failing: the service is running in between and stopped
    afterwards, and the location watch and the heartbeat timer that
    [start] set up are cancelled.  The [devicemotion] listener is the
    exception: [stop] never removes it, so every start/stop cycle on a
    device that delivers motion events leaves one more listener
    installed. *)
Theorem start_stop_balance env childCode w :
  isRunning (svc w) = false →
  starts env childCode →
  watchPosition_id env ≠ 0 → setInterval_id env ≠ 0 →
  let w1 := after (start env childCode) w in
  let w2 := cycle env childCode w in
  isRunning (svc w1) = true
  ∧ isRunning (svc w2) = false
  ∧ (truthy_string childCode = true →
       watchPosition_id env ∈ geo_watches (plat w1)
       ∧ watchPosition_id env ∉ geo_watches (plat w2))
  ∧ (setInterval_id env ∈ intervals (plat w1)
     ∧ setInterval_id env ∉ intervals (plat w2))
  ∧ (adds_listener env →
       ∀ n, motion_listeners (plat (Nat.iter n (cycle env childCode) w))
            = (n + motion_listeners (plat w))%nat).
Proof.
  intros Hrun Hstarts Hwid Hiid w1 w2.
  destruct (start_tracked env childCode w Hrun Hstarts)
    as (w1' & E & R1 & Hlw & Hhb & Hiv & _ & _).
  assert (w1 = w1') as Hw1 by (unfold w1, after; by rewrite E).
  destruct (stop_clean w1' R1) as (R2 & Hgeo & Hint & Hwl & _).
  assert (w2 = after (stop no_failure) w1') as Hw2
    by (unfold w2, cycle; by rewrite <- Hw1).
  rewrite Hw1, Hw2.
  split; [done|]. split; [done|]. split; [|split].
  - intros Hcc. destruct (Hlw Hcc) as [Hid Hin]. split; [done|].
    by apply Hgeo.
  - split; [done|]. by apply Hint.
  - intros Hadds n. clear - Hrun Hstarts Hadds.
    assert (isRunning (svc (Nat.iter n (cycle env childCode) w)) = false
            ∧ motion_listeners (plat (Nat.iter n (cycle env childCode) w))
              = (n + motion_listeners (plat w))%nat) as [_ ?]; [|done].
    induction n as [|n [IHr IHm]]; [done|]. rewrite Nat.iter_succ.
    set (v := Nat.iter n (cycle env childCode) w) in *.
    destruct (start_tracked env childCode v IHr Hstarts)
      as (v1 & E & R1 & _ & _ & _ & _ & Hm).
    destruct (stop_clean v1 R1) as (R2 & _ & _ & _ & Hm2).
    assert (cycle env childCode v = after (stop no_failure) v1) as ->
      by (unfold cycle, after; by rewrite E).
    split; [done|]. rewrite Hm2, (Hm Hadds), IHm. done.
Qed.

(** X13.  A [start()] that fails after taking the wake lock leaks it.  With
    a child code given and no geolocation, [start] returns [false] with
    the service not running, but the wake lock acquired before the failure
    is still held, the heartbeat was never started, and [stop()] is then
    a no-op: nothing releases the lock. *)
Theorem failed_start_keeps_lock env childCode h renv w :
  isRunning (svc w) = false →
  truthy_string childCode = true →
  geolocation_api env = false →
  wakeLock_api env = true →
  wakeLock_request env = Some h →
  let w1 := after (start env childCode) w in
  outcome (start env childCode) w = Normal false
  ∧ isRunning (svc w1) = false
  ∧ wakeLock (svc w1) = Some h
  ∧ h ∈ wake_locks (plat w1)
  ∧ heartbeatInterval (svc w1) = heartbeatInterval (svc w)
  ∧ intervals (plat w1) = intervals (plat w)
  ∧ after (stop renv) w1 = w1.
Proof.
  intros Hrun Hcc Hgeo Hapi Hreq.
  unfold start, stop, outcome, after, acquireWakeLock,
    registerServiceWorker, startLocationTracking.
  cbn. rewrite Hrun, Hapi, Hreq, Hcc, Hgeo. cbn.
  destruct (serviceWorker_api env), (serviceWorker_register env); cbn;
    rewrite ?Hrun; cbn; repeat split; try done;
    apply elem_of_app; right; by apply list_elem_of_singleton.
Qed.

Lemma start_stop_balance_witness :
  isRunning (svc (cycle full_browser (Some "child42") stopped)) = false
  ∧ motion_listeners
      (plat (Nat.iter 3 (cycle full_browser (Some "child42")) stopped))
    = 3%nat.
Proof.
  destruct (start_stop_balance full_browser (Some "child42") stopped)
    as (_ & Hstopped & _ & _ & Hleak).
  - reflexivity.
  - split; [reflexivity | discriminate].
  - discriminate.
  - discriminate.
  - split; [exact Hstopped|].
    assert (Hadds : adds_listener full_browser)
      by (split; [reflexivity | discriminate]).
    rewrite (Hleak Hadds 3%nat). reflexivity.
Defined.

Lemma failed_start_keeps_lock_witness :
  let w1 := after (start no_geolocation (Some "child42")) stopped in
  outcome (start no_geolocation (Some "child42")) stopped = Normal false
  ∧ wake_locks (plat (after (stop no_failure) w1)) = [3].
Proof.
  destruct (failed_start_keeps_lock no_geolocation (Some "child42") 3
              no_failure stopped eq_refl eq_refl eq_refl eq_refl eq_refl)
    as (Hout & _ & _ & _ & _ & _ & Hnoop).
  split; [exact Hout|]. cbn zeta. rewrite Hnoop. vm_compute. reflexivity.
Defined.

End BackgroundServiceCoverage.

Section BackgroundServiceRestart.
Import BackgroundService.

(** X21.  The restart that follows a location error starts a second watch
    without clearing the first: on a running service whose watch [a] is
    live, the restart registers the new watch, keeps [a] live and forgets
    its id, so that the [stop()] that follows clears the new watch only
    and leaves [a] running with the service stopped.  On a stopped service
    the restart does nothing. *)
Theorem location_restart_leaks_watch env a w :
  locationWatchId (svc w) = Some a →
  a ∈ geo_watches (plat w) →
  geolocation_api env = true →
  watchPosition_id env ≠ a →
  watchPosition_id env ≠ 0 →
  let b := watchPosition_id env in
  let w1 := after (restartLocationTracking env) w in
  (isRunning (svc w) = false → w1 = w)
  ∧ (isRunning (svc w) = true →
       outcome (restartLocationTracking env) w = Normal tt
       ∧ locationWatchId (svc w1) = Some b
       ∧ geo_watches (plat w1) = geo_watches (plat w) ++ [b]
       ∧ (let w2 := after (stop no_failure) w1 in
          isRunning (svc w2) = false
          ∧ locationWatchId (svc w2) = None
          ∧ (b ∉ geo_watches (plat w2))
          ∧ a ∈ geo_watches (plat w2))).
Proof.
  intros Hid Ha Hgeo Hne Hnz. cbn zeta.
  destruct w as [[run lw hb wl sw] [gw iv wls inbox ml nt ll lr]].
  cbn in Hid, Ha. subst lw.
  unfold restartLocationTracking, startLocationTracking, after, outcome.
  rewrite Hgeo. split; intros Hrun; cbn in Hrun; subst run; [done|].
  assert (Hb : watchPosition_id env ∉ remove (watchPosition_id env)
                 (gw ++ [watchPosition_id env]))
    by apply not_in_remove.
  assert (Hin : a ∈ remove (watchPosition_id env)
                  (gw ++ [watchPosition_id env])).
  { unfold remove. apply list_elem_of_filter. split; [done|].
    apply elem_of_app. by left. }
  unfold stop, wakeLock_release, release_listener.
  destruct hb as [hb|], wl as [wl|], sw as [sw|]; cbn;
    repeat match goal with
           | |- context [?n =? 0] => destruct (Z.eqb_spec n 0); cbn
           | |- context [bool_decide (?x ∈ ?l)] =>
               destruct (decide (x ∈ l));
               [rewrite !(bool_decide_eq_true_2 (x ∈ l)) by done
               |rewrite !(bool_decide_eq_false_2 (x ∈ l)) by done]; cbn
           end; repeat split; done.
Qed.

(** The running service of [running], whose watch 1 reports an error; the
    browser hands out 7 for the next watch. *)
Lemma location_restart_leaks_watch_witness :
  let w1 := after (restartLocationTracking (next_watch 7)) running in
  geo_watches (plat w1) = [1; 7]
  ∧ geo_watches (plat (after (stop no_failure) w1)) = [1].
Proof.
  destruct (location_restart_leaks_watch (next_watch 7) 1 running
              eq_refl ltac:(by apply list_elem_of_singleton) eq_refl
              ltac:(done) ltac:(done))
    as (_ & Hrun).
  destruct (Hrun eq_refl) as (_ & _ & Hw & _).
  cbn zeta. split; [exact Hw|reflexivity].
Defined.

End BackgroundServiceRestart.

Section OfflineManagerCoverage.
Import OfflineManager.
Context `{JSON}.

Local Opaque saveOfflineData syncAction syncWhenOnline.
Local Arguments Nat.ltb : simpl never.
Local Arguments Nat.eqb : simpl never.
Local Arguments lookup : simpl never.
Local Arguments alter : simpl never.
Local Arguments insert : simpl never.

Local Ltac saved :=
  match goal with
  | |- context [saveOfflineData ?w] =>
      let i := fresh "i" in
      destruct (saveOfflineData_run w) as [i ->]
  end.

(** *** While offline nothing is sent *)

Lemma offline_step w e :
  e ≠ Online →
  isOnline (mgr w) = false → drains w = [] →
  isOnline (mgr (step w e)) = false ∧ drains (step w e) = []
  ∧ remote (step w e) = remote w ∧ dispatched (step w e) = dispatched w
  ∧ syncInProgress (mgr (step w e)) = syncInProgress (mgr w).
Proof.
  intros He Hoff Hd.
  destruct e as [| |hidden| |t dat now rnd|k dat now|now| |i env now];
    try done.
  - unfold step, after, handle. cbn. rewrite Hoff, andb_false_r. by cbn.
  - unfold step, after, handle. cbn. rewrite Hoff. by cbn.
  - destruct (queueAction_step t dat now rnd w) as [i ->]. cbn zeta.
    rewrite Hoff. by cbn.
  - unfold step, after, handle, storeOfflineData.
    destruct k; cbn; saved; by cbn.
  - unfold step, after, handle, clearOfflineData. cbn. saved. by cbn.
  - unfold step, after, handle. rewrite syncWhenOnline_run. cbn [snd].
    rewrite Hoff. by cbn.
  - rewrite step_Settle_idle; [done|]. by rewrite Hd.
Qed.

(** X1.  While the manager is offline and no drain is in flight, no
    sequence of events other than [online] (enqueues, cache writes,
    clears, visibility changes, periodic ticks, direct calls of
    [syncWhenOnline]) dispatches anything: the remote store receives no
    write and no drain is started. *)
Theorem offline_never_dispatches es : ∀ w,
  isOnline (mgr w) = false →
  drains w = [] →
  Forall (λ e, e ≠ Online) es →
  remote (run es w) = remote w
  ∧ dispatched (run es w) = dispatched w
  ∧ drains (run es w) = []
  ∧ isOnline (mgr (run es w)) = false.
Proof.
  induction es as [|e es IH]; intros w Hoff Hd Hes; [done|].
  apply Forall_cons in Hes as [He Hes]. rewrite run_cons.
  destruct (offline_step w e He Hoff Hd) as (Hoff' & Hd' & Hr & Hdisp & _).
  destruct (IH (step w e) Hoff' Hd' Hes) as (-> & -> & -> & ->).
  by rewrite Hr, Hdisp.
Qed.

(** *** A store that refuses writes *)


(** X6.  When the store refuses writes (quota exceeded), [queueAction] still
    returns the new id without throwing and the action is queued in
    memory, but the store is left exactly as it was: a manager constructed
    from it afterwards is the one that would have been constructed before
    the call. *)
Theorem queueAction_store_full t data now rnd w :
  wf_queue w →
  writable (localStorage w) = false →
  let a := new_action t data now rnd in
  let w1 := after (queueAction t data now rnd) w in
  outcome (queueAction t data now rnd) w = Normal (id a)
  ∧ queued w1 = queued w ++ [a]
  ∧ localStorage w1 = localStorage w
  ∧ ∀ onLine' now' w0,
      constructor (localStorage w1) onLine' now' w0
      = constructor (localStorage w) onLine' now' w0.
Proof.
  intros Hwf Hw. cbn zeta.
  assert (Hst : localStorage (after (queueAction t data now rnd) w)
                = localStorage w
                ∧ outcome (queueAction t data now rnd) w
                  = Normal (id (new_action t data now rnd))
                ∧ queued (after (queueAction t data now rnd) w)
                  = queued w ++ [new_action t data now rnd]).
  { unfold queueAction, outcome, after. cbn.
    rewrite saveOfflineData_unwritable by done. cbn.
    assert (Hq : omap (λ r, (heap (mgr w) ++ [new_action t data now rnd]) !! r)
                   (syncQueue (mgr w) ++ [length (heap (mgr w))])
                 = queued w ++ [new_action t data now rnd]).
    { unfold queued. rewrite omap_app. cbn.
      rewrite lookup_app_r, Nat.sub_diag by lia. cbn.
      by rewrite omap_lookup_app. }
    destruct (isOnline (mgr w)); cbn; [rewrite syncWhenOnline_run|];
      cbn; repeat (case_match; cbn); repeat split; try done; apply Hq. }
  destruct Hst as (Hst & Hout & Hq). repeat split; try done.
  intros onLine' now' w0. by rewrite Hst.
Qed.

(** *** What one dispatch can do *)

Local Transparent syncAction.

Local Ltac write_case :=
  match goal with
  | |- context [write_resolves ?env ?op] =>
      destruct (write_resolves env op) eqn:?; cbn
  end.

(** Name the result and the writes a finished dispatch has made. *)
Local Ltac written :=
  match goal with
  | |- ∃ b ops, (Normal ?x, (?l ++ [?o1]) ++ [?o2]) = _ ∧ _ =>
      exists x, [o1; o2]; rewrite <- app_assoc
  | |- ∃ b ops, (Normal ?x, ?l ++ [?o1]) = _ ∧ _ => exists x, [o1]
  | |- ∃ b ops, (Normal ?x, ?l) = _ ∧ _ => exists x, []; rewrite app_nil_r
  end;
  repeat split; try done; try apply prefix_nil; try (by eexists).

(** X4.  [syncAction] never throws, whatever the remote does and whatever
    the action holds.  The writes it has had accepted are an initial part,
    in order, of the writes its kind calls for; it returns [true] only when
    all of them were accepted; and for an action it cannot dispatch (an
    unknown type, or a payload whose fields cannot be read) it returns
    [false] without a single write. *)
Theorem syncAction_contained env a l :
  ∃ b ops,
    syncAction env a l = (Normal b, l ++ ops)
    ∧ ops `prefix_of` remote_writes a
    ∧ (b = true → dispatchable a = true ∧ ops = remote_writes a)
    ∧ (dispatchable a = false → b = false ∧ ops = []).
Proof.
  unfold syncAction, remote_write, get_prop, remote_writes, dispatchable,
    has_fields, field.
  cbn.
  destruct (import_resolves env); cbn; [|written].
  destruct (String.eqb_spec (type a) "location") as [E|_];
    [rewrite ?E; cbn;
     destruct (data a) as [[]|]; cbn; repeat write_case; written|].
  destruct (String.eqb_spec (type a) "message") as [E|_];
    [rewrite ?E; cbn;
     destruct (data a) as [[]|]; cbn; repeat write_case; written|].
  destruct (String.eqb_spec (type a) "sos") as [E|_];
    [rewrite ?E; cbn; repeat write_case; written|].
  destruct (String.eqb_spec (type a) "status") as [E|_];
    [rewrite ?E; cbn;
     destruct (data a) as [[]|]; cbn; repeat write_case; written|].
  cbn. written.
Qed.

Local Opaque syncAction.

(** *** What no event does to a queued action *)

Lemma step_Settle_heap w i env now :
  heap (mgr (step w (Settle i env now))) = heap (mgr w)
  ∨ ∃ r, heap (mgr (step w (Settle i env now)))
         = alter bump r (heap (mgr w)).
Proof.
  unfold step, after, handle, resume.
  destruct w as [m st ds nt disp rem]. cbn.
  destruct (ds !! i) as [d|]; cbn; [|by left].
  destruct (actionsToSync d !! cursor d) as [r|]; cbn; [|by left].
  destruct (heap m !! r) as [a|] eqn:Ha; cbn; [|by left].
  destruct (syncAction_normal env a rem) as [b Hb].
  destruct (syncAction env a rem) as [res rem'].
  cbn in Hb. subst res. cbn.
  unfold loop_body, count_retry, action_id, finish. cbn.
  destruct b; cbn.
  - rewrite Ha. cbn.
    destruct (S (cursor d) <? length (actionsToSync d))%nat; cbn;
      [by left|]. saved. by left.
  - rewrite list_lookup_alter_eq, Ha. cbn.
    destruct (maxRetries <=? retryCount a + 1); cbn;
      destruct (S (cursor d) <? length (actionsToSync d))%nat; cbn;
      try saved; right; by exists r.
Qed.

Lemma step_heap w e :
  heap (mgr (step w e)) = heap (mgr w)
  ∨ (∃ r, heap (mgr (step w e)) = alter bump r (heap (mgr w)))
  ∨ (∃ a, heap (mgr (step w e)) = heap (mgr w) ++ [a]).
Proof.
  destruct e as [| |hidden| |t dat now rnd|k dat now|now| |i env now].
  - rewrite step_Online. unfold step, after, handle.
    rewrite syncWhenOnline_run. cbn [snd]. left. by case_match.
  - by left.
  - left. unfold step, after, handle. cbn.
    destruct (negb hidden && isOnline (mgr w)); cbn; [|done].
    rewrite syncWhenOnline_run. cbn [snd]. by case_match.
  - left. unfold step, after, handle. cbn.
    destruct (isOnline (mgr w) && (0 <? length (syncQueue (mgr w)))%nat);
      cbn; [|done].
    rewrite syncWhenOnline_run. cbn [snd]. by case_match.
  - right. right. exists (new_action t dat now rnd).
    destruct (queueAction_step t dat now rnd w) as [i ->]. cbn zeta.
    destruct (isOnline (mgr w)); [|done].
    rewrite syncWhenOnline_run. cbn [snd]. by case_match.
  - left. unfold step, after, handle, storeOfflineData.
    destruct k; cbn; saved; done.
  - left. unfold step, after, handle, clearOfflineData. cbn. saved. done.
  - left. unfold step, after, handle.
    rewrite syncWhenOnline_run. cbn [snd]. by case_match.
  - destruct (step_Settle_heap w i env now) as [?|?]; [by left|].
    right. by left.
Qed.

(** X5.  Whatever happens (enqueues, drains that succeed or fail, clears,
    connectivity changes), an action object once created keeps its [id],
    [type], payload and [timestamp]; only its [retryCount] changes, and it
    never goes down. *)
Theorem action_fields_fixed es : ∀ w r a,
  heap (mgr w) !! r = Some a →
  ∃ a', heap (mgr (run es w)) !! r = Some a'
        ∧ id a' = id a ∧ type a' = type a ∧ data a' = data a
        ∧ timestamp a' = timestamp a
        ∧ retryCount a ≤ retryCount a'.
Proof.
  induction es as [|e es IH]; intros w r a Ha.
  { exists a. repeat split; try done; lia. }
  rewrite run_cons.
  assert (∃ a1, heap (mgr (step w e)) !! r = Some a1
                ∧ id a1 = id a ∧ type a1 = type a ∧ data a1 = data a
                ∧ timestamp a1 = timestamp a
                ∧ retryCount a ≤ retryCount a1) as (a1 & Ha1 & ? & ? & ? & ? & ?).
  { destruct (step_heap w e) as [->|[[r0 ->]|[a0 ->]]].
    - exists a. repeat split; try done; lia.
    - destruct (decide (r0 = r)) as [->|Hne].
      + exists (bump a). rewrite list_lookup_alter_eq, Ha. cbn.
        repeat split; try done; lia.
      + exists a. rewrite list_lookup_alter_ne by done.
        repeat split; try done; lia.
    - exists a. rewrite lookup_app_l by (by eapply lookup_lt_Some).
      repeat split; try done; lia. }
  destruct (IH (step w e) r a1 Ha1) as (a' & Ha' & ? & ? & ? & ? & ?).
  exists a'. repeat split; try congruence; lia.
Qed.

(** *** The cache *)

Lemma assoc_obj_set k k' v f :
  assoc k (obj_set k' v f) = if String.eqb k k' then Some v else assoc k f.
Proof.
  induction f as [|[k0 v0] f IH]; cbn.
  - by destruct (String.eqb k k').
  - destruct (String.eqb_spec k' k0) as [->|Hne]; cbn.
    + by destruct (String.eqb k k0).
    + rewrite IH. destruct (String.eqb_spec k k') as [->|?]; [|done].
      by destruct (String.eqb_spec k' k0).
Qed.

Lemma last_trim_snoc l (x : json) : last (trim (l ++ [x])) = Some x.
Proof.
  unfold trim. rewrite length_app. cbn.
  destruct (Nat.ltb_spec 100 (length l + 1)); [|apply last_snoc].
  rewrite drop_app_le by lia. apply last_snoc.
Qed.

(** X7.  What [storeOfflineData] stores can be read back: the newest entry
    of the category is the payload's own properties with [_offline: true]
    and [_timestamp] set to the time of the call.  Every other property of
    an object payload is kept as it was; a payload that already had
    [_offline] or [_timestamp] has them overwritten. *)
Theorem stored_entry_read_back k data now w :
  k ≠ KlastSync →
  ∃ e, last (getOfflineData k (after (storeOfflineData k data now) w))
       = Some e
       ∧ prop e "_offline" = Some (JBool true)
       ∧ prop e "_timestamp" = Some (JNum now)
       ∧ ∀ fields name,
           data = Some (JObj fields) →
           name ≠ "_offline" → name ≠ "_timestamp" →
           prop e name = prop (JObj fields) name.
Proof.
  intros Hk. exists (cache_entry data now).
  rewrite storeOfflineData_category by done.
  split; [apply last_trim_snoc|].
  unfold cache_entry. cbn. rewrite !assoc_obj_set. cbn.
  repeat split; try done.
  intros fields name -> Hoff Hts. rewrite !assoc_obj_set.
  destruct (String.eqb_spec name "_timestamp"); [done|].
  by destruct (String.eqb_spec name "_offline").
Qed.

Lemma step_Settle_offlineData w i env now k :
  getOfflineData k (step w (Settle i env now)) = getOfflineData k w.
Proof.
  unfold step, after, handle, resume, getOfflineData.
  destruct w as [m st ds nt disp rem]. cbn.
  destruct (ds !! i) as [d|]; cbn; [|done].
  destruct (actionsToSync d !! cursor d) as [r|]; cbn; [|done].
  destruct (heap m !! r) as [a|] eqn:Ha; cbn; [|done].
  destruct (syncAction_normal env a rem) as [b Hb].
  destruct (syncAction env a rem) as [res rem'].
  cbn in Hb. subst res. cbn.
  unfold loop_body, count_retry, action_id, finish. cbn.
  destruct b; cbn.
  - rewrite Ha. cbn.
    destruct (S (cursor d) <? length (actionsToSync d))%nat; cbn;
      [done|]. saved. cbn. by destruct k.
  - rewrite list_lookup_alter_eq, Ha. cbn.
    destruct (maxRetries <=? retryCount a + 1); cbn;
      destruct (S (cursor d) <? length (actionsToSync d))%nat; cbn;
      try saved; cbn; by destruct k.
Qed.

Lemma step_category w e k :
  getOfflineData k (step w e) = getOfflineData k w
  ∨ (∃ data now, getOfflineData k (step w e)
                 = trim (getOfflineData k w ++ [cache_entry data now]))
  ∨ getOfflineData k (step w e) = [].
Proof.
  destruct e as [| |hidden| |t dat now rnd|k' dat now|now| |i env now].
  - left. rewrite step_Online. unfold step, after, handle.
    rewrite syncWhenOnline_run. cbn [snd]. by case_match.
  - by left.
  - left. unfold step, after, handle. cbn.
    destruct (negb hidden && isOnline (mgr w)); cbn; [|done].
    rewrite syncWhenOnline_run. cbn [snd]. by case_match.
  - left. unfold step, after, handle. cbn.
    destruct (isOnline (mgr w) && (0 <? length (syncQueue (mgr w)))%nat);
      cbn; [|done].
    rewrite syncWhenOnline_run. cbn [snd]. by case_match.
  - left. destruct (queueAction_step t dat now rnd w) as [i ->]. cbn zeta.
    destruct (isOnline (mgr w)); [|done].
    rewrite syncWhenOnline_run. cbn [snd]. by case_match.
  - change (step w (StoreOfflineData k' dat now))
      with (after (storeOfflineData k' dat now) w).
    destruct k', k;
      first [ right; left; exists dat, now;
              by apply storeOfflineData_category
            | left; by apply storeOfflineData_other
            | left; unfold after, storeOfflineData, getOfflineData; cbn;
              try saved; done ].
  - right. right. unfold step, after, handle, clearOfflineData,
      getOfflineData. cbn. saved. by destruct k.
  - left. unfold step, after, handle.
    rewrite syncWhenOnline_run. cbn [snd]. by case_match.
  - left. apply step_Settle_offlineData.
Qed.

(** X8.  The cap is an invariant of the whole manager: if no category
    holds more than 100 entries, none does after any sequence of events
    (cache writes, enqueues, drains, clears, connectivity changes). *)
Theorem cache_bounded_always es : ∀ w,
  (∀ k, (length (getOfflineData k w) ≤ 100)%nat) →
  ∀ k, (length (getOfflineData k (run es w)) ≤ 100)%nat.
Proof.
  induction es as [|e es IH]; intros w Hcap k; [apply Hcap|].
  rewrite run_cons. apply IH. clear k. intros k.
  destruct (step_category w e k) as [-> | [(dat & now & ->) | ->]].
  - apply Hcap.
  - apply trim_length. rewrite length_app. cbn.
    specialize (Hcap k). lia.
  - cbn. lia.
Qed.

(** *** What a drain leaves behind *)

Lemma settle_pure_settled st r env a :
  st.1.1 !! r = Some a →
  ∃ a', (settle_pure st (r, env)).1.1 !! r = Some a'
        ∧ (id a' ∈ (settle_pure st (r, env)).1.2
           ∨ retryCount a' < maxRetries).
Proof.
  intros Ha. unfold settle_pure. cbn [fst snd]. rewrite Ha.
  destruct (syncAction env a st.2).1 as [[]|]; cbn [fst snd].
  - exists a. split; [done|]. left. apply elem_of_app. right.
    by apply list_elem_of_singleton.
  - exists (bump a). rewrite list_lookup_alter_eq, Ha. split; [done|].
    destruct (Z.leb_spec maxRetries (retryCount a + 1)).
    + left. apply elem_of_app. right. by apply list_elem_of_singleton.
    + by right.
  - exists (bump a). rewrite list_lookup_alter_eq, Ha. split; [done|].
    destruct (Z.leb_spec maxRetries (retryCount a + 1)).
    + left. apply elem_of_app. right. by apply list_elem_of_singleton.
    + by right.
Qed.

Lemma settle_pure_elsewhere st x r s :
  x.1 ≠ r →
  (settle_pure st x).1.1 !! r = st.1.1 !! r
  ∧ (s ∈ st.1.2 → s ∈ (settle_pure st x).1.2).
Proof.
  intros Hne. unfold settle_pure.
  destruct (st.1.1 !! x.1) as [a|]; [|done].
  destruct (syncAction x.2 a st.2).1 as [[]|]; cbn [fst snd];
    rewrite ?list_lookup_alter_ne by done;
    (split; [done|]); try case_match; rewrite ?elem_of_app; auto.
Qed.

Lemma drain_pure_snoc h ss l todo x :
  drain_pure h ss l (todo ++ [x])
  = settle_pure (drain_pure h ss l todo) x.
Proof. unfold drain_pure. by rewrite fold_left_app. Qed.

Lemma drain_pure_settled h ss l todo : ∀ r,
  r ∈ todo.*1 → (r < length h)%nat →
  ∃ a', (drain_pure h ss l todo).1.1 !! r = Some a'
        ∧ (id a' ∈ (drain_pure h ss l todo).1.2
           ∨ retryCount a' < maxRetries).
Proof.
  induction todo as [|[r0 env] todo IH] using rev_ind; intros r Hr Hlt.
  { by apply elem_of_nil in Hr. }
  rewrite drain_pure_snoc.
  set (st := drain_pure h ss l todo) in *.
  destruct (decide (r0 = r)) as [->|Hne].
  - assert (is_Some (st.1.1 !! r)) as [a Ha].
    { apply lookup_lt_is_Some. unfold st. by rewrite drain_pure_length. }
    by apply (settle_pure_settled st r env a).
  - rewrite fmap_app in Hr. cbn in Hr.
    apply elem_of_app in Hr as [Hr| ->%list_elem_of_singleton]; [|done].
    destruct (IH r Hr Hlt) as (a' & Ha' & Hleft).
    exists a'.
    split; [by rewrite (proj1 (settle_pure_elsewhere st (r0, env) r "" Hne))|].
    destruct Hleft as [Hin|?]; [left|by right].
    by apply (settle_pure_elsewhere st (r0, env) r).
Qed.

Local Arguments saveOfflineData : simpl never.

Lemma resume_finish_saved w d r a env now :
  drains w = [d] →
  actionsToSync d !! cursor d = Some r →
  heap (mgr w) !! r = Some a →
  (length (actionsToSync d) ≤ S (cursor d))%nat →
  writable (localStorage w) = true →
  let w' := step w (Settle 0 env now) in
  items (localStorage w') !! "safestep_sync_queue"
  = Some (JSON_stringify (queue_to_json (mgr w'))).
Proof.
  intros Hd Hr Ha Hge Hw. cbn zeta. unfold step, after, handle, resume.
  destruct w as [m st ds nt disp rem].
  cbn [drains mgr remote nextTag dispatched localStorage] in *. subst ds.
  cbn. change ([d] !! 0%nat) with (Some d). cbn. rewrite Hr, Ha. cbn.
  destruct (syncAction_normal env a rem) as [b Hb].
  destruct (syncAction env a rem) as [res rem'] eqn:Hsent.
  cbn in Hb. subst res. cbn.
  unfold loop_body, count_retry, action_id, finish. cbn.
  assert (Hnlt : (S (cursor d) <? length (actionsToSync d))%nat = false)
    by (apply Nat.ltb_ge; lia).
  destruct b; cbn.
  - rewrite Ha. cbn. rewrite Hnlt. cbn.
    rewrite saveOfflineData_writable by done. cbn.
    by rewrite lookup_insert_eq.
  - rewrite list_lookup_alter_eq, Ha. cbn.
    destruct (maxRetries <=? retryCount a + 1); cbn; rewrite Hnlt; cbn;
      rewrite saveOfflineData_writable by done; cbn;
      by rewrite lookup_insert_eq.
Qed.

Lemma drain_loop_saved now envs : ∀ w d,
  drains w = [d] →
  (cursor d < length (actionsToSync d))%nat →
  length envs = (length (actionsToSync d) - cursor d)%nat →
  (∀ r, r ∈ actionsToSync d → (r < length (heap (mgr w)))%nat) →
  writable (localStorage w) = true →
  let w' := run (settle_all envs now) w in
  items (localStorage w') !! "safestep_sync_queue"
  = Some (JSON_stringify (queue_to_json (mgr w'))).
Proof.
  induction envs as [|env envs IH]; intros w d Hd Hc Hlen Hvalid Hw.
  { cbn in Hlen. lia. }
  destruct (lookup_lt_is_Some_2 (actionsToSync d) (cursor d) Hc) as [r Hr].
  assert (Hin : r ∈ actionsToSync d) by (by eapply list_elem_of_lookup_2).
  destruct (lookup_lt_is_Some_2 _ _ (Hvalid r Hin)) as [a Ha].
  cbn zeta. rewrite settle_all_cons, run_cons.
  destruct (decide (S (cursor d) < length (actionsToSync d))%nat) as [Hlt|Hge].
  - rewrite (resume_continue w d r a env now Hd Hr Ha Hlt).
    eapply (IH _ (with_cursor (S (cursor d)) _ d));
      [done | done | cbn in *; lia | | done].
    intros r' Hr'. cbn. rewrite settle_pure_length. cbn. by apply Hvalid.
  - assert (envs = []) as ->.
    { cbn in Hlen. destruct envs; [done|]. cbn in Hlen. lia. }
    change (run (settle_all [] now)) with (λ w : World, w). cbn beta.
    apply (resume_finish_saved w d r a); try done. lia.
Qed.

(** X3.  A drain started at rest and run to its end leaves in the queue
    only actions it was started with, in their original order, each with
    retries left ([retryCount] below [maxRetries]); it records the time as
    [lastSync], clears [syncInProgress], and, the store being writable,
    has persisted the queue as it now is, retry counters included. *)
Theorem drain_outcome w envs now :
  isOnline (mgr w) = true →
  syncInProgress (mgr w) = false →
  drains w = [] →
  wf_queue w →
  syncQueue (mgr w) ≠ [] →
  length envs = length (syncQueue (mgr w)) →
  let w' := run (SyncWhenOnline :: settle_all envs now) w in
  syncQueue (mgr w') `sublist_of` syncQueue (mgr w)
  ∧ (∀ r, r ∈ syncQueue (mgr w') →
       ∃ a', heap (mgr w') !! r = Some a' ∧ retryCount a' < maxRetries)
  ∧ lastSync (offlineData (mgr w')) = Some (JNum now)
  ∧ syncInProgress (mgr w') = false
  ∧ drains w' = []
  ∧ (writable (localStorage w) = true →
       items (localStorage w') !! "safestep_sync_queue"
       = Some (JSON_stringify (queue_to_json (mgr w')))).
Proof.
  intros Hon Hsip Hd Hwf Hne Hlen w'.
  destruct (drain_run now envs w) as [i Hi]; try done.
  fold w' in Hi.
  split; [|split; [|split; [|split; [|split]]]]; try (by rewrite Hi).
  - rewrite Hi. cbn. apply sublist_filter.
  - intros r. rewrite Hi. cbn [drained mgr syncQueue heap].
    intros [Hnot Hr]%list_elem_of_filter.
    destruct (drain_pure_settled (heap (mgr w)) [] (remote w)
                (zip (syncQueue (mgr w)) envs) r) as (a' & Ha' & Hleft).
    { rewrite fst_zip by lia. done. }
    { by apply Hwf. }
    exists a'. split; [done|]. destruct Hleft as [Hin|?]; [|done].
    exfalso. apply Hnot. unfold action_id. cbn. by rewrite Ha'.
  - intros Hw. unfold w'. rewrite run_cons.
    unfold step, after, handle. rewrite syncWhenOnline_run. cbn [snd].
    rewrite Hon, Hsip. cbn [negb orb].
    destruct (syncQueue (mgr w)) as [|r0 q] eqn:Hq; [done|].
    change (length (r0 :: q) =? 0)%nat with false. cbn [orb]. rewrite Hd.
    cbn [app].
    eapply (drain_loop_saved now envs _ (mkDrain (nextTag w) (r0 :: q) 0 []));
      [done | cbn; lia | cbn in *; lia | | done].
    intros r Hr. cbn. apply Hwf. by rewrite Hq.
Qed.

(** A drain at rest against a remote that accepts everything. *)
Lemma accepted_drain w envs now :
  isOnline (mgr w) = true →
  syncInProgress (mgr w) = false →
  drains w = [] →
  wf_queue w →
  syncQueue (mgr w) ≠ [] →
  length envs = length (syncQueue (mgr w)) →
  Forall always_succeeds envs →
  (∀ a, a ∈ queued w → dispatchable a = true) →
  let w' := run (SyncWhenOnline :: settle_all envs now) w in
  syncQueue (mgr w') = []
  ∧ remote w' = remote w ++ concat (remote_writes <$> queued w)
  ∧ drains w' = []
  ∧ syncInProgress (mgr w') = false.
Proof.
  intros Hon Hsip Hd Hwf Hne Hlen Henvs Hdisp w'.
  destruct (drain_run now envs w) as [i Hi]; try done.
  fold w' in Hi.
  pose proof (drain_pure_success (syncQueue (mgr w)) envs (heap (mgr w)) []
                (remote w) Hlen Henvs) as Hp.
  lapply Hp; [clear Hp; intros Hp|].
  2:{ intros r Hr. destruct (queued_lookup w r Hwf Hr) as (a & Ha & Hin).
      eauto. }
  rewrite Hp in Hi. rewrite Hi. cbn. repeat split; try done.
  apply filter_none. intros r Hr Hnot. apply Hnot.
  unfold action_id. cbn.
  destruct (queued_lookup w r Hwf Hr) as (a & Ha & _). rewrite Ha.
  apply list_elem_of_omap. exists r. by rewrite Ha.
Qed.

(** X2.  Enqueueing while online and idle starts a drain at once: when
    [queueAction] returns, a drain over the whole queue, the new action
    last, is in flight.  Against a remote that accepts every write it
    empties the queue and has issued the writes of every queued action,
    the new one included. *)
Theorem enqueue_online_drains t data now rnd w envs now' :
  isOnline (mgr w) = true →
  syncInProgress (mgr w) = false →
  drains w = [] →
  wf_queue w →
  let a := new_action t data now rnd in
  let w1 := step w (QueueAction t data now rnd) in
  let w2 := run (settle_all envs now') w1 in
  (drains w1 = [mkDrain (nextTag w)
                  (syncQueue (mgr w) ++ [length (heap (mgr w))]) 0 []]
   ∧ syncInProgress (mgr w1) = true
   ∧ queued w1 = queued w ++ [a])
  ∧ (length envs = S (length (syncQueue (mgr w))) →
     Forall always_succeeds envs →
     (∀ a', a' ∈ queued w ++ [a] → dispatchable a' = true) →
     syncQueue (mgr w2) = []
     ∧ remote w2 = remote w ++ concat (remote_writes <$> (queued w ++ [a]))).
Proof.
  intros Hon Hsip Hd Hwf a w1 w2.
  destruct (queueAction_step t data now rnd w) as [i Hstep].
  rewrite Hon in Hstep. cbn zeta in Hstep. fold a in Hstep.
  set (enq := enqueued w a i) in *.
  assert (Hw1 : w1 = step enq SyncWhenOnline) by done.
  assert (Hne : syncQueue (mgr enq) ≠ []).
  { cbn. intros Hnil. apply (f_equal length) in Hnil.
    rewrite length_app in Hnil. cbn in Hnil. lia. }
  split.
  - rewrite Hw1. unfold step, after, handle. rewrite syncWhenOnline_run.
    cbn [snd]. change (isOnline (mgr enq)) with (isOnline (mgr w)).
    change (syncInProgress (mgr enq)) with (syncInProgress (mgr w)).
    rewrite Hon, Hsip. cbn [negb orb].
    assert (Hlen : (length (syncQueue (mgr enq)) =? 0)%nat = false).
    { apply Nat.eqb_neq. cbn. rewrite length_app. cbn. lia. }
    rewrite Hlen. cbn [drains mgr syncInProgress set_syncInProgress].
    change (drains enq) with (drains w). rewrite Hd.
    repeat split; try done.
    apply (queued_enqueued w a i Hwf).
  - intros Hlen Henvs Hdisp.
    destruct (accepted_drain enq envs now') as (Hq & Hrem & _); try done.
    + by apply wf_enqueued.
    + cbn. rewrite length_app. cbn. lia.
    + intros a'. unfold enq. rewrite (queued_enqueued w a i) by done.
      apply Hdisp.
    + rewrite run_cons, <- Hw1 in Hq, Hrem. fold w2 in Hq, Hrem.
      split; [done|]. rewrite Hrem. unfold enq.
      by rewrite (queued_enqueued w a i).
Qed.

(** *** The cache across a restart *)

Lemma constructor_loaded st onLine now w0 s1 v1 s2 entries :
  readable st = true →
  items st !! "safestep_offline_data" = Some s1 → s1 ≠ "" →
  JSON_parse s1 = Some v1 →
  items st !! "safestep_sync_queue" = Some s2 → s2 ≠ "" →
  JSON_parse s2 = Some (JArr entries) →
  let w' := after (constructor st onLine now) w0 in
  offlineData (mgr w')
  = (if valid_offlineData v1 then as_OfflineData v1
     else empty_offlineData now)
  ∧ queued w' = omap as_QueuedAction (List.filter valid_item entries).
Proof.
  intros Hr H1 Hn1 Hp1 H2 Hn2 Hp2. cbn zeta.
  apply String.eqb_neq in Hn1, Hn2.
  unfold constructor, loadOfflineData, localStorage_getItem,
    resetOfflineData, parse, after.
  cbn. rewrite Hr. cbn. rewrite H1, H2. cbn. rewrite Hn1, Hp1. cbn.
  destruct (valid_offlineData v1);
    repeat (cbn; rewrite ?Hr, ?H2, ?Hn2, ?Hp2; try saved);
    (split; [done|]); unfold queued; cbn; apply omap_lookup_seq0.
Qed.

Lemma offlineData_json_valid d :
  valid_offlineData (offlineData_to_json d)
  = String.eqb (typeof (lastSync d)) "number".
Proof. by destruct d as [l m s [[]|]]. Qed.

Lemma offlineData_json_roundtrip d :
  as_OfflineData (offlineData_to_json d) = d.
Proof. by destruct d as [l m s [[]|]]. Qed.

Lemma storeOfflineData_saved k data now w :
  writable (localStorage w) = true →
  let w1 := after (storeOfflineData k data now) w in
  readable (localStorage w1) = readable (localStorage w)
  ∧ items (localStorage w1)
    = <["safestep_sync_queue" := JSON_stringify (queue_to_json (mgr w1))]>
        (<["safestep_offline_data" :=
             JSON_stringify (offlineData_to_json (offlineData (mgr w1)))]>
           (items (localStorage w))).
Proof.
  intros Hw. cbn zeta. unfold storeOfflineData, after.
  destruct k; cbn; by rewrite saveOfflineData_writable.
Qed.

(** X9.  The cache survives a restart exactly when its [lastSync] is a
    number.  After [storeOfflineData] on a writable store whose blobs
    the platform's [JSON] reads back, a manager constructed from the store
    holds the same offline data if [lastSync] is a number; if it is not
    (for instance after [storeOfflineData('lastSync', v)] with [v] not a
    number), the loader rejects the blob and every cached entry is gone. *)
Theorem cache_survives_restart k data now w onLine' now' w0 :
  let w1 := after (storeOfflineData k data now) w in
  let w2 := after (constructor (localStorage w1) onLine' now') w0 in
  writable (localStorage w) = true →
  readable (localStorage w) = true →
  JSON_parse "" = None →
  JSON_parse (JSON_stringify (offlineData_to_json (offlineData (mgr w1))))
    = Some (offlineData_to_json (offlineData (mgr w1))) →
  JSON_parse (JSON_stringify (queue_to_json (mgr w1)))
    = Some (queue_to_json (mgr w1)) →
  (typeof (lastSync (offlineData (mgr w1))) = "number" →
     offlineData (mgr w2) = offlineData (mgr w1))
  ∧ (typeof (lastSync (offlineData (mgr w1))) ≠ "number" →
       offlineData (mgr w2) = empty_offlineData now').
Proof.
  intros w1 w2 Hw Hr Hempty Hp1 Hp2.
  destruct (storeOfflineData_saved k data now w Hw) as (Hr1 & Hitems).
  fold w1 in Hr1, Hitems.
  assert (Hload :
    offlineData (mgr w2)
    = (if valid_offlineData (offlineData_to_json (offlineData (mgr w1)))
       then as_OfflineData (offlineData_to_json (offlineData (mgr w1)))
       else empty_offlineData now')).
  { rewrite queue_to_json_queued in Hp2, Hitems.
    eapply (constructor_loaded (localStorage w1) onLine' now' w0).
    - by rewrite Hr1.
    - rewrite Hitems. rewrite lookup_insert_ne by done.
      apply lookup_insert_eq.
    - intros Heq. rewrite Heq in Hp1. congruence.
    - done.
    - rewrite Hitems. apply lookup_insert_eq.
    - intros Heq. rewrite Heq in Hp2. congruence.
    - done. }
  rewrite offlineData_json_valid, offlineData_json_roundtrip in Hload.
  split; intros Hts; rewrite Hload.
  - by rewrite Hts.
  - destruct (String.eqb_spec (typeof (lastSync (offlineData (mgr w1))))
                "number"); done.
Qed.

End OfflineManagerCoverage.

Section CallerProperties.
Import OfflineManager.
Context `{JSON}.

Local Opaque saveOfflineData syncAction syncWhenOnline.
Local Arguments Nat.ltb : simpl never.
Local Arguments Nat.eqb : simpl never.
Local Arguments lookup : simpl never.
Local Arguments alter : simpl never.
Local Arguments insert : simpl never.

Local Ltac saved :=
  match goal with
  | |- context [saveOfflineData ?w] =>
      let i := fresh "i" in
      destruct (saveOfflineData_run w) as [i ->]
  end.

Lemma queueAction_eq t data now rnd w :
  ∃ i, queueAction t data now rnd w
       = (Normal (id (new_action t data now rnd)),
          let enq := enqueued w (new_action t data now rnd) i in
          if isOnline (mgr w) then (syncWhenOnline enq).2 else enq).
Proof.
  unfold queueAction. cbn. saved. exists i. cbn.
  destruct (isOnline (mgr w)) eqn:Hon; cbn; [|done].
  unfold enqueued, set_items. cbn. rewrite !syncWhenOnline_run. done.
Qed.

Lemma syncWhenOnline_queued w : queued (syncWhenOnline w).2 = queued w.
Proof. rewrite syncWhenOnline_run. cbn [snd]. by case_match. Qed.

Lemma syncWhenOnline_remote w : remote (syncWhenOnline w).2 = remote w.
Proof. rewrite syncWhenOnline_run. cbn [snd]. by case_match. Qed.


Local Opaque queueAction storeOfflineData.


(** X11.  [updateFirebaseLocation] drops a location update only when the
    offline manager cannot be loaded.  If both remote writes are accepted,
    the child's record is set and the location is pushed to the history,
    and nothing is queued.  If the imports or either write fail, no
    history entry has been pushed; when the import of the offline manager
    in the catch block resolves, the update is queued as a location action
    that can be dispatched: its later dispatch sets the child's record to
    the queued payload and pushes the same location to the history.  When
    that import fails too, the call rejects and nothing is queued. *)
Theorem location_update_fallback env offline_import locationData childCode
    now nowQ rnd w :
  let set_op := RSet ("children/" +:+ childCode)
                     (Some (childData locationData childCode now)) in
  let push_op := RPush ("children/" +:+ childCode +:+ "/locationHistory")
                       locationData in
  let a := new_action location
             (Some (queued_location locationData childCode)) nowQ rnd in
  let run_it := updateFirebaseLocation env offline_import locationData
                  childCode now nowQ rnd in
  let written := if import_resolves env && write_resolves env set_op
                 then [set_op] else [] in
  wf_queue w →
  (import_resolves env = true → write_resolves env set_op = true →
   write_resolves env push_op = true →
     outcome run_it w = Normal tt
     ∧ remote (after run_it w) = remote w ++ [set_op; push_op]
     ∧ queued (after run_it w) = queued w)
  ∧ (import_resolves env && write_resolves env set_op
     && write_resolves env push_op = false →
     (offline_import = true →
        outcome run_it w = Normal tt
        ∧ queued (after run_it w) = queued w ++ [a]
        ∧ dispatchable a = true
        ∧ remote_writes a
          = [RSet ("children/" +:+ childCode)
                  (Some (queued_location locationData childCode)); push_op]
        ∧ remote (after run_it w) = remote w ++ written)
     ∧ (offline_import = false →
          outcome run_it w = Thrown "import"
          ∧ queued (after run_it w) = queued w
          ∧ remote (after run_it w) = remote w ++ written)).
Proof.
  intros set_op push_op a run_it written Hwf.
  unfold run_it, written, updateFirebaseLocation, await_write, remote_write,
    outcome, after.
  split.
  - intros Himp Hset Hpush. cbn. rewrite Himp. cbn. fold set_op.
    rewrite Hset. cbn. fold push_op. rewrite Hpush. cbn.
    by rewrite <- app_assoc.
  - intros Hfail.
    assert (Hq : ∀ w0, wf_queue w0 → heap (mgr w0) = heap (mgr w) →
                  syncQueue (mgr w0) = syncQueue (mgr w) →
              ∃ w', queueAction location (data a) nowQ rnd w0
                      = (Normal (id a), w')
                    ∧ queued w' = queued w ++ [a]
                    ∧ remote w' = remote w0).
    { intros w0 Hwf0 Hh0 Hq0.
      destruct (queueAction_eq location (data a) nowQ rnd w0) as [i ->].
      eexists. split; [done|]. cbn zeta.
      change (new_action location (data a) nowQ rnd) with a.
      assert (queued (enqueued w0 a i) = queued w ++ [a]) as Hqd.
      { rewrite (queued_enqueued w0 a i Hwf0). unfold queued.
        by rewrite Hh0, Hq0. }
      destruct (isOnline (mgr w0));
        by rewrite ?syncWhenOnline_queued, ?syncWhenOnline_remote. }
    destruct offline_import.
    2:{ split; [done|]. intros _. cbn. fold set_op push_op.
        destruct (import_resolves env); cbn;
          [|by rewrite app_nil_r].
        destruct (write_resolves env set_op); cbn;
          [|by rewrite app_nil_r].
        destruct (write_resolves env push_op); cbn; done. }
    split; [intros _|done].
    cbn. fold set_op push_op.
    destruct (import_resolves env); cbn.
    2:{ destruct (Hq w Hwf eq_refl eq_refl) as (w' & Hrun & Hqd & Hrem).
        cbn in Hrun. unfold js_bind. rewrite Hrun. cbn.
        rewrite Hrem, app_nil_r.
        repeat split; try done; by destruct locationData. }
    destruct (write_resolves env set_op); cbn.
    2:{ destruct (Hq w Hwf eq_refl eq_refl) as (w' & Hrun & Hqd & Hrem).
        cbn in Hrun. unfold js_bind. rewrite Hrun. cbn.
        rewrite Hrem, app_nil_r.
        repeat split; try done; by destruct locationData. }
    destruct (write_resolves env push_op); cbn; [done|].
    match goal with
    | |- context [queueAction _ _ _ _ ?w0] =>
        destruct (Hq w0) as (w' & Hrun & Hqd & Hrem); [done|done|done|]
    end.
    cbn in Hrun. unfold js_bind. rewrite Hrun. cbn. rewrite Hrem.
    repeat split; try done; by destruct locationData.
Qed.

End CallerProperties.

Section VoiceCommandProperties.
Import VoiceCommandManager.

Lemma scan_phrases_spec command key handlers phrases :
  scan_phrases command key handlers phrases
  = if existsb (includes command) phrases then handlers !! key else None.
Proof.
  induction phrases as [|p phrases IH]; cbn; [done|].
  destruct (includes command p); cbn; [|done].
  rewrite IH. destruct (handlers !! key); [done|]. by case_match.
Qed.

Lemma scan_patterns_skip command handlers pre : ∀ rest,
  Forall (λ p, handlers !! p.2 = None ∨ matches command p = false) pre →
  scan_patterns command handlers (pre ++ rest)
  = scan_patterns command handlers rest.
Proof.
  induction pre as [|p pre IH]; intros rest Hpre; [done|].
  apply Forall_cons in Hpre as [Hp Hpre]. cbn.
  rewrite scan_phrases_spec. unfold matches in Hp.
  destruct Hp as [-> | ->]; [destruct (existsb _ _)|]; by apply IH.
Qed.

Lemma calls_emit e s :
  calls (emit e s)
  = calls s ++ match e with
               | CallHandler key command => [(key, command)]
               | _ => []
               end.
Proof. unfold calls. cbn. rewrite omap_app. by destruct e. Qed.

Lemma handleCommand_time command now s :
  commandCooldown <= now - lastCommandTime s →
  lastCommandTime (handleCommand command now s) = now.
Proof.
  intros Hcool. unfold handleCommand.
  destruct (Z.ltb_spec (now - lastCommandTime s) commandCooldown); [lia|].
  cbn [commandHandlers set_lastCommandTime].
  destruct (scan_patterns command (commandHandlers s) commandPatterns)
    as [[key h]|]; [|done].
  by destruct (h command).
Qed.

(** X18.  A command that arrives less than two seconds after the previous
    one that was let through is dropped, whatever it says: no handler
    runs (not even the SOS one), the user is only asked to wait, and the
    two seconds keep counting from the earlier command.  The earlier
    command starts the two seconds whether or not it was recognised. *)
Theorem cooldown_drops_command c1 c2 t1 t2 s :
  commandCooldown <= t1 - lastCommandTime s →
  t2 - t1 < commandCooldown →
  let s1 := handleCommand c1 t1 s in
  let s2 := handleCommand c2 t2 s1 in
  lastCommandTime s1 = t1
  ∧ calls s2 = calls s1
  ∧ lastCommandTime s2 = t1
  ∧ effects s2
    = effects s1 ++ [Speak "Please wait a moment before the next command."].
Proof.
  intros H1 H2. cbn zeta.
  pose proof (handleCommand_time c1 t1 s H1) as Ht.
  set (s1 := handleCommand c1 t1 s) in *. clearbody s1.
  split; [done|]. unfold handleCommand. rewrite Ht.
  destruct (Z.ltb_spec (t2 - t1) commandCooldown); [|lia].
  rewrite calls_emit, app_nil_r. by split.
Qed.

(** X16.  Of the commands a spoken sentence matches, the one that runs is
    the first in table order that has a handler, and it is the only one:
    [handleCommand] calls that handler once with the sentence, whether or
    not later entries match too.  When no entry with a handler matches, no
    handler is called and the list of available commands is scheduled. *)
Theorem first_match_runs command now s :
  commandCooldown <= now - lastCommandTime s →
  let s' := handleCommand command now s in
  lastCommandTime s' = now
  ∧ (∀ pre pattern post h,
       commandPatterns = pre ++ pattern :: post →
       Forall (λ p, commandHandlers s !! p.2 = None
                    ∨ matches command p = false) pre →
       commandHandlers s !! pattern.2 = Some h →
       matches command pattern = true →
       calls s' = calls s ++ [(pattern.2, command)])
  ∧ (Forall (λ p, commandHandlers s !! p.2 = None
                  ∨ matches command p = false) commandPatterns →
       calls s' = calls s
       ∧ last (effects s') = Some (SetTimeout ShowAvailableCommands 2000)).
Proof.
  intros Hcool. cbn zeta. unfold handleCommand.
  destruct (Z.ltb_spec (now - lastCommandTime s) commandCooldown); [lia|].
  cbn [commandHandlers set_lastCommandTime].
  split; [|split].
  - destruct (scan_patterns command (commandHandlers s) commandPatterns)
      as [[key h]|]; [|done].
    by destruct (h command).
  - intros pre pattern post h -> Hpre Hh Hm.
    rewrite scan_patterns_skip by done. cbn [scan_patterns].
    rewrite scan_phrases_spec. unfold matches in Hm. rewrite Hm, Hh.
    destruct (h command); rewrite !calls_emit; cbn;
      by rewrite !app_nil_r.
  - intros Hnone.
    rewrite <- (app_nil_r commandPatterns).
    rewrite scan_patterns_skip by done. cbn [scan_patterns].
    rewrite !calls_emit, !app_nil_r. split; [done|]. apply last_snoc.
Qed.

(** X17.  With the handlers of the child dashboard, every sentence that
    contains the words [panic siren] and none of the SOS phrases runs the
    handler that switches the siren on: the entry of [enable panic siren]
    lists the phrase [panic siren] and comes before that of [disable panic
    siren].  So the sentence [disable panic siren] switches the siren
    on. *)
Theorem panic_siren_phrase_enables run command now s :
  commandHandlers s = child_handlers run →
  commandCooldown <= now - lastCommandTime s →
  includes command "panic siren" = true →
  Forall (λ p, includes command p = false)
         ["send sos"; "sos"; "emergency"; "help me"; "need help";
          "call for help"] →
  calls (handleCommand command now s)
  = calls s ++ [("enable panic siren", command)].
Proof.
  intros Hh Hcool Hin Hsos. unfold handleCommand.
  destruct (Z.ltb_spec (now - lastCommandTime s) commandCooldown); [lia|].
  cbn [commandHandlers set_lastCommandTime]. rewrite Hh.
  unfold commandPatterns. cbn [scan_patterns fst snd].
  rewrite !scan_phrases_spec.
  assert (existsb (includes command)
            ["send sos"; "sos"; "emergency"; "help me"; "need help";
             "call for help"] = false) as ->.
  { apply not_true_is_false. intros (p & Hp & Hinc)%existsb_exists.
    rewrite Forall_forall in Hsos. apply list_elem_of_In in Hp.
    by rewrite (Hsos p Hp) in Hinc. }
  assert (existsb (includes command)
            ["enable panic siren"; "start siren"; "siren on";
             "panic siren"; "enable panic"; "start panic";
             "panic beeping"; "start beeping"; "loud beeping"] = true)
    as ->.
  { apply existsb_exists. exists "panic siren". split; [|done].
    cbn. tauto. }
  assert (child_handlers run !! "enable panic siren" = Some run) as ->
    by (by vm_compute).
  destruct (run command); rewrite !calls_emit; cbn;
    by rewrite !app_nil_r.
Qed.

Lemma cooldown_drops_command_witness :
  calls (handleCommand "send sos" 6999
           (handleCommand "good morning" 5000 child_voice)) = [].
Proof.
  destruct (cooldown_drops_command "good morning" "send sos" 5000 6999
              child_voice) as (_ & Hcalls & _).
  - vm_compute. discriminate.
  - reflexivity.
  - cbn zeta in Hcalls. rewrite Hcalls. vm_compute. reflexivity.
Defined.

Lemma first_match_runs_witness :
  calls (handleCommand "i need help please send sos" 5000 child_voice)
  = [("send sos", "i need help please send sos")].
Proof.
  destruct (first_match_runs "i need help please send sos" 5000 child_voice)
    as (_ & Hfirst & _).
  - vm_compute. discriminate.
  - apply (Hfirst [] _ _ (λ _, true) eq_refl).
    + apply Forall_nil_2.
    + vm_compute. reflexivity.
    + vm_compute. reflexivity.
Defined.

Lemma panic_siren_phrase_enables_witness :
  calls (handleCommand "disable panic siren" 5000 child_voice)
  = [("enable panic siren", "disable panic siren")].
Proof.
  apply (panic_siren_phrase_enables (λ _, true) "disable panic siren" 5000
           child_voice).
  - reflexivity.
  - vm_compute. discriminate.
  - vm_compute. reflexivity.
  - repeat (apply Forall_cons_2; [vm_compute; reflexivity|]).
    apply Forall_nil_2.
Defined.

End VoiceCommandProperties.

Section PermissionProperties.
Import PermissionManager.

(** X19.  [requestNotificationPermission] never throws.  It returns [true]
    only with the permission granted and the cached flag set.  A user who
    has denied the permission is not asked again, and in a browser without
    notifications nothing happens at all; there, however,
    [isNotificationPermissionGranted] throws unless the flag was already
    set.  If the user grants the permission but the test notification
    cannot be constructed, the call returns [false] with the flag set. *)
Theorem notification_permission_request a w :
  let w' := after (requestNotificationPermission a) w in
  (∃ b, outcome (requestNotificationPermission a) w = Normal b
        ∧ (b = true →
             Notification_permission (browser w') = granted
             ∧ notificationPermissionGranted (flags w') = true
             ∧ outcome isNotificationPermissionGranted w' = Normal true))
  ∧ (Notification_permission (browser w) = denied →
       outcome (requestNotificationPermission a) w = Normal false
       ∧ w' = w)
  ∧ (has_Notification (browser w) = false →
       outcome (requestNotificationPermission a) w = Normal false
       ∧ w' = w
       ∧ (notificationPermissionGranted (flags w) = false →
            outcome isNotificationPermissionGranted w'
            = Thrown "ReferenceError"))
  ∧ (has_Notification (browser w) = true →
     Notification_permission (browser w) = prompt →
     notification_answer a = Some granted →
     notification_constructor_throws a = true →
       outcome (requestNotificationPermission a) w = Normal false
       ∧ notificationPermissionGranted (flags w') = true).
Proof.
  destruct w as [[nf mf] [hn np hg hp n1 n2 sh]].
  destruct a as [na nc mq gr].
  unfold requestNotificationPermission, isNotificationPermissionGranted,
    Notification_requestPermission, new_Notification, outcome, after.
  cbn.
  split; [|split; [|split]].
  - destruct hn; cbn; [|by eexists].
    destruct np; cbn; try (by eexists).
    destruct na as [[]|]; cbn; try (by eexists).
    destruct nc; cbn; by eexists.
  - intros ->. by destruct hn.
  - intros ->. cbn. repeat split; try done. by intros ->.
  - by intros -> -> -> ->.
Qed.

(** X20.  [requestMicrophonePermission] throws exactly when [navigator]
    has a [mediaDevices] property whose value is not an object: the
    capability test is outside the [try].  Otherwise it does not throw,
    and when it returns [true] the cached flag is set.  Without
    [getUserMedia] it returns [false] and changes nothing.  When the
    permission query answers [denied] the microphone is not requested and
    the cached flag is left as it was, so a flag set by an earlier grant
    stays set; any other answer, or a failing query, goes on to
    [getUserMedia], whose outcome then becomes both the flag and the
    result. *)
Theorem microphone_permission_request a w :
  let w' := after (requestMicrophonePermission a) w in
  (mediaDevices (browser w) = MediaDevicesUndefined →
     outcome (requestMicrophonePermission a) w = Thrown "TypeError"
     ∧ w' = w)
  ∧ (mediaDevices (browser w) ≠ MediaDevicesUndefined →
     ∃ b, outcome (requestMicrophonePermission a) w = Normal b
          ∧ (b = true → isMicrophonePermissionGranted w' = true))
  ∧ (mediaDevices (browser w) = NoMediaDevices
     ∨ mediaDevices (browser w) = MediaDevicesObject false →
       outcome (requestMicrophonePermission a) w = Normal false
       ∧ w' = w)
  ∧ (mediaDevices (browser w) = MediaDevicesObject true →
     has_permissions (browser w) = true →
     microphone_query a = Some denied →
       outcome (requestMicrophonePermission a) w = Normal false
       ∧ w' = w)
  ∧ (mediaDevices (browser w) = MediaDevicesObject true →
     (has_permissions (browser w) = false ∨ microphone_query a = None
      ∨ microphone_query a = Some prompt) →
       outcome (requestMicrophonePermission a) w
       = Normal (getUserMedia_resolves a)
       ∧ isMicrophonePermissionGranted w' = getUserMedia_resolves a
       ∧ microphone_requests (browser w')
         = S (microphone_requests (browser w))).
Proof.
  destruct w as [[nf mf] [hn np md hp n1 n2 sh]].
  destruct a as [na nc mq gr].
  unfold requestMicrophonePermission, query_microphone, getUserMedia,
    isMicrophonePermissionGranted, outcome, after.
  cbn.
  split; [|split; [|split; [|split]]].
  - by intros ->.
  - intros Hmd. destruct md as [| |[]]; cbn; try done; try (by eexists).
    destruct hp; cbn; [destruct mq as [[]|]; cbn|];
      try (by eexists); destruct gr; cbn; by eexists.
  - by intros [-> | ->].
  - by intros -> -> ->.
  - intros -> [-> | [-> | ->]]; cbn; try destruct hp; cbn;
      try destruct mq as [[]|]; cbn; by destruct gr.
Qed.

End PermissionProperties.

(** ** The theorems at concrete inputs *)

Import OfflineManager.
#[local] Existing Instance Codec.codec.

Lemma cache_capped_witness :
  length (getOfflineData Kmessages
            (store_all Kmessages (replicate 150 (None, 7)) fresh_world))
  = 100%nat.
Proof.
  destruct (cache_capped Kmessages fresh_world) as (_ & _ & Hfill);
    [discriminate|].
  destruct (Hfill (replicate 150 (None, 7))) as [_ Hlen];
    [reflexivity | reflexivity | exact Hlen].
Defined.



Lemma enqueue_survives_restart_witness :
  let w1 := after (queueAction sos (Some (JStr "help")) 5 "k3j") fresh_world in
  let w2 := after (constructor (localStorage w1) true 9) fresh_world in
  queued w2 = [new_action sos (Some (JStr "help")) 5 "k3j"].
Proof.
  destruct (enqueue_survives_restart sos (Some (JStr "help")) 5 "k3j"
              fresh_world true 9 fresh_world)
    as (_ & Hsaved & _).
  - intros r Hr. by apply elem_of_nil in Hr.
  - reflexivity.
  - vm_compute. reflexivity.
  - vm_compute. reflexivity.
  - vm_compute. reflexivity.
  - destruct (Hsaved eq_refl) as (_ & Hrestart & _). exact Hrestart.
Defined.

(** C7, as stated: a store that refuses the write.  [queueAction] returns
    the id and holds the action in memory, nothing has been persisted, and
    the manager constructed from that store after a restart has an empty
    queue. *)
Lemma enqueue_lost_when_store_full :
  let w1 := after (queueAction sos (Some (JStr "help")) 5 "k3j") fresh_full in
  let w2 := after (constructor (localStorage w1) true 9) fresh_world in
  outcome (queueAction sos (Some (JStr "help")) 5 "k3j") fresh_full
    = Normal "sos_5_k3j"
  ∧ queued w1 = [new_action sos (Some (JStr "help")) 5 "k3j"]
  ∧ items (localStorage w1) = ∅
  ∧ queued w2 = [].
Proof. vm_compute. done. Qed.

Lemma wf_queue_concrete (w : World) :
  Forall (λ r, r < length (heap (mgr w)))%nat (syncQueue (mgr w)) →
  wf_queue w.
Proof. intros Hall r Hr. by rewrite Forall_forall in Hall; apply Hall. Qed.

Lemma online_transition_drains_witness :
  let w2 := run (settle_all [accept_all; accept_all; accept_all] 9)
                (step Codec.three_queued Online) in
  syncQueue (mgr w2) = [] ∧ queuedActions (getSyncStatus w2) = 0%nat.
Proof.
  destruct (online_transition_drains Codec.three_queued
              [accept_all; accept_all; accept_all] 9)
    as (_ & Hidle & _).
  - reflexivity.
  - apply wf_queue_concrete. vm_compute. repeat constructor.
  - vm_compute. discriminate.
  - destruct Hidle as (_ & Hq & Hn & _).
    + reflexivity.
    + reflexivity.
    + apply Forall_forall. vm_compute. repeat constructor.
    + reflexivity.
    + repeat constructor.
    + split; [exact Hq | exact Hn].
Defined.

(** C9, as stated: the connection is lost while a drain is in flight.  An
    action is queued online (its drain starts and awaits the remote), the
    connection drops, a second action is queued, and the connection
    returns: the [online] event starts no drain, and when the first drain
    has ended against an accepting remote the second action is still
    queued. *)
Lemma online_during_drain_leaves_queue :
  let w1 := step Codec.queued_during_drain Online in
  let w2 := run (settle_all [accept_all] 9) w1 in
  (isOnline (mgr Codec.queued_during_drain) = false
   ∧ length (syncQueue (mgr Codec.queued_during_drain)) = 2%nat)
  ∧ (isOnline (mgr w1) = true
     ∧ nextTag w1 = nextTag Codec.queued_during_drain
     ∧ actionsToSync <$> drains w1 = [[0%nat]])
  ∧ (drains w2 = [] ∧ syncInProgress (mgr w2) = false
     ∧ id <$> queued w2 = ["message_2_b"]
     ∧ queuedActions (getSyncStatus w2) = 1%nat).
Proof. vm_compute. done. Qed.

Lemma fifo_dispatch_witness :
  let w3 := Codec.three_queued in
  let w4 := run (Online :: settle_all [accept_all; accept_all; accept_all] 9)
                w3 in
  omap (λ r, heap (mgr w3) !! r) (dispatched_by (nextTag w3) w4)
  = [new_action message Codec.message_payload 1 "a";
     new_action status Codec.status_payload 2 "b";
     new_action sos Codec.sos_payload 3 "c"].
Proof.
  destruct (fifo_dispatch fresh_world
              message Codec.message_payload 1 "a" status Codec.status_payload 2 "b"
              sos Codec.sos_payload 3 "c" [accept_all; accept_all; accept_all] 9)
    as (_ & Horder & _).
  - reflexivity.
  - reflexivity.
  - reflexivity.
  - intros r Hr. by apply elem_of_nil in Hr.
  - intros p Hp. by apply elem_of_nil in Hp.
  - reflexivity.
  - exact Horder.
Defined.

Lemma retry_budget_witness :
  let w1 := run (SyncWhenOnline :: settle_all [reject_all] 1) Codec.one_queued in
  let w2 := run (SyncWhenOnline :: settle_all [reject_all] 2) w1 in
  let w3 := run (SyncWhenOnline :: settle_all [reject_all] 3) w2 in
  (0%nat ∉ syncQueue (mgr w3))
  ∧ retryCount <$> (heap (mgr w3) !! 0%nat) = Some maxRetries
  ∧ attempts 0 w3 = (attempts 0 Codec.one_queued + 3)%nat.
Proof.
  destruct (retry_budget Codec.one_queued 0 (new_action sos Codec.sos_payload 5 "k3j")
              [reject_all] [reject_all] [reject_all] 1 2 3)
    as (_ & _ & Hlast).
  - repeat split; try reflexivity.
    + apply wf_queue_concrete. repeat constructor.
    + apply NoDup_singleton.
  - by left.
  - reflexivity.
  - reflexivity.
  - intros r' a a' ->%list_elem_of_singleton Hne. done.
  - repeat constructor.
  - reflexivity.
  - vm_compute. reflexivity.
  - vm_compute. reflexivity.
  - exact Hlast.
Defined.


Lemma offline_never_dispatches_witness :
  remote (run [QueueAction sos Codec.sos_payload 1 "a"; PeriodicSync;
               VisibilityChange false; SyncWhenOnline;
               StoreOfflineData Kmessages Codec.message_payload 2]
              fresh_world) = [].
Proof.
  destruct (offline_never_dispatches
              [QueueAction sos Codec.sos_payload 1 "a"; PeriodicSync;
               VisibilityChange false; SyncWhenOnline;
               StoreOfflineData Kmessages Codec.message_payload 2]
              fresh_world) as (Hrem & _).
  - reflexivity.
  - reflexivity.
  - repeat (apply Forall_cons_2; [discriminate|]). apply Forall_nil_2.
  - exact Hrem.
Defined.

Lemma enqueue_online_drains_witness :
  let w1 := step fresh_online (QueueAction sos Codec.sos_payload 5 "k3j") in
  syncInProgress (mgr w1) = true
  ∧ remote (run (settle_all [accept_all] 9) w1)
    = [RPush "sosAlerts" Codec.sos_payload].
Proof.
  destruct (enqueue_online_drains sos Codec.sos_payload 5 "k3j" fresh_online
              [accept_all] 9) as ((_ & Hsip & _) & Hdrain).
  - reflexivity.
  - reflexivity.
  - reflexivity.
  - intros r Hr. by apply elem_of_nil in Hr.
  - split; [exact Hsip|].
    destruct Hdrain as [_ Hrem].
    + reflexivity.
    + repeat constructor.
    + intros a' ->%list_elem_of_singleton. reflexivity.
    + exact Hrem.
Defined.

Lemma drain_outcome_witness :
  let w' := run (SyncWhenOnline :: settle_all [reject_all] 9)
                Codec.one_queued in
  syncQueue (mgr w') `sublist_of` [0%nat]
  ∧ lastSync (offlineData (mgr w')) = Some (JNum 9).
Proof.
  destruct (drain_outcome Codec.one_queued [reject_all] 9)
    as (Hsub & _ & Hlast & _).
  - reflexivity.
  - reflexivity.
  - reflexivity.
  - apply wf_queue_concrete. repeat constructor.
  - discriminate.
  - reflexivity.
  - split; [exact Hsub | exact Hlast].
Defined.

Lemma action_fields_fixed_witness :
  ∃ a', heap (mgr (run [SyncWhenOnline; Settle 0 reject_all 3]
                       Codec.one_queued)) !! 0%nat = Some a'
        ∧ id a' = id (new_action sos Codec.sos_payload 5 "k3j")
        ∧ 0 <= retryCount a'.
Proof.
  destruct (action_fields_fixed [SyncWhenOnline; Settle 0 reject_all 3]
              Codec.one_queued 0%nat
              (new_action sos Codec.sos_payload 5 "k3j") eq_refl)
    as (a' & Ha' & Hid & _ & _ & _ & Hrc).
  exists a'. split; [exact Ha'|]. split; [exact Hid | exact Hrc].
Defined.

Lemma queueAction_store_full_witness :
  let w1 := after (queueAction sos Codec.sos_payload 5 "k3j") fresh_full in
  queued w1 = [new_action sos Codec.sos_payload 5 "k3j"]
  ∧ localStorage w1 = full_storage.
Proof.
  destruct (queueAction_store_full sos Codec.sos_payload 5 "k3j" fresh_full)
    as (_ & Hq & Hst & _).
  - intros r Hr. by apply elem_of_nil in Hr.
  - reflexivity.
  - split; [exact Hq | exact Hst].
Defined.

Lemma stored_entry_read_back_witness :
  ∃ e, last (getOfflineData Kmessages
               (after (storeOfflineData Kmessages Codec.message_payload 7)
                      fresh_world)) = Some e
       ∧ prop e "_offline" = Some (JBool true)
       ∧ prop e "message" = Some (JStr "hi").
Proof.
  destruct (stored_entry_read_back Kmessages Codec.message_payload 7
              fresh_world)
    as (e & He & Hoff & _ & Hkeep); [discriminate|].
  exists e. split; [exact He|]. split; [exact Hoff|].
  rewrite (Hkeep [("childCode", JStr "c1"); ("message", JStr "hi")]
             "message" eq_refl); [reflexivity | discriminate | discriminate].
Defined.

Lemma cache_bounded_always_witness :
  (length (getOfflineData Klocations
             (run [StoreOfflineData Klocations None 1; Online;
                   ClearOfflineData 2] fresh_world)) ≤ 100)%nat.
Proof.
  apply (cache_bounded_always
           [StoreOfflineData Klocations None 1; Online; ClearOfflineData 2]
           fresh_world).
  intros k. destruct k; cbn; lia.
Defined.

Lemma cache_survives_restart_witness :
  let w1 := after (storeOfflineData Kmessages Codec.message_payload 7)
                  fresh_world in
  let w2 := after (constructor (localStorage w1) true 9) fresh_world in
  offlineData (mgr w2) = offlineData (mgr w1).
Proof.
  destruct (cache_survives_restart Kmessages Codec.message_payload 7
              fresh_world true 9 fresh_world) as (Hkeep & _).
  - reflexivity.
  - reflexivity.
  - vm_compute. reflexivity.
  - vm_compute. reflexivity.
  - vm_compute. reflexivity.
  - apply Hkeep. reflexivity.
Defined.


Lemma location_update_fallback_witness :
  let run_it := updateFirebaseLocation reject_all true
                  (Some (JObj [("lat", JNum 48); ("lng", JNum 2)]))
                  "c1" 5 6 "k3j" in
  outcome run_it fresh_world = Normal tt
  ∧ remote (after run_it fresh_world) = [].
Proof.
  destruct (location_update_fallback reject_all true
              (Some (JObj [("lat", JNum 48); ("lng", JNum 2)]))
              "c1" 5 6 "k3j" fresh_world) as (_ & Hfail).
  - intros r Hr. by apply elem_of_nil in Hr.
  - destruct (Hfail eq_refl) as (Hqueued & _).
    destruct (Hqueued eq_refl) as (Hout & _ & _ & _ & Hrem).
    split; [exact Hout | exact Hrem].
Defined.
